(** * Two tracking demos: langchain_gemini.py and langchain_gemini_sentrial.py

    A shallow embedding of the two demonstration scripts and the properties
    of their call sequences against the tracking SDKs.

    - [Py]: the fragment of the Python runtime the scripts rely on
      (exceptions, exit status, truthiness, slices, dict subscripts,
      try/except/finally) and the monad in which the scripts are written.
    - [Sentrial]: langchain_gemini_sentrial.py (the support-agent demo).
    - [SessionAggregator]: the part of the Sentrial SDK the demo reads its
      usage summary from.
    - [Raindrop]: langchain_gemini.py (the raindrop demo).
    - [Samples]: concrete configurations and worlds.

    The SDKs, the LLM client and the agent framework are not part of the
    scripts: every call into them is an event of the run's trace, and what
    the call answers (a value, or an exception) is decided by the [world]
    the run is quantified over.  Keyword arguments that no property reads
    (model names, trait and property bags, attachment payloads, message
    texts) are not recorded.  Of the print statements, those that report a
    caught exception are recorded, and so are the two progress prints after
    which a call is still owed: line 476 of the support-agent demo, inside
    the [try] block after [complete_session], and line 204 of the raindrop
    demo, between [add_attachments] and [finish]; like any call they may
    raise.  The other progress prints are not recorded: where one of them
    raises, the run is a prefix of a run described here, followed by the
    handling of that exception. *)

From stdpp Require Import base strings gmap list pretty.
From Stdlib Require Import QArith.

#[local] Open Scope Z_scope.

(** ** The Python runtime the scripts use *)
Module Py.

(** Exceptions the scripts can meet.  All are subclasses of [Exception];
    [IndentationError] is the [SyntaxError] raised when a module is compiled. *)
Inductive exn :=
| Exception (msg : string)
| KeyError (key : string)
| IndexError
| ImportError (name : string)
| IndentationError (line : nat) (msg : string).

(** [str(e)]: the text an f-string or [str] renders for an exception. *)
Definition str (e : exn) : string :=
  match e with
  | Exception msg => msg
  | KeyError key => "'" +:+ key +:+ "'"
  | IndexError => "list index out of range"
  | ImportError name => "No module named '" +:+ name +:+ "'"
  | IndentationError _ msg => msg
  end.

(** How a statement, a function or the whole process ends: normally, with an
    exception in flight, or by [sys.exit(code)] ([SystemExit] is not an
    [Exception], so [except Exception] lets it through). *)
Inductive outcome (A : Type) :=
| Return (a : A)
| Raise (e : exn)
| SystemExit (code : Z).
Arguments Return {A} a.
Arguments Raise {A} e.
Arguments SystemExit {A} code.

(** Exit status of the interpreter: 0 when the script runs off its end, 1 on
    an uncaught exception, the argument of [sys.exit] otherwise. *)
Definition exit_code {A} (o : outcome A) : Z :=
  match o with
  | Return _ => 0
  | Raise _ => 1
  | SystemExit code => code
  end.

(** Truth value of [os.getenv(k)] / [os.environ.get(k)]: [None] and the
    empty string are falsy. *)
Definition truthy (v : option string) : bool :=
  match v with
  | Some s => negb (String.eqb s EmptyString)
  | None => false
  end.

#[export] Instance Q_eq_dec : EqDecision Q.
Proof. solve_decision. Defined.

#[export] Instance exn_eq_dec : EqDecision exn.
Proof. solve_decision. Defined.

(** [int(x)] on a number: truncation toward zero. *)
Definition int (x : Q) : Z := Z.quot (Qnum x) (Z.pos (Qden x)).

Definition nl : string := String (Ascii.ascii_of_nat 10) EmptyString.
Definition dq : string := String (Ascii.ascii_of_nat 34) EmptyString.

(** [l[:stop]]: the stop index is taken from the end when negative and then
    clamped into [0, len(l)], so the slice never fails. *)
Definition slice_stop (len stop : Z) : Z :=
  if stop <? 0 then Z.max 0 (stop + len) else Z.min stop len.

Definition slice_upto {A} (l : list A) (stop : Z) : list A :=
  take (Z.to_nat (slice_stop (Z.of_nat (length l)) stop)) l.

(** [d[k]] on a dict: [KeyError] when the key is absent. *)
Definition subscript {V} (d : gmap string V) (k : string) : outcome V :=
  match d !! k with
  | Some v => Return v
  | None => Raise (KeyError k)
  end.

(** [l[-1]]: [IndexError] on the empty list. *)
Definition last_item {A} (l : list A) : outcome A :=
  match last l with
  | Some x => Return x
  | None => Raise IndexError
  end.

(** What a call out of the script answers: an exception, or a return value
    read at the type the call site uses it at. *)
Record reply := {
  raises : option exn;
  text : string;
  number : Q;
  mapping : gmap string Q;
  messages : option (list string);
}.

(** The outside world: the answer to the n-th event of the run. *)
Definition world := nat → reply.

Section Monad.
Context {call : Type}.

(** A computation threads the trace of events emitted so far. *)
Definition M (A : Type) : Type := list call → outcome A * list call.

Definition ret {A} (a : A) : M A := λ t, (Return a, t).

Definition bind {A B} (m : M A) (f : A → M B) : M B :=
  λ t, match m t with
       | (Return a, t') => f a t'
       | (Raise e, t') => (Raise e, t')
       | (SystemExit c, t') => (SystemExit c, t')
       end.

Definition raise {A} (e : exn) : M A := λ t, (Raise e, t).

Definition sys_exit {A} (code : Z) : M A := λ t, (SystemExit code, t).

(** Lift a pure evaluation that may raise. *)
Definition eval {A} (o : outcome A) : M A := λ t, (o, t).

(** Position of the next event; the handle of an object is the position of
    the call that created it. *)
Definition position : M nat := λ t, (Return (length t), t).

(** A call into an SDK or a third-party library: recorded, then it returns
    or raises as the world decides. *)
Definition extcall (w : world) (c : call) : M reply :=
  λ t, match raises (w (length t)) with
       | Some e => (Raise e, t ++ [c])
       | None => (Return (w (length t)), t ++ [c])
       end.

(** A call of the standard library ([time.time], [time.sleep], [print]):
    recorded, always returns. *)
Definition libcall (w : world) (c : call) : M reply :=
  λ t, (Return (w (length t)), t ++ [c]).

(** [try: body except Exception as e: handler e]. *)
Definition try_except {A} (body : M A) (handler : exn → M A) : M A :=
  λ t, match body t with
       | (Raise e, t') => handler e t'
       | r => r
       end.

(** [try: body except ImportError: handler]: any other exception goes
    through. *)
Definition try_except_import {A} (body : M A) (handler : M A) : M A :=
  λ t, match body t with
       | (Raise (ImportError _), t') => handler t'
       | r => r
       end.

(** [try: body finally: final]: [final] always runs; when it ends normally
    the outcome of [body] stands. *)
Definition try_finally {A} (body : M A) (final : M unit) : M A :=
  λ t, let '(r, t') := body t in
       match final t' with
       | (Return _, t'') => (r, t'')
       | (Raise e, t'') => (Raise e, t'')
       | (SystemExit c, t'') => (SystemExit c, t'')
       end.

(** [for x in l: acc = body acc x]. *)
Fixpoint for_each {A B} (l : list A) (body : B → A → M B) (acc : B) : M B :=
  match l with
  | [] => ret acc
  | x :: l' => bind (body acc x) (for_each l' body)
  end.
End Monad.

Arguments M call A : clear implicits.

#[export] Instance M_ret {call} : MRet (M call) := λ A, ret.
#[export] Instance M_bind {call} : MBind (M call) := λ A B f m, bind m f.

(** A run from the empty trace. *)
Definition run {call A} (m : M call A) : outcome A * list call := m [].

(** *** Monitors

    A property of a run is stated by a monitor: an automaton that reads the
    trace event by event, knowing the position of each event, and refuses
    ([None]) the event that breaks the property. *)
Section Monitor.
Context {call St : Type} (δ : nat → St → call → option St).

Fixpoint monitor (n : nat) (s : St) (u : list call) : option St :=
  match u with
  | [] => Some s
  | c :: u' =>
    match δ n s c with
    | Some s' => monitor (S n) s' u'
    | None => None
    end
  end.

(** [triple n s m post]: started at position [n] with the monitor in state
    [s], the computation [m] only appends events, the monitor accepts them,
    and [post] holds of the outcome, the final position and the final
    monitor state. *)
Definition triple {A} (n : nat) (s : St) (m : M call A)
    (post : outcome A → nat → St → Prop) : Prop :=
  ∀ t, length t = n →
    ∃ u s', (m t).2 = t ++ u ∧ monitor n s u = Some s' ∧
            post (m t).1 (n + length u)%nat s'.
End Monitor.

(** The monitor that accepts every event and keeps them: its state is the
    list of the events read so far. *)
Definition record {call} (n : nat) (s : list call) (c : call) : option (list call) :=
  Some (s ++ [c]).

(** A world in which every call returns. *)
Definition calm (w : world) : Prop := ∀ n, raises (w n) = None.

(** The world [w], except that the [k]-th event raises [e]. *)
Definition failing_at (k : nat) (e : exn) (w : world) : world :=
  λ n, if (n =? k)%nat
       then {| raises := Some e; text := text (w n); number := number (w n);
               mapping := mapping (w n); messages := messages (w n) |}
       else w n.

(** *** Strings and dicts in insertion order *)

(** [needle in s] on strings: [needle] occurs in [s] as a substring. *)
Fixpoint contains (needle s : string) : bool :=
  String.prefix needle s ||
  match s with
  | EmptyString => false
  | String _ s' => contains needle s'
  end.

(** [sep.join(l)]. *)
Fixpoint join (sep : string) (l : list string) : string :=
  match l with
  | [] => EmptyString
  | x :: l' =>
    match l' with
    | [] => x
    | _ :: _ => x +:+ sep +:+ join sep l'
    end
  end.

(** A dict whose iteration order matters is the list of its items in
    insertion order; [getitem d k] is [d[k]]. *)
Fixpoint getitem {V} (d : list (string * V)) (k : string) : outcome V :=
  match d with
  | [] => Raise (KeyError k)
  | (k', v) :: d' => if String.eqb k' k then Return v else getitem d' k
  end.

End Py.

Import Py.

(** ** langchain_gemini_sentrial.py *)
Module Sentrial.

(** Events of a run of the support-agent demo.  The arguments of a
    [complete_session] call: a custom metric is recorded with its value,
    except [average_handle_time], which is [int(elapsed)] for a difference
    [elapsed] of two floating-point clock readings (line 433) and is
    recorded without a value. *)
Record completion := {
  session_id : string;
  success : bool;
  failure_reason : option string;
  duration_ms : Q;
  estimated_cost : Q;
  prompt_tokens : Q;
  completion_tokens : Q;
  total_tokens : Q;
  custom_metrics : option (list (string * option Q));
}.

Inductive call :=
| SentrialClient (api_url : string) (api_key : option string)
| create_session (name agent_name : string)
| SentrialCallbackHandler (session : string)
| ChatGoogleGenerativeAI (model : string)
| create_agent
| agent_invoke
| get_usage_summary
| complete_session (args : completion)
| time_time
| time_sleep (seconds : Q)
| print_error (msg : string)
| traceback_print_exc
| print_progress (line : nat).

(** *** Tools *)

(** An order of [get_order_history] is a dict of five string fields. *)
Definition orders : list (gmap string string) :=
  [ list_to_map [("id", "ORD-98765"); ("date", "2024-01-15"); ("amount", "$299.99");
                 ("status", "Delivered"); ("item", "Wireless Headphones Pro")];
    list_to_map [("id", "ORD-98432"); ("date", "2024-01-10"); ("amount", "$149.50");
                 ("status", "Delivered"); ("item", "Smart Watch Band")];
    list_to_map [("id", "ORD-98101"); ("date", "2024-01-05"); ("amount", "$599.00");
                 ("status", "Delivered"); ("item", "4K Monitor 27inch")];
    list_to_map [("id", "ORD-97888"); ("date", "2023-12-20"); ("amount", "$89.99");
                 ("status", "Delivered"); ("item", "USB-C Hub")];
    list_to_map [("id", "ORD-97654"); ("date", "2023-12-15"); ("amount", "$1,299.00");
                 ("status", "Delivered"); ("item", "Laptop Stand Deluxe")] ].

(** One iteration of the loop of [get_order_history]: the f-string reads the
    fields in the order id, item, amount, status, date. *)
Definition append_order (result : string) (order : gmap string string) : M call string :=
  id ← eval (subscript order "id");
  item ← eval (subscript order "item");
  amount ← eval (subscript order "amount");
  status ← eval (subscript order "status");
  date ← eval (subscript order "date");
  mret (result +:+ "  - " +:+ id +:+ ": " +:+ item +:+ " - " +:+ amount
               +:+ " (" +:+ status +:+ ") - " +:+ date +:+ nl).

(** Lines 62-77: the body of the tool, which [@tool] wraps for the agent. *)
Definition get_order_history (w : world) (customer_id : string) (limit : Z) : M call string :=
  libcall w (time_sleep (1 # 2));;
  let result := "Recent orders for " +:+ customer_id +:+ ":" +:+ nl in
  for_each (slice_upto orders limit) append_order result.

(** The five lines the tool can list, as the source spells them. *)
Definition order_lines : list string :=
  [ "  - ORD-98765: Wireless Headphones Pro - $299.99 (Delivered) - 2024-01-15" +:+ nl;
    "  - ORD-98432: Smart Watch Band - $149.50 (Delivered) - 2024-01-10" +:+ nl;
    "  - ORD-98101: 4K Monitor 27inch - $599.00 (Delivered) - 2024-01-05" +:+ nl;
    "  - ORD-97888: USB-C Hub - $89.99 (Delivered) - 2023-12-20" +:+ nl;
    "  - ORD-97654: Laptop Stand Deluxe - $1,299.00 (Delivered) - 2023-12-15" +:+ nl ].

Fixpoint concat_lines (ls : list string) : string :=
  match ls with
  | [] => EmptyString
  | l :: ls' => l +:+ concat_lines ls'
  end.

(** The [articles] dict of [search_knowledge_base] (lines 104-125), its
    items in insertion order, which is the order [articles.items()] yields
    them in. *)
Definition articles : list (string * list string) :=
  [ ("refund",
     [ "KB-1001: How to Request a Refund";
       "KB-1002: Refund Processing Times";
       "KB-1003: Refund Policy for Premium Members" ]);
    ("headphones",
     [ "KB-2001: Troubleshooting Wireless Headphones";
       "KB-2002: Pairing Instructions for Headphones Pro";
       "KB-2003: Common Audio Quality Issues" ]);
    ("warranty",
     [ "KB-3001: Understanding Your Warranty";
       "KB-3002: Filing a Warranty Claim";
       "KB-3003: Extended Warranty Options" ]);
    ("default",
     [ "KB-0001: Contact Support Options";
       "KB-0002: Frequently Asked Questions";
       "KB-0003: Shipping and Returns Overview" ]) ].

(** ["\n".join(f"  - {a}" for a in arts)]. *)
Definition bullets (arts : list string) : string :=
  join nl ((λ a, "  - " +:+ a) <$> arts).

(** The loop of lines 127-129 over the items still to visit: the value of
    the first [return] it reaches, if it reaches one.  [lowered] is
    [query.lower()]. *)
Fixpoint search_articles (lowered query : string) (items : list (string * list string))
    : option string :=
  match items with
  | [] => None
  | (key, arts) :: rest =>
    if contains key lowered
    then Some ("Found relevant articles for '" +:+ query +:+ "':" +:+ nl +:+ bullets arts)
    else search_articles lowered query rest
  end.

(** Lines 99-131.  [lower] stands for the built-in [str.lower], which is
    left uninterpreted: the tool only tests the lowered query for the
    keys. *)
Definition search_knowledge_base (lower : string → string) (w : world) (query : string)
    : M call string :=
  libcall w (time_sleep (3 # 5));;
  match search_articles (lower query) query articles with
  | Some result => mret result
  | None =>
    arts ← eval (getitem articles "default");
    mret ("Found articles for '" +:+ query +:+ "':" +:+ nl +:+ bullets arts)
  end.

(** *** The script *)

(** What a run starts from: the process environment, the variables of the
    [.env] file, and the first import of the module that cannot be resolved,
    if any. *)
Record config := {
  environ : gmap string string;
  dotenv : gmap string string;
  missing_module : option string;
}.

(** [load_dotenv()]: variables of [.env] are added to [os.environ]; those
    already set keep their value. *)
Definition load_dotenv (cfg : config) : gmap string string :=
  environ cfg ∪ dotenv cfg.

Definition AGENT_NAME : string := "gemini_support_agent".

(** The keys of the usage summary that [main] reads. *)
Definition forwarded_keys : list string :=
  ["duration_ms"; "total_cost"; "total_prompt_tokens"; "total_completion_tokens";
   "total_tokens"].

Definition summary_keys : list string := "llm_calls" :: forwarded_keys.

(** Body of the [try] block of [main] (lines 424-476).  The clock is read
    for [elapsed] (line 433), whose value is not computed. *)
Definition main_try (w : world) (session : string) : M call unit :=
  result ← extcall w agent_invoke;
  libcall w time_time;;
  u ← extcall w get_usage_summary;
  let usage := mapping u in
  (* lines 440-444: print the last message, or the whole result *)
  match messages result with
  | Some msgs => eval (last_item msgs);; mret tt
  | None => mret tt
  end;;
  (* lines 449-455: the metrics are read for printing *)
  eval (subscript usage "llm_calls");;
  eval (subscript usage "total_prompt_tokens");;
  eval (subscript usage "total_completion_tokens");;
  eval (subscript usage "total_tokens");;
  eval (subscript usage "total_cost");;
  eval (subscript usage "duration_ms");;
  (* lines 459-474 *)
  duration ← eval (subscript usage "duration_ms");
  cost ← eval (subscript usage "total_cost");
  prompt ← eval (subscript usage "total_prompt_tokens");
  completion ← eval (subscript usage "total_completion_tokens");
  total ← eval (subscript usage "total_tokens");
  llm_calls ← eval (subscript usage "llm_calls");
  extcall w (complete_session {|
    session_id := session;
    success := true;
    failure_reason := None;
    duration_ms := duration;
    estimated_cost := cost;
    prompt_tokens := prompt;
    completion_tokens := completion;
    total_tokens := total;
    custom_metrics := Some [
      ("customer_satisfaction_score", Some (9 # 2));
      ("first_contact_resolution", Some (1 # 1));
      ("escalation_rate", Some (0 # 1));
      ("average_handle_time", None);
      ("tools_called", Some llm_calls) ]
  |});;
  (* line 476 *)
  extcall w (print_progress 476);;
  mret tt.

(** Body of the [except Exception as e] block of [main] (lines 478-493). *)
Definition main_except (w : world) (session : string) (e : exn) : M call unit :=
  libcall w (print_error (str e));;
  libcall w traceback_print_exc;;
  u ← extcall w get_usage_summary;
  let usage := mapping u in
  duration ← eval (subscript usage "duration_ms");
  cost ← eval (subscript usage "total_cost");
  prompt ← eval (subscript usage "total_prompt_tokens");
  completion ← eval (subscript usage "total_completion_tokens");
  total ← eval (subscript usage "total_tokens");
  extcall w (complete_session {|
    session_id := session;
    success := false;
    failure_reason := Some (str e);
    duration_ms := duration;
    estimated_cost := cost;
    prompt_tokens := prompt;
    completion_tokens := completion;
    total_tokens := total;
    custom_metrics := None
  |});;
  mret tt.

(** Lines 328-496. *)
Definition main (w : world) (env : gmap string string) : M call unit :=
  if negb (truthy (env !! "GEMINI_API_KEY")) then sys_exit 1 else
  let api_key := env !! "SENTRIAL_API_KEY" in
  extcall w (SentrialClient (default "http://localhost:3001" (env !! "SENTRIAL_API_URL"))
                            api_key);;
  s ← extcall w (create_session "Complex Multi-Step Support Agent Test" AGENT_NAME);
  let session := text s in
  extcall w (SentrialCallbackHandler session);;
  extcall w (ChatGoogleGenerativeAI "gemini-3-pro");;
  extcall w create_agent;;
  libcall w time_time;;
  try_except (main_try w session) (main_except w session).

(** The module, top to bottom: [load_dotenv()], the imports, then [main()]
    under [if __name__ == "__main__"]. *)
Definition script (cfg : config) (w : world) : M call unit :=
  let env := load_dotenv cfg in
  match missing_module cfg with
  | Some name => raise (ImportError name)
  | None => main w env
  end.

(** The [complete_session] calls of a trace, in order. *)
Definition completions (t : list call) : list completion :=
  omap (λ c, match c with complete_session a => Some a | _ => None end) t.

(** *** Monitors of the session protocol *)

(** [forwards usage a]: the five metrics of the completion [a] are the
    values the summary [usage] holds under the keys [main] reads, and a
    successful completion was computed from a summary that also holds
    [llm_calls]. *)
Definition forwards (usage : gmap string Q) (a : completion) : Prop :=
  usage !! "duration_ms" = Some (duration_ms a) ∧
  usage !! "total_cost" = Some (estimated_cost a) ∧
  usage !! "total_prompt_tokens" = Some (prompt_tokens a) ∧
  usage !! "total_completion_tokens" = Some (completion_tokens a) ∧
  usage !! "total_tokens" = Some (total_tokens a) ∧
  (success a = true → is_Some (usage !! "llm_calls")).

#[export] Instance forwards_dec usage a : Decision (forwards usage a).
Proof. unfold forwards. apply _. Defined.

(** The state is the summary returned by [get_usage_summary] when that was
    the previous event of the trace.  A [complete_session] is accepted only
    right after a [get_usage_summary], with the metrics of that summary. *)
Definition forward_monitor (w : world) (n : nat) (s : option (gmap string Q))
    (c : call) : option (option (gmap string Q)) :=
  match c with
  | get_usage_summary => Some (Some (mapping (w n)))
  | complete_session a =>
    match s with
    | Some usage => if decide (forwards usage a) then Some None else None
    | None => None
    end
  | _ => Some None
  end.

(** State of the completion protocol: the session id [create_session]
    returned, the error message last printed by the handler, and whether a
    [complete_session] call has returned. *)
Record protocol := {
  created : option string;
  printed : option string;
  completed : bool;
}.

Definition protocol_start : protocol :=
  {| created := None; printed := None; completed := false |}.

(** A [complete_session] is accepted when it names the created session, and
    it either reports success from outside the handler, or reports failure
    with the message the handler printed. *)
Definition completion_ok (s : protocol) (a : completion) : Prop :=
  created s = Some (session_id a) ∧
  (if success a
   then failure_reason a = None ∧ printed s = None
   else is_Some (printed s) ∧ failure_reason a = printed s).

#[export] Instance completion_ok_dec s a : Decision (completion_ok s a).
Proof. unfold completion_ok. destruct (success a); apply _. Defined.

Definition protocol_monitor (w : world) (n : nat) (s : protocol) (c : call)
    : option protocol :=
  match c with
  | create_session _ _ =>
    Some {| created := match raises (w n) with
                       | Some _ => None
                       | None => Some (text (w n))
                       end;
            printed := printed s; completed := completed s |}
  | print_error msg =>
    Some {| created := created s; printed := Some msg; completed := completed s |}
  | complete_session a =>
    if decide (completion_ok s a)
    then Some {| created := created s; printed := printed s;
                 completed := completed s || bool_decide (raises (w n) = None) |}
    else None
  | _ => Some s
  end.

(** Repeated reports.  The state tells whether [complete_session] has been
    called: not yet, once with [success=True] at position [i], or for the
    last time. *)
Inductive reports := NoReport | Succeeded (i : nat) | Reported.

Definition is_progress (line : nat) (c : call) : bool :=
  match c with
  | print_progress l => bool_decide (l = line)
  | _ => false
  end.

(** After a report of success at position [i], one more [complete_session]
    is accepted: a report of failure, made because the first call raised, or
    because it returned and the event after it raised; that event is then
    the print of line 476.  No other [complete_session] is accepted after a
    first one. *)
Definition repeat_monitor (w : world) (n : nat) (s : reports) (c : call)
    : option reports :=
  match s, c with
  | NoReport, complete_session a => Some (if success a then Succeeded n else Reported)
  | Succeeded i, complete_session a =>
    if decide (success a = false ∧
               (raises (w i) ≠ None ∨ (S i < n)%nat ∧ raises (w (S i)) ≠ None))
    then Some Reported else None
  | Reported, complete_session _ => None
  | Succeeded i, _ =>
    if decide (n = S i ∧ raises (w i) = None ∧ is_progress 476 c = false)
    then None else Some s
  | _, _ => Some s
  end.

(** Success reports: the state tells whether [agent.invoke] has returned a
    result whose message list, if it has one, is not empty.  A
    [complete_session] with [success=True] is accepted only then. *)
Definition success_monitor (w : world) (n : nat) (answered : bool) (c : call)
    : option bool :=
  match c with
  | agent_invoke =>
    Some (bool_decide (raises (w n) = None ∧ messages (w n) ≠ Some []))
  | complete_session a => if success a && negb answered then None else Some answered
  | _ => Some answered
  end.

(** Custom metrics: a report of success, which can only be event 9 of a
    run, carries the three constants of lines 468-470,
    [average_handle_time] and, as [tools_called], the [llm_calls] of the
    usage summary (event 8); a report of failure carries no custom
    metrics. *)
Definition metrics_ok (w : world) (n : nat) (a : completion) : Prop :=
  if success a then
    n = 9%nat ∧
    match mapping (w 8%nat) !! "llm_calls" with
    | Some llm_calls =>
      custom_metrics a = Some [
        ("customer_satisfaction_score", Some (9 # 2));
        ("first_contact_resolution", Some (1 # 1));
        ("escalation_rate", Some (0 # 1));
        ("average_handle_time", None);
        ("tools_called", Some llm_calls) ]
    | None => False
    end
  else custom_metrics a = None.

#[export] Instance metrics_ok_dec w n a : Decision (metrics_ok w n a).
Proof.
  unfold metrics_ok. destruct (success a); [|apply _].
  destruct (mapping (w 8%nat) !! "llm_calls"); apply _.
Defined.

Definition metrics_monitor (w : world) (n : nat) (s : unit) (c : call) : option unit :=
  match c with
  | complete_session a => if decide (metrics_ok w n a) then Some tt else None
  | _ => Some tt
  end.

End Sentrial.

(** ** The Session Aggregator of the Sentrial SDK *)
Module SessionAggregator.

(** Modelled from the spec: the completion status of a session (spec 3 and
    4.2); the SDK under packages/python-sdk is not among the sources. *)
Inductive status :=
| pending
| succeeded
| failed (reason : option string).

(** Modelled from the spec: the Session Aggregator's attributes (spec 3):
    identifier, names, running counters, start timestamp and status. *)
Record session := {
  session_id : string;
  name : string;
  agent_name : string;
  llm_calls : Q;
  total_prompt_tokens : Q;
  total_completion_tokens : Q;
  total_tokens : Q;
  total_cost : Q;
  started_ms : Q;
  state : status;
}.

(** Modelled from the spec: [create_session(name, agent_name)] allocates a
    session with zero counters and [pending] status (spec 4.2). *)
Definition create_session (id name agent_name : string) (now_ms : Q) : session :=
  {| session_id := id; name := name; agent_name := agent_name;
     llm_calls := 0; total_prompt_tokens := 0; total_completion_tokens := 0;
     total_tokens := 0; total_cost := 0; started_ms := now_ms; state := pending |}.

(** Modelled from the spec: [record_llm_call(prompt_tokens,
    completion_tokens, cost_estimate)] increments the counters (spec 4.2). *)
Definition record_llm_call (prompt completion cost : Q) (s : session) : session :=
  {| session_id := session_id s; name := name s; agent_name := agent_name s;
     llm_calls := llm_calls s + 1;
     total_prompt_tokens := total_prompt_tokens s + prompt;
     total_completion_tokens := total_completion_tokens s + completion;
     total_tokens := total_tokens s + (prompt + completion);
     total_cost := total_cost s + cost;
     started_ms := started_ms s; state := state s |}%Q.

(** Modelled from the spec: [usage_summary()], a pure read of the counters
    plus the time elapsed since the session started (spec 4.2); this is what
    [get_usage_summary] of the callback handler returns. *)
Definition usage_summary (s : session) (now_ms : Q) : gmap string Q :=
  list_to_map
    [ ("llm_calls", llm_calls s);
      ("total_prompt_tokens", total_prompt_tokens s);
      ("total_completion_tokens", total_completion_tokens s);
      ("total_tokens", total_tokens s);
      ("total_cost", total_cost s);
      ("duration_ms", (now_ms - started_ms s)%Q) ].

(** Modelled from the spec: [complete_session] moves a [pending] session to
    [succeeded] or [failed]; on a completed session it fails with
    [AlreadyCompletedError], here [None] (spec 4.2). *)
Definition complete_session (success : bool) (reason : option string) (s : session)
    : option session :=
  match state s with
  | pending =>
    Some {| session_id := session_id s; name := name s; agent_name := agent_name s;
            llm_calls := llm_calls s;
            total_prompt_tokens := total_prompt_tokens s;
            total_completion_tokens := total_completion_tokens s;
            total_tokens := total_tokens s; total_cost := total_cost s;
            started_ms := started_ms s;
            state := if success then succeeded else failed reason |}
  | _ => None
  end.

End SessionAggregator.

(** ** langchain_gemini.py *)
Module Raindrop.

(** *** Layout of the source file *)

(** A logical line of the file: the physical line it starts on, the column
    of its first token, and whether it is the header of a compound statement
    ([if ...:], [def ...:], [try:], ...) whose body starts on the next line.
    Blank lines and comment-only lines are not logical lines; a statement
    that spans several physical lines (a triple-quoted string, an open
    parenthesis) is one. *)
Record logical_line := {
  lineno : nat;
  indent : nat;
  header : bool;
}.

Definition stmt (line col : nat) : logical_line :=
  {| lineno := line; indent := col; header := false |}.
Definition block (line col : nat) : logical_line :=
  {| lineno := line; indent := col; header := true |}.

(** Lines 1-129 of langchain_gemini.py: the module docstring, the imports,
    the two SDK set-up blocks and [test_basic_tracking]. *)
Definition source_lines : list logical_line :=
  [ stmt 1 0; stmt 21 0; stmt 22 0; stmt 23 0; stmt 24 0; stmt 26 0;
    block 31 0; stmt 32 4; stmt 33 4;
    block 34 0; stmt 35 4; stmt 36 4;
    block 41 0; stmt 42 4; stmt 43 4;
      block 44 4; stmt 45 8; stmt 46 8;
      block 47 4; stmt 48 8; stmt 49 8;
    block 50 0; stmt 51 4; stmt 52 4;
    block 55 0;                                  (* def test_basic_tracking(): *)
      stmt 56 4; stmt 57 4; stmt 58 4; stmt 59 4;
      block 61 4; stmt 62 8; stmt 63 8;
      stmt 66 4;
      block 67 4; stmt 68 8; stmt 69 8;
      stmt 71 4; stmt 72 4; stmt 75 4; stmt 83 4; stmt 86 4;
      block 88 4;                                (* if GEMINI_AVAILABLE: *)
      stmt 90 4;                                 (* SYSTEM_PROMPT = ..., to line 101 *)
      stmt 103 4;                                (* model = genai.GenerativeModel(...), to line 106 *)
      stmt 107 8;                                (* response = model.generate_content(user_input) *)
      stmt 108 8;                                (* ai_output = response.text *)
      block 109 4;                               (* else: *)
      stmt 110 8;
      stmt 112 4; stmt 124 4; stmt 125 4; stmt 126 4; stmt 128 4; stmt 129 4 ]%nat.

Inductive indent_error :=
| expected_indented_block
| unexpected_indent
| inconsistent_dedent.

Definition indent_message (e : indent_error) : string :=
  match e with
  | expected_indented_block => "expected an indented block"
  | unexpected_indent => "unexpected indent"
  | inconsistent_dedent => "unindent does not match any outer indentation level"
  end.

(** The indentation rule of the language (Python reference, Lexical analysis,
    Indentation): a stack of columns starts as [0]; a line deeper than the
    top of the stack opens a block, which is only allowed right after a
    header, and is required there; a shallower line must return to a column
    that is on the stack.  [dedent] pops the columns deeper than the line;
    [check_indentation] returns the first line that breaks the rule. *)
Fixpoint dedent (col : nat) (stack : list nat) : list nat :=
  match stack with
  | top :: rest => if (col <? top)%nat then dedent col rest else stack
  | [] => []
  end.

Fixpoint check_indentation (stack : list nat) (after_header : bool)
    (ls : list logical_line) : option (nat * indent_error) :=
  match ls with
  | [] => None
  | l :: ls' =>
    let top := hd 0%nat stack in
    if after_header then
      if (top <? indent l)%nat
      then check_indentation (indent l :: stack) (header l) ls'
      else Some (lineno l, expected_indented_block)
    else if (top <? indent l)%nat then Some (lineno l, unexpected_indent)
    else
      let stack' := dedent (indent l) stack in
      if (hd 0%nat stack' =? indent l)%nat
      then check_indentation stack' (header l) ls'
      else Some (lineno l, inconsistent_dedent)
  end.

(** The layout the [else:] of line 109 calls for: the statements of lines
    90-106 in the block of the [if], at the column of lines 107-108. *)
Definition reindented_lines : list logical_line :=
  (λ l, if bool_decide (lineno l ∈ [90; 103]%nat) then stmt (lineno l) 8 else l)
    <$> source_lines.

(** Compiling the module, which the interpreter does before it executes the
    first statement. *)
Definition compile : outcome unit :=
  match check_indentation [0%nat] false source_lines with
  | Some (line, e) => Raise (IndentationError line (indent_message e))
  | None => Return tt
  end.

(** *** Events *)

Inductive call :=
| genai_configure (api_key : string)
| raindrop_init (write_key : string)
| raindrop_set_debug_logs (on : bool)
| raindrop_identify (user_id : string)
| raindrop_track_ai (user_id event : string) (event_id : option string)
    (input output : string) (convo_id : option string)
| raindrop_track_signal (event_id name signal_type : string)
| raindrop_begin (user_id event input : string)
| interaction_add_attachments (interaction : nat) (attachments : nat)
| interaction_finish (interaction : nat) (output : string) (attachments : nat)
| raindrop_flush
| raindrop_shutdown
| genai_GenerativeModel (name : string)
| model_generate_content (input : string)
| model_start_chat (history : list (string * string))
| chat_send_message (msg : string)
| time_time
| time_sleep (seconds : Q)
| print_error (msg : string)
| print_progress (line : nat).

(** *** The module as its statements are written *)

(** What a run starts from: the process environment, the variables of the
    [.env] file, and whether the two SDK packages can be imported. *)
Record config := {
  environ : gmap string string;
  dotenv : gmap string string;
  raindrop_installed : bool;
  genai_installed : bool;
}.

(** Module-level names the functions read. *)
Record globals := {
  env : gmap string string;
  RAINDROP_AVAILABLE : bool;
  GEMINI_AVAILABLE : bool;
}.

(** [load_dotenv()]: variables of [.env] are added to [os.environ]; those
    already set keep their value. *)
Definition load_dotenv (cfg : config) : gmap string string :=
  environ cfg ∪ dotenv cfg.

(** Lines 26-52: [load_dotenv()] and the two imports, each in a [try] that
    catches [ImportError]. *)
Definition module_body (cfg : config) (w : world) : M call globals :=
  let env := load_dotenv cfg in
  raindrop ←
    try_except_import
      (if raindrop_installed cfg then mret true
       else raise (ImportError "raindrop.analytics"))
      (mret false);
  gemini ←
    try_except_import
      (if genai_installed cfg then
         match env !! "GEMINI_API_KEY" with
         | Some key =>
           if truthy (Some key)
           then extcall w (genai_configure key);; mret true
           else mret false
         | None => mret false
         end
       else raise (ImportError "google.generativeai"))
      (mret false);
  mret {| env := env;
          RAINDROP_AVAILABLE := raindrop;
          GEMINI_AVAILABLE := gemini |}.

(** Lines 55-129.  The statements between [if GEMINI_AVAILABLE:] (line 88)
    and [else:] (line 109) are read as the body of the [if], which is the
    only block they can belong to. *)
Definition test_basic_tracking (w : world) (g : globals) : M call unit :=
  if negb (RAINDROP_AVAILABLE g) then mret tt else
  match env g !! "RAINDROP_WRITE_KEY" with
  | None => mret tt
  | Some write_key =>
    if negb (truthy (Some write_key)) then mret tt else
    extcall w (raindrop_init write_key);;
    extcall w (raindrop_set_debug_logs true);;
    extcall w (raindrop_identify "test_user_001");;
    let user_input := "What is the capital of France?" in
    ai_output ←
      (if GEMINI_AVAILABLE g then
         extcall w (genai_GenerativeModel "gemini-2.5-pro");;
         response ← extcall w (model_generate_content user_input);
         mret (text response)
       else mret "The capital of France is Paris.");
    extcall w (raindrop_track_ai "test_user_001" "user_message" None
                 user_input ai_output (Some "test_convo_001"));;
    extcall w raindrop_flush;;
    mret tt
  end.

(** Lines 132-173. *)
Definition test_signals (w : world) (g : globals) : M call unit :=
  if negb (RAINDROP_AVAILABLE g) then mret tt else
  now ← libcall w time_time;
  let event_id := "evt_" +:+ pretty (int (number now)) in
  extcall w (raindrop_track_ai "test_user_001" "chatbot_response" (Some event_id)
               "How do I reset my password?"
               "You can reset your password by clicking 'Forgot Password' on the login page."
               None);;
  extcall w (raindrop_track_signal event_id "thumbs_up" "default");;
  extcall w (raindrop_track_signal event_id "user_feedback" "feedback");;
  extcall w raindrop_flush;;
  mret tt.

Definition code_output : string :=
  "def fibonacci(n):" +:+ nl +:+
  "    " +:+ dq +:+ dq +:+ dq +:+ "Calculate the nth Fibonacci number recursively."
         +:+ dq +:+ dq +:+ dq +:+ nl +:+
  "    if n < 0:" +:+ nl +:+
  "        raise ValueError(" +:+ dq +:+ "n must be non-negative" +:+ dq +:+ ")" +:+ nl +:+
  "    if n <= 1:" +:+ nl +:+
  "        return n" +:+ nl +:+
  "    return fibonacci(n-1) + fibonacci(n-2)" +:+ nl.

(** Lines 176-232.  The builder [raindrop.begin] returns is named by the
    position of that call in the trace. *)
Definition test_partial_events (w : world) (g : globals) : M call unit :=
  if negb (RAINDROP_AVAILABLE g) then mret tt else
  interaction ← position;
  extcall w (raindrop_begin "test_user_001" "code_generation"
               "Write a Python function to calculate fibonacci");;
  libcall w (time_sleep (1 # 2));;
  extcall w (interaction_add_attachments interaction 1);;
  extcall w (print_progress 204);;
  libcall w (time_sleep (1 # 2));;
  extcall w (interaction_finish interaction code_output 1);;
  extcall w raindrop_flush;;
  mret tt.

Definition turns : list string :=
  [ "I'm building a support chatbot. What features should it have?";
    "How should I handle user frustration?";
    "Can you give me an example response for an angry user?" ].

(** One iteration of the loop of lines 258-298; the accumulator is the
    [history] list. *)
Definition conversation_turn (w : world) (convo_id : string)
    (history : list (string * string)) (turn : nat * string)
    : M call (list (string * string)) :=
  let '(i, user_msg) := turn in
  let history := history ++ [("user", user_msg)] in
  extcall w (model_start_chat
               (if bool_decide (1 < length history)%nat
                then slice_upto history (-1) else []));;
  response ← extcall w (chat_send_message user_msg);
  let ai_output := text response in
  let history := history ++ [("model", ai_output)] in
  let event_id := "evt_" +:+ convo_id +:+ "_" +:+ pretty i in
  extcall w (raindrop_track_ai "test_user_001" "chatbot_turn" (Some event_id)
               user_msg ai_output (Some convo_id));;
  (if bool_decide (Z.of_nat i = Z.of_nat (length turns) - 1)
   then extcall w (raindrop_track_signal event_id "thumbs_up" "default");; mret tt
   else mret tt);;
  mret history.

(** Lines 235-301. *)
Definition test_complex_conversation (w : world) (g : globals) : M call unit :=
  if negb (RAINDROP_AVAILABLE g) || negb (GEMINI_AVAILABLE g) then mret tt else
  extcall w (genai_GenerativeModel "gemini-2.5-pro");;
  now ← libcall w time_time;
  let convo_id := "convo_" +:+ pretty (int (number now)) in
  for_each (imap (λ i user_msg, (i, user_msg)) turns) (conversation_turn w convo_id) [];;
  extcall w raindrop_flush;;
  mret tt.

(** Lines 304-350. *)
Definition test_error_scenario (w : world) (g : globals) : M call unit :=
  if negb (RAINDROP_AVAILABLE g) then mret tt else
  now ← libcall w time_time;
  let event_id := "evt_error_" +:+ pretty (int (number now)) in
  extcall w (raindrop_track_ai "test_user_001" "tool_call_failed" (Some event_id)
               "Book me a flight to Tokyo"
               "I'm sorry, I encountered an error while trying to search for flights. The booking API is currently unavailable."
               None);;
  extcall w (raindrop_track_signal event_id "thumbs_down" "default");;
  extcall w (raindrop_track_signal event_id "user_frustration" "feedback");;
  extcall w raindrop_flush;;
  mret tt.

(** Lines 374-385: the body of the [try] block of [main]. *)
Definition main_try (w : world) (g : globals) : M call unit :=
  test_basic_tracking w g;;
  test_signals w g;;
  test_partial_events w g;;
  test_complex_conversation w g;;
  test_error_scenario w g.

(** Lines 353-393. *)
Definition main (w : world) (g : globals) : M call unit :=
  if negb (RAINDROP_AVAILABLE g) then mret tt else
  if negb (truthy (env g !! "RAINDROP_WRITE_KEY")) then mret tt else
  try_finally
    (try_except (main_try w g)
       (λ e, libcall w (print_error (str e));; raise e))
    (if RAINDROP_AVAILABLE g then extcall w raindrop_shutdown;; mret tt else mret tt).

(** The statements of the module, in order: set-up, then [main()]. *)
Definition program (cfg : config) (w : world) : M call unit :=
  g ← module_body cfg w;
  main w g.

(** [python langchain_gemini.py]: the module is compiled, then executed. *)
Definition script (cfg : config) (w : world) : M call unit :=
  match compile with
  | Return _ => program cfg w
  | Raise e => raise e
  | SystemExit c => sys_exit c
  end.

(** The two readings of a run of the demo: the statements of the module as
    they are written, and the process the interpreter runs, which compiles
    the file first. *)
Inductive reading := AsWritten | AsLoaded.

Definition execute (r : reading) : config → world → M call unit :=
  match r with
  | AsWritten => program
  | AsLoaded => script
  end.

(** *** Monitors of the tracking protocol *)

(** Signals after events: the state is the set of event identifiers given
    to [track_ai] so far; a [track_signal] is accepted only for one of
    them. *)
Definition signal_monitor (n : nat) (tracked : gset string) (c : call)
    : option (gset string) :=
  match c with
  | raindrop_track_ai _ _ (Some id) _ _ _ => Some ({[id]} ∪ tracked)
  | raindrop_track_signal id _ _ => if decide (id ∈ tracked) then Some tracked else None
  | _ => Some tracked
  end.

(** Single-use builders (spec 4.3): the state maps each builder, named by
    the position of its [begin], to whether it is sealed.  [add_attachments]
    and [finish] are accepted on an open builder only (on a sealed one the
    SDK fails with [SealedBuilderError]); [finish] seals. *)
Definition builder_monitor (n : nat) (sealed : gmap nat bool) (c : call)
    : option (gmap nat bool) :=
  match c with
  | raindrop_begin _ _ _ => Some (<[n := false]> sealed)
  | interaction_add_attachments b _ =>
    match sealed !! b with
    | Some false => Some sealed
    | _ => None
    end
  | interaction_finish b _ _ =>
    match sealed !! b with
    | Some false => Some (<[b := true]> sealed)
    | _ => None
    end
  | _ => Some sealed
  end.

(** Every builder of the state is sealed. *)
Definition all_sealed (sealed : gmap nat bool) : Prop :=
  map_Forall (λ _ b, b = true) sealed.

Definition is_finish (b : nat) (c : call) : bool :=
  match c with
  | interaction_finish b' _ _ => bool_decide (b' = b)
  | _ => false
  end.

(** Number of [finish] calls on the builder [b]. *)
Definition finishes (b : nat) (t : list call) : nat :=
  length (filter (λ c, is_finish b c) t).

(** Builders left waiting: the state is the set of the builders that have
    got past their [add_attachments] call (the call and the print that
    follows it, line 204, have returned) and have not been finished. *)
Definition pending_monitor (w : world) (n : nat) (pending : gset nat) (c : call)
    : option (gset nat) :=
  match c with
  | interaction_add_attachments b _ =>
    Some match raises (w n), raises (w (S n)) with
         | None, None => {[b]} ∪ pending
         | _, _ => pending
         end
  | interaction_finish b _ _ => Some (pending ∖ {[b]})
  | _ => Some pending
  end.

Definition is_progress (line : nat) (c : call) : bool :=
  match c with
  | print_progress l => bool_decide (l = line)
  | _ => false
  end.

(** The print after [add_attachments]: the state tells whether the
    previous event is an [add_attachments] call that returned; the event
    after such a call must be the print of line 204. *)
Definition attached_monitor (w : world) (n : nat) (attached : bool) (c : call)
    : option bool :=
  if attached && negb (is_progress 204 c) then None
  else Some match c with
            | interaction_add_attachments _ _ => bool_decide (raises (w n) = None)
            | _ => false
            end.

(** Builders given up: the state is the set of the builders whose
    [add_attachments] call raised, or was followed by an event that raised;
    a [finish] on one of them is refused. *)
Definition given_up_monitor (w : world) (n : nat) (given_up : gset nat) (c : call)
    : option (gset nat) :=
  match c with
  | interaction_add_attachments b _ =>
    Some match raises (w n), raises (w (S n)) with
         | None, None => given_up
         | _, _ => {[b]} ∪ given_up
         end
  | interaction_finish b _ _ => if decide (b ∈ given_up) then None else Some given_up
  | _ => Some given_up
  end.

(** The builders of the state were all begun before position [n]. *)
Definition begun_before (n : nat) (sealed : gmap nat bool) : Prop :=
  ∀ b, is_Some (sealed !! b) → (b < n)%nat.

(** 1 when the builder [b] is sealed, 0 otherwise. *)
Definition sealed_count (sealed : gmap nat bool) (b : nat) : nat :=
  match sealed !! b with
  | Some true => 1
  | _ => 0
  end.

(** Calls into the raindrop client or one of its builders, [shutdown]
    apart. *)
Definition client_call (c : call) : bool :=
  match c with
  | raindrop_init _ | raindrop_set_debug_logs _ | raindrop_identify _
  | raindrop_track_ai _ _ _ _ _ _ | raindrop_track_signal _ _ _
  | raindrop_begin _ _ _ | interaction_add_attachments _ _
  | interaction_finish _ _ _ | raindrop_flush => true
  | _ => false
  end.

(** Life of the client: not used yet, in use, shut down. *)
Inductive phase := Idle | Running | Closed.

(** Shutdown (spec 4.1): [shutdown] closes the client, once; after it no
    event at all is accepted, so a run the monitor accepts makes no client
    call after [shutdown] (the SDK fails those with [ClientClosedError]).  A
    run that ends in [Running] has used the client and not shut it down. *)
Definition client_monitor (n : nat) (s : phase) (c : call) : option phase :=
  match s, c with
  | Closed, _ => None
  | _, raindrop_shutdown => Some Closed
  | _, _ => if client_call c then Some Running else Some s
  end.

(** The client was never used, or it has been shut down. *)
Definition settled (s : phase) : Prop := s = Idle ∨ s = Closed.

(** The calls that need an initialised client. *)
Definition tracking_call (c : call) : bool :=
  match c with
  | raindrop_identify _ | raindrop_track_ai _ _ _ _ _ _
  | raindrop_track_signal _ _ _ | raindrop_begin _ _ _ | raindrop_flush => true
  | _ => false
  end.

(** Initialisation: the state tells whether [init] has been called.  [init]
    is accepted with the write key of the environment only, which must be
    set and not empty, a tracking call only after [init]. *)
Definition init_monitor (environment : gmap string string) (n : nat) (ready : bool)
    (c : call) : option bool :=
  match c with
  | raindrop_init key =>
    if decide (environment !! "RAINDROP_WRITE_KEY" = Some key ∧ truthy (Some key) = true)
    then Some true else None
  | _ => if tracking_call c && negb ready then None else Some ready
  end.

(** Event identifiers: the state is the set of the identifiers given to
    [track_ai] so far; a [track_ai] that names one of them again is
    refused. *)
Definition unique_monitor (n : nat) (used : gset string) (c : call)
    : option (gset string) :=
  match c with
  | raindrop_track_ai _ _ (Some id) _ _ _ =>
    if decide (id ∈ used) then None else Some ({[id]} ∪ used)
  | _ => Some used
  end.

(** The calls that hand the client something to send. *)
Definition reporting_call (c : call) : bool :=
  match c with
  | raindrop_identify _ | raindrop_track_ai _ _ _ _ _ _
  | raindrop_track_signal _ _ _ | raindrop_begin _ _ _
  | interaction_add_attachments _ _ | interaction_finish _ _ _ => true
  | _ => false
  end.

(** Flushing: the state tells whether a reporting call has been made since
    the last [flush]. *)
Definition flush_monitor (n : nat) (unflushed : bool) (c : call) : option bool :=
  match c with
  | raindrop_flush => Some false
  | _ => Some (unflushed || reporting_call c)
  end.

(** Calls into the Gemini SDK. *)
Definition gemini_call (c : call) : bool :=
  match c with
  | genai_configure _ | genai_GenerativeModel _ | model_generate_content _
  | model_start_chat _ | chat_send_message _ => true
  | _ => false
  end.

(** Running without Gemini: every call into the Gemini SDK is refused. *)
Definition offline_monitor (n : nat) (s : unit) (c : call) : option unit :=
  if gemini_call c then None else Some tt.

(** [init] first: the state tells whether the client has been called at
    all; [init] is accepted only on a client that has not. *)
Definition first_init_monitor (n : nat) (used : bool) (c : call) : option bool :=
  match c with
  | raindrop_init _ => if used then None else Some true
  | _ => Some (used || client_call c)
  end.

Definition is_track_ai (c : call) : bool :=
  match c with
  | raindrop_track_ai _ _ _ _ _ _ => true
  | _ => false
  end.

(** Feedback on the latest event: the state is the identifier given to the
    most recent [track_ai] call, if it gave one; a [track_signal] is
    accepted only for that identifier. *)
Definition latest_monitor (n : nat) (latest : option string) (c : call)
    : option (option string) :=
  match c with
  | raindrop_track_ai _ _ id _ _ _ => Some id
  | raindrop_track_signal id _ _ =>
    if decide (latest = Some id) then Some latest else None
  | _ => Some latest
  end.

End Raindrop.

(** ** Sample runs *)
Module Samples.

(** A session of the aggregator after three LLM calls of 100 prompt tokens,
    50 completion tokens and a cost of 0.01 each. *)
Definition session : SessionAggregator.session :=
  SessionAggregator.record_llm_call 100 50 (1 # 100)
    (SessionAggregator.record_llm_call 100 50 (1 # 100)
       (SessionAggregator.record_llm_call 100 50 (1 # 100)
          (SessionAggregator.create_session "sess-1"
             "Complex Multi-Step Support Agent Test" Sentrial.AGENT_NAME 0))).

(** Every call returns; the usage summary is the one of [session], read
    2500 ms after its start. *)
Definition quiet : world :=
  λ _, {| raises := None;
          text := "sess-1";
          number := 1700000000 # 1;
          mapping := SessionAggregator.usage_summary session 2500;
          messages := Some ["Refund initiated."] |}.

Definition sentrial_config (gemini_key : option string) : Sentrial.config :=
  {| Sentrial.environ :=
       match gemini_key with
       | Some k => {[ "GEMINI_API_KEY" := k ]}
       | None => ∅
       end;
     Sentrial.dotenv := {[ "SENTRIAL_API_KEY" := "sk-test" ]};
     Sentrial.missing_module := None |}.

Definition raindrop_config (write_key : option string) : Raindrop.config :=
  {| Raindrop.environ :=
       match write_key with
       | Some k => {[ "RAINDROP_WRITE_KEY" := k ]}
       | None => ∅
       end;
     Raindrop.dotenv := {[ "GEMINI_API_KEY" := "gk-test" ]};
     Raindrop.raindrop_installed := true;
     Raindrop.genai_installed := true |}.

Definition raindrop_globals : Raindrop.globals :=
  {| Raindrop.env := ∅;
     Raindrop.RAINDROP_AVAILABLE := true;
     Raindrop.GEMINI_AVAILABLE := false |}.

(** [str.lower] on ASCII text: the letters A-Z are mapped to a-z. *)
Fixpoint ascii_lower (s : string) : string :=
  match s with
  | EmptyString => EmptyString
  | String a s' =>
    let n := Ascii.nat_of_ascii a in
    String (if bool_decide (65 ≤ n ≤ 90)%nat then Ascii.ascii_of_nat (n + 32) else a)
           (ascii_lower s')
  end.

End Samples.

(** * Properties *)

(* stdpp's solvers clear hypotheses by name, which Rocq 9.3 reports when the
   name is absent. *)
#[local] Set Warnings "-clear-no-such-hyp".

(** ** Reasoning rules for monitored computations *)
Section Rules.
Context {call St : Type} (δ : nat → St → call → option St).
Implicit Types (n : nat) (s : St) (u : list call).

Lemma monitor_app n s u v :
  monitor δ n s (u ++ v) = monitor δ n s u ≫= λ s', monitor δ (n + length u) s' v.
Proof.
  revert n s. induction u as [|c u IH]; intros n s; simpl.
  - by rewrite Nat.add_0_r.
  - destruct (δ n s c) as [s'|]; simpl; [|done].
    rewrite IH. by replace (S n + length u)%nat with (n + S (length u))%nat by lia.
Qed.

Lemma triple_conseq {A} n s (m : M call A) (P Q : outcome A → nat → St → Prop) :
  triple δ n s m P → (∀ o n' s', P o n' s' → Q o n' s') → triple δ n s m Q.
Proof.
  intros H HPQ t Ht. destruct (H t Ht) as (u & s' & ? & ? & ?). eauto 10.
Qed.

Lemma triple_eval {A} n s (o : outcome A) (post : outcome A → nat → St → Prop) :
  post o n s → triple δ n s (eval o) post.
Proof.
  intros H t Ht. exists [], s. simpl. rewrite app_nil_r, Nat.add_0_r. done.
Qed.

Lemma triple_ret {A} n s (a : A) (post : outcome A → nat → St → Prop) :
  post (Return a) n s → triple δ n s (mret a) post.
Proof. apply (triple_eval n s (Return a)). Qed.

Lemma triple_raise {A} n s e (post : outcome A → nat → St → Prop) :
  post (Raise e) n s → triple δ n s (raise e) post.
Proof. apply (triple_eval n s (Raise e)). Qed.

Lemma triple_sys_exit {A} n s c (post : outcome A → nat → St → Prop) :
  post (SystemExit c) n s → triple δ n s (sys_exit c) post.
Proof. apply (triple_eval n s (SystemExit c)). Qed.

Lemma triple_position n s (post : outcome nat → nat → St → Prop) :
  post (Return n) n s → triple δ n s position post.
Proof.
  intros H t Ht. exists [], s. unfold position. simpl.
  rewrite app_nil_r, Nat.add_0_r, Ht. done.
Qed.

Lemma triple_extcall w n s c s' (post : outcome reply → nat → St → Prop) :
  δ n s c = Some s' →
  match raises (w n) with
  | Some e => post (Raise e) (S n) s'
  | None => post (Return (w n)) (S n) s'
  end →
  triple δ n s (extcall w c) post.
Proof.
  intros Hδ H t Ht. exists [c], s'. unfold extcall. rewrite Ht. simpl. rewrite Hδ.
  replace (n + 1)%nat with (S n) by lia.
  destruct (raises (w n)); done.
Qed.

Lemma triple_libcall w n s c s' (post : outcome reply → nat → St → Prop) :
  δ n s c = Some s' → post (Return (w n)) (S n) s' → triple δ n s (libcall w c) post.
Proof.
  intros Hδ H t Ht. exists [c], s'. unfold libcall. rewrite Ht. simpl. rewrite Hδ.
  replace (n + 1)%nat with (S n) by lia. done.
Qed.

Lemma triple_bind {A B} n s (m : M call A) (f : A → M call B)
    (post : outcome B → nat → St → Prop) :
  triple δ n s m (λ o n' s',
    match o with
    | Return a => triple δ n' s' (f a) post
    | Raise e => post (Raise e) n' s'
    | SystemExit c => post (SystemExit c) n' s'
    end) →
  triple δ n s (m ≫= f) post.
Proof.
  intros H t Ht. destruct (H t Ht) as (u & s1 & Hu & Hm & Hpost).
  unfold mbind, M_bind, bind. destruct (m t) as [[a|e|c] t1]; simpl in *; subst t1.
  - destruct (Hpost (t ++ u)) as (v & s2 & Hv & Hm2 & Hp2).
    { rewrite length_app. lia. }
    exists (u ++ v), s2. rewrite Hv, monitor_app, Hm, length_app, <-!app_assoc. simpl.
    rewrite Hm2. by rewrite Nat.add_assoc.
  - eauto.
  - eauto.
Qed.

Lemma triple_try_except {A} n s (body : M call A) handler
    (post : outcome A → nat → St → Prop) :
  triple δ n s body (λ o n' s',
    match o with
    | Raise e => triple δ n' s' (handler e) post
    | _ => post o n' s'
    end) →
  triple δ n s (try_except body handler) post.
Proof.
  intros H t Ht. destruct (H t Ht) as (u & s1 & Hu & Hm & Hpost).
  unfold try_except. destruct (body t) as [[a|e|c] t1]; simpl in *; subst t1.
  - eauto.
  - destruct (Hpost (t ++ u)) as (v & s2 & Hv & Hm2 & Hp2).
    { rewrite length_app. lia. }
    exists (u ++ v), s2. rewrite Hv, monitor_app, Hm, length_app, <-!app_assoc. simpl.
    rewrite Hm2. by rewrite Nat.add_assoc.
  - eauto.
Qed.

Lemma triple_try_except_import {A} n s (body handler : M call A)
    (post : outcome A → nat → St → Prop) :
  triple δ n s body (λ o n' s',
    match o with
    | Raise (ImportError _) => triple δ n' s' handler post
    | _ => post o n' s'
    end) →
  triple δ n s (try_except_import body handler) post.
Proof.
  intros H t Ht. destruct (H t Ht) as (u & s1 & Hu & Hm & Hpost).
  unfold try_except_import.
  destruct (body t) as [[a|e|c] t1]; simpl in *; subst t1; [eauto| |eauto].
  destruct e; eauto.
  destruct (Hpost (t ++ u)) as (v & s2 & Hv & Hm2 & Hp2).
  { rewrite length_app. lia. }
  exists (u ++ v), s2. rewrite Hv, monitor_app, Hm, length_app, <-!app_assoc. simpl.
  rewrite Hm2. by rewrite Nat.add_assoc.
Qed.

Lemma triple_try_finally {A} n s (body : M call A) final
    (post : outcome A → nat → St → Prop) :
  triple δ n s body (λ o n' s',
    triple δ n' s' final (λ o' n'' s'',
      match o' with
      | Return _ => post o n'' s''
      | Raise e => post (Raise e) n'' s''
      | SystemExit c => post (SystemExit c) n'' s''
      end)) →
  triple δ n s (try_finally body final) post.
Proof.
  intros H t Ht. destruct (H t Ht) as (u & s1 & Hu & Hm & Hpost).
  unfold try_finally. destruct (body t) as [o t1]; simpl in *; subst t1.
  destruct (Hpost (t ++ u)) as (v & s2 & Hv & Hm2 & Hp2).
  { rewrite length_app. lia. }
  exists (u ++ v), s2. rewrite monitor_app, Hm, length_app, Nat.add_assoc, app_assoc.
  simpl. rewrite Hm2.
  destruct (final (t ++ u)) as [[[]|e|c] t2]; simpl in *; subst t2; done.
Qed.

Lemma triple_run {A} s (m : M call A) (post : outcome A → nat → St → Prop) :
  triple δ 0 s m post →
  ∃ s', monitor δ 0 s (run m).2 = Some s' ∧ post (run m).1 (length (run m).2) s'.
Proof.
  intros H. destruct (H [] eq_refl) as (u & s' & Hu & Hm & Hp). unfold run.
  rewrite Hu. simpl in *. eauto.
Qed.

Lemma triple_for_each {A B} (I : St → Prop) (l : list A) (body : B → A → M call B) :
  (∀ n s acc x, I s → triple δ n s (body acc x) (λ _ _ s', I s')) →
  ∀ n s acc, I s → triple δ n s (for_each l body acc) (λ _ _ s', I s').
Proof.
  intros Hbody. induction l as [|x l IH]; intros n s acc Hs; simpl.
  - by apply triple_ret.
  - apply triple_bind. eapply triple_conseq; [by apply Hbody|].
    intros [a|e|c] n' s' Hs'; simpl; auto.
Qed.

Lemma triple_for_each_returns {A B} (l : list A) (body : B → A → M call B) :
  (∀ n s acc x, triple δ n s (body acc x) (λ o _ _, ∃ a, o = Return a)) →
  ∀ n s acc, triple δ n s (for_each l body acc) (λ o _ _, ∃ a, o = Return a).
Proof.
  intros Hbody. induction l as [|x l IH]; intros n s acc; simpl.
  - apply triple_ret. eauto.
  - apply triple_bind. eapply triple_conseq; [by apply Hbody|].
    intros o n' s' [a ->]. apply IH.
Qed.

(** An accepted trace was accepted event by event. *)
Lemma monitor_lookup n s u s' i c :
  monitor δ n s u = Some s' → u !! i = Some c →
  ∃ si si', monitor δ n s (take i u) = Some si ∧ δ (n + i)%nat si c = Some si' ∧
            monitor δ (n + S i)%nat si' (drop (S i) u) = Some s'.
Proof.
  intros Hm Hi. rewrite <-(take_drop_middle u i c Hi), monitor_app in Hm.
  destruct (monitor δ n s (take i u)) as [si|] eqn:Hsi; [|done].
  simpl in Hm. rewrite length_take_le in Hm by (apply lookup_lt_Some in Hi; lia).
  destruct (δ (n + i)%nat si c) as [si'|] eqn:Hδ; [|done].
  exists si, si'. split_and!; [done..|].
  by replace (n + S i)%nat with (S (n + i)) by lia.
Qed.
End Rules.

Lemma monitor_record {call} n (s u : list call) : monitor record n s u = Some (s ++ u).
Proof.
  revert n s. induction u as [|c u IH]; intros n s; simpl.
  - by rewrite app_nil_r.
  - by rewrite IH, <-app_assoc.
Qed.

(** One step of symbolic execution of a monitored computation;
    [solve_monitor] proves that the monitor accepts the event at hand. *)
Ltac triple_step solve_monitor :=
  lazymatch goal with
  | |- triple _ _ _ (mbind _ _) _ => apply triple_bind
  | |- triple _ _ _ (mret _) _ => apply triple_ret
  | |- triple _ _ _ (extcall ?w _) _ =>
      eapply triple_extcall;
      [ solve_monitor
      | lazymatch goal with
        | |- match raises (w ?n) with _ => _ end =>
          first [ match goal with H : raises (w n) = _ |- _ => rewrite H end
                | match goal with H : calm w |- _ => rewrite (H n) end
                | destruct (raises (w n)) eqn:? ]
        end ]
  | |- triple _ _ _ (libcall _ _) _ => eapply triple_libcall; [solve_monitor | ]
  | |- triple _ _ _ position _ => apply triple_position
  | |- triple _ _ _ (raise _) _ => apply triple_raise
  | |- triple _ _ _ (sys_exit _) _ => apply triple_sys_exit
  | |- triple _ _ _ (eval (match ?x with _ => _ end)) _ =>
      apply triple_eval;
      first [ match goal with H : x = _ |- _ => rewrite H end | destruct x eqn:? ]
  | |- triple _ _ _ (eval _) _ => apply triple_eval
  | |- triple _ _ _ (try_except _ _) _ => apply triple_try_except
  | |- triple _ _ _ (try_except_import _ _) _ => apply triple_try_except_import
  | |- triple _ _ _ (try_finally _ _) _ => apply triple_try_finally
  | |- triple _ _ _ (if ?b then _ else _) _ => destruct b eqn:?
  | |- triple _ _ _ (match ?x with _ => _ end) _ => destruct x eqn:?
  | |- triple _ _ _ _ _ => progress cbv beta zeta
  | |- match ?e with ImportError _ => _ | _ => _ end => is_var e; destruct e
  | |- True => exact I
  end.

(** ** Strings *)

Lemma append_nil_r (s : string) : s +:+ EmptyString = s.
Proof.
  induction s as [|a s IH]; [done|].
  change (String a (s +:+ EmptyString) = String a s). by rewrite IH.
Qed.

Lemma append_assoc (s1 s2 s3 : string) : (s1 +:+ s2) +:+ s3 = s1 +:+ (s2 +:+ s3).
Proof.
  induction s1 as [|a s1 IH]; [done|].
  change (String a ((s1 +:+ s2) +:+ s3) = String a (s1 +:+ (s2 +:+ s3))).
  by rewrite IH.
Qed.

(** ** The order-history tool *)
Section OrderHistory.
Import Sentrial.

Lemma slice_stop_nonneg len limit :
  0 ≤ len → 0 ≤ limit → slice_stop len limit = Z.min limit len.
Proof. intros Hlen Hlimit. unfold slice_stop. destruct (Z.ltb_spec limit 0); lia. Qed.

(** One iteration appends the line of the order it reads: every field the
    f-string names is a key of every order. *)
Lemma append_order_line i order line :
  orders !! i = Some order → order_lines !! i = Some line →
  ∀ result t, append_order result order t = (Return (result +:+ line), t).
Proof.
  intros Ho Hl result t.
  do 5 (destruct i as [|i]; [injection Ho as <-; injection Hl as <-; reflexivity|]).
  discriminate.
Qed.

Lemma for_each_append_order os ls :
  Forall2 (λ order line,
    ∀ result t, append_order result order t = (Return (result +:+ line), t)) os ls →
  ∀ result t,
    for_each os append_order result t = (Return (result +:+ concat_lines ls), t).
Proof.
  induction 1 as [|order line os ls Hline _ IH]; intros result t; simpl.
  - unfold ret. by rewrite append_nil_r.
  - unfold bind. rewrite Hline, IH. by rewrite append_assoc.
Qed.

Lemma orders_render : Forall2 (λ order line,
  ∀ result t, append_order result order t = (Return (result +:+ line), t))
  orders order_lines.
Proof.
  apply Forall2_same_length_lookup. split; [reflexivity|].
  intros i order line Ho Hl. by eapply append_order_line.
Qed.

(** C10.  For every customer id and every limit, [get_order_history] returns
    a string (it never raises); for a limit of at least 0 the string is the
    header followed by the lines of the first min(limit, 5) of the five
    orders, in their listed order. *)
Theorem get_order_history_lists_first_orders w customer_id limit t :
  (∃ result, (get_order_history w customer_id limit t).1 = Return result) ∧
  (0 ≤ limit →
   get_order_history w customer_id limit t =
     (Return ("Recent orders for " +:+ customer_id +:+ ":" +:+ nl +:+
              concat_lines (take (Z.to_nat (Z.min limit 5)) order_lines)),
      t ++ [time_sleep (1 # 2)]) ∧
   length (take (Z.to_nat (Z.min limit 5)) order_lines) = Z.to_nat (Z.min limit 5)).
Proof.
  assert (Hrun : get_order_history w customer_id limit t =
    (Return (("Recent orders for " +:+ customer_id +:+ ":" +:+ nl) +:+
             concat_lines (take (Z.to_nat (slice_stop 5 limit)) order_lines)),
     t ++ [time_sleep (1 # 2)])).
  { unfold get_order_history, mbind, M_bind, bind, libcall, slice_upto.
    change (Z.of_nat (length orders)) with 5.
    apply for_each_append_order, Forall2_take, orders_render. }
  split.
  - rewrite Hrun. eauto.
  - intros Hlimit. rewrite Hrun, slice_stop_nonneg by lia. split.
    + by rewrite !append_assoc.
    + rewrite length_take. change (length order_lines) with 5%nat. lia.
Qed.
End OrderHistory.

(** ** The support-agent demo *)
Section SentrialDemo.
Import Sentrial.
Context (w : world).

#[local] Ltac solve_forward :=
  cbn [forward_monitor];
  first [ reflexivity
        | rewrite decide_True; [ reflexivity | unfold forwards; cbn; by eauto 10 ] ].

Lemma script_forwards cfg :
  triple (forward_monitor w) 0 None (script cfg w) (λ _ _ _, True).
Proof.
  unfold script, main, main_try, main_except, subscript, last_item.
  repeat (triple_step solve_forward).
Qed.

#[local] Ltac solve_protocol :=
  cbn [protocol_monitor];
  first [ reflexivity
        | rewrite decide_True; [ reflexivity | unfold completion_ok; cbn; by eauto 10 ] ].

Lemma script_protocol cfg :
  triple (protocol_monitor w) 0 protocol_start (script cfg w)
    (λ o _ s', match o with Return _ => completed s' = true | _ => True end).
Proof.
  unfold script, main, main_try, main_except, subscript, last_item.
  repeat first [ triple_step solve_protocol | reflexivity ].
Qed.

(** Where the session id and the printed message of the state come from. *)
Lemma protocol_created u : ∀ n s s' id,
  monitor (protocol_monitor w) n s u = Some s' → created s' = Some id →
  created s = Some id ∨
  ∃ j name agent, u !! j = Some (create_session name agent) ∧
                  raises (w (n + j)%nat) = None ∧ id = text (w (n + j)%nat).
Proof.
  induction u as [|c u IH]; intros n s s' id Hm Hid; simpl in Hm.
  - injection Hm as <-. by left.
  - destruct (protocol_monitor w n s c) as [s1|] eqn:Hδ; [|done].
    destruct (IH _ _ _ _ Hm Hid) as [Hs1|(j & name & agent & Hj & Hret & ->)].
    + destruct c; simpl in Hδ; try (injection Hδ as <-; by left).
      * injection Hδ as <-. simpl in Hs1. right. exists 0%nat, name, agent_name.
        rewrite Nat.add_0_r. destruct (raises (w n)); [done|]. by injection Hs1 as <-.
      * destruct (decide _); [|done]. injection Hδ as <-. by left.
    + right. exists (S j), name, agent.
      by replace (n + S j)%nat with (S n + j)%nat by lia.
Qed.

Lemma protocol_printed u : ∀ n s s' msg,
  monitor (protocol_monitor w) n s u = Some s' → printed s' = Some msg →
  printed s = Some msg ∨ ∃ j, u !! j = Some (print_error msg).
Proof.
  induction u as [|c u IH]; intros n s s' msg Hm Hmsg; simpl in Hm.
  - injection Hm as <-. by left.
  - destruct (protocol_monitor w n s c) as [s1|] eqn:Hδ; [|done].
    destruct (IH _ _ _ _ Hm Hmsg) as [Hs1|[j Hj]]; [|right; by exists (S j)].
    destruct c; simpl in Hδ; try (injection Hδ as <-; by left).
    + destruct (decide _); [|done]. injection Hδ as <-. by left.
    + injection Hδ as <-. simpl in Hs1. injection Hs1 as ->. right. by exists 0%nat.
Qed.

(** What the protocol monitor accepts, read on the trace: every completion
    names the session that an earlier [create_session] call returned, and
    reports success with no failure reason or failure with a message printed
    before it. *)
Lemma protocol_monitor_origin u s' i a :
  monitor (protocol_monitor w) 0 protocol_start u = Some s' →
  u !! i = Some (complete_session a) →
  (∃ j name agent, (j < i)%nat ∧ u !! j = Some (create_session name agent) ∧
                   raises (w j) = None ∧ session_id a = text (w j)) ∧
  (if success a then failure_reason a = None
   else ∃ j msg, (j < i)%nat ∧ u !! j = Some (print_error msg) ∧
                 failure_reason a = Some msg).
Proof.
  intros Hm Hi.
  destruct (monitor_lookup _ _ _ _ _ _ _ Hm Hi) as (si & si' & Hsi & Hδ & _).
  simpl in Hδ. destruct (decide _) as [(Hid & Hreason)|]; [|done].
  split.
  - destruct (protocol_created _ _ _ _ _ Hsi Hid) as [?|(j & name & agent & Hj & ? & ?)];
      [done|].
    exists j, name, agent. split_and!; [|by rewrite <-Hj, lookup_take_lt
      by (apply lookup_lt_Some in Hj; rewrite length_take in Hj; lia)|done..].
    apply lookup_lt_Some in Hj. rewrite length_take in Hj. lia.
  - destruct (success a); [by destruct Hreason|].
    destruct Hreason as [[msg Hmsg] Hfail].
    destruct (protocol_printed _ _ _ _ _ Hsi Hmsg) as [?|[j Hj]]; [done|].
    exists j, msg. split_and!; [|by rewrite <-Hj, lookup_take_lt
      by (apply lookup_lt_Some in Hj; rewrite length_take in Hj; lia)|congruence].
    apply lookup_lt_Some in Hj. rewrite length_take in Hj. lia.
Qed.

(** Repeated reports. *)
#[local] Ltac solve_repeat :=
  cbn [repeat_monitor success is_progress];
  first
    [ reflexivity
    | rewrite decide_True;
      [ reflexivity
      | split; [reflexivity|];
        first [ left; congruence | right; split; [lia|congruence] ] ]
    | rewrite decide_False;
      [ reflexivity
      | intros (Hn & Hr & Hp); first [ lia | congruence | discriminate Hp ] ] ].

Lemma script_repeat cfg :
  triple (repeat_monitor w) 0 NoReport (script cfg w) (λ _ _ _, True).
Proof.
  unfold script, main, main_try, main_except, subscript, last_item.
  repeat (triple_step solve_repeat).
Qed.

Lemma repeat_reported u : ∀ n s',
  monitor (repeat_monitor w) n Reported u = Some s' →
  ∀ k b, u !! k ≠ Some (complete_session b).
Proof.
  induction u as [|c u IH]; intros n s' Hm k b; [done|].
  cbn [monitor] in Hm.
  destruct (repeat_monitor w n Reported c) as [s1|] eqn:Hδ; [|done].
  assert (s1 = Reported ∧ ∀ a, c ≠ complete_session a) as [-> Hc]
    by (destruct c; simpl in Hδ; by simplify_eq).
  destruct k as [|k]; simpl; [intros [= ->]; by eapply Hc|by eapply IH].
Qed.

Lemma repeat_succeeded u : ∀ n i s',
  monitor (repeat_monitor w) n (Succeeded i) u = Some s' →
  ∀ k b, u !! k = Some (complete_session b) →
    success b = false ∧
    (raises (w i) ≠ None ∨ (S i < n + k)%nat ∧ raises (w (S i)) ≠ None).
Proof.
  induction u as [|c u IH]; intros n i s' Hm k b Hk; [done|].
  cbn [monitor] in Hm.
  destruct (repeat_monitor w n (Succeeded i) c) as [s1|] eqn:Hδ; [|done].
  destruct k as [|k]; simpl in Hk.
  - injection Hk as ->. simpl in Hδ.
    destruct (decide _) as [[? [?|[? ?]]]|]; [| |done].
    + split; [done|]. by left.
    + split; [done|]. right. split; [lia|done].
  - assert (s1 = Reported ∨ s1 = Succeeded i) as [->| ->].
    { destruct c; simpl in Hδ; destruct (decide _); simplify_eq; auto. }
    + by destruct (repeat_reported _ _ _ Hm k b).
    + destruct (IH _ _ _ Hm _ _ Hk) as [? [?|[? ?]]]; (split; [done|]); [by left|].
      right. split; [lia|done].
Qed.

(** When the report of success at position [i] returned, the next event
    is the print of line 476. *)
Lemma repeat_print c u i s' :
  monitor (repeat_monitor w) (S i) (Succeeded i) (c :: u) = Some s' →
  raises (w i) = None → c = print_progress 476.
Proof.
  intros Hm Hret. cbn [monitor] in Hm.
  destruct (repeat_monitor w (S i) (Succeeded i) c) as [s1|] eqn:Hδ; [|done].
  destruct c; simpl in Hδ; destruct (decide _) as [Hd|Hd]; try done;
    try (exfalso; apply Hd; done).
  - destruct Hd as [_ [?|[? _]]]; [done|lia].
  - destruct (decide (line = 476%nat)) as [->|Hne]; [done|].
    exfalso. apply Hd. split_and!; [done..|]. by apply bool_decide_eq_false.
Qed.

(** What the monitor of repeated reports accepts, read on the trace: a
    second [complete_session] call is a report of failure that follows a
    report of success whose call raised, or returned and was followed by a
    print of line 476 that raised. *)
Lemma repeat_monitor_sound u s' i j a b :
  monitor (repeat_monitor w) 0 NoReport u = Some s' →
  (i < j)%nat →
  u !! i = Some (complete_session a) → u !! j = Some (complete_session b) →
  success a = true ∧ success b = false ∧
  (raises (w i) ≠ None ∨
   raises (w i) = None ∧ u !! S i = Some (print_progress 476) ∧
   raises (w (S i)) ≠ None).
Proof.
  intros Hm Hij Hi Hj.
  destruct (monitor_lookup _ _ _ _ _ _ _ Hm Hi) as (si & si' & _ & Hδ & Hrest).
  assert (drop (S i) u !! (j - S i)%nat = Some (complete_session b)) as Hj'.
  { rewrite lookup_drop, <-Hj. f_equal. lia. }
  simpl in Hrest.
  destruct si as [|i0|]; simpl in Hδ; [| |done].
  - destruct (success a) eqn:Ha; injection Hδ as <-;
      [|by destruct (repeat_reported _ _ _ Hrest _ _ Hj')].
    destruct (repeat_succeeded _ _ _ _ Hrest _ _ Hj') as [Hb Hwhy].
    split_and!; [done..|].
    destruct (raises (w i)) as [e|] eqn:Hret; [by left|right].
    destruct Hwhy as [?|[_ Hprint]]; [done|]. split_and!; [done| |done].
    destruct (drop (S i) u) as [|c rest] eqn:Hdrop; [done|].
    pose proof (repeat_print _ _ _ _ Hrest Hret) as ->.
    by rewrite <-(Nat.add_0_r (S i)), <-lookup_drop, Hdrop.
  - destruct (decide _); [|done]. injection Hδ as <-.
    by destruct (repeat_reported _ _ _ Hrest _ _ Hj').
Qed.

Lemma repeat_monitor_count u : ∀ n s s',
  monitor (repeat_monitor w) n s u = Some s' →
  (length (completions u) ≤
   match s with NoReport => 2 | Succeeded _ => 1 | Reported => 0 end)%nat.
Proof.
  induction u as [|c u IH]; intros n s s' Hm.
  - simpl. destruct s; lia.
  - cbn [monitor] in Hm.
    destruct (repeat_monitor w n s c) as [s1|] eqn:Hδ; [|done].
    pose proof (IH _ _ _ Hm) as Hrest.
    destruct c; destruct s; simpl in Hδ |- *;
      try destruct (decide _); try destruct (success args);
      simplify_eq; simpl in Hrest; lia.
Qed.

(** What the forwarding monitor accepts, read on the trace. *)
Lemma forward_monitor_last u : ∀ n s usage,
  monitor (forward_monitor w) n s u = Some (Some usage) → u ≠ [] →
  ∃ j, length u = S j ∧ u !! j = Some get_usage_summary ∧
       usage = mapping (w (n + j)%nat).
Proof.
  induction u as [|c u _] using rev_ind; [done|]. intros n s usage Hm _.
  rewrite monitor_app in Hm.
  destruct (monitor (forward_monitor w) n s u) as [s1|]; [|done]. simpl in Hm.
  exists (length u). rewrite length_app, Nat.add_comm. split; [done|].
  rewrite lookup_app_r, Nat.sub_diag by lia.
  destruct c; simpl in Hm; try done.
  - by injection Hm as <-.
  - destruct s1; [|done]. by destruct (decide _).
Qed.

Lemma forward_monitor_sound u s' :
  monitor (forward_monitor w) 0 None u = Some s' →
  ∀ i a, u !! i = Some (complete_session a) →
    ∃ j, i = S j ∧ u !! j = Some get_usage_summary ∧ forwards (mapping (w j)) a.
Proof.
  intros Hm i a Hi.
  destruct (monitor_lookup _ _ _ _ _ _ _ Hm Hi) as (si & si' & Hsi & Hδ & _).
  simpl in Hδ. destruct si as [usage|]; [|done].
  destruct (decide _) as [Hfw|]; [|done].
  destruct (forward_monitor_last _ _ _ _ Hsi) as (j & Hlen & Hj & ->).
  { intros Hnil. by rewrite Hnil in Hsi. }
  rewrite length_take_le in Hlen by (apply lookup_lt_Some in Hi; lia).
  exists j. split_and!; [done| |done].
  rewrite lookup_take_lt in Hj by lia. done.
Qed.

#[local] Ltac solve_record := reflexivity.

(** The exit status of the demo. *)
Lemma script_exits_without_key cfg :
  missing_module cfg = None →
  truthy (load_dotenv cfg !! "GEMINI_API_KEY") = false →
  run (script cfg w) = (SystemExit 1, []).
Proof. intros Hmod Hkey. unfold run, script, main. by rewrite Hmod, Hkey. Qed.

Lemma script_returns cfg :
  missing_module cfg = None →
  truthy (load_dotenv cfg !! "GEMINI_API_KEY") = true →
  calm w → messages (w 6%nat) ≠ Some [] →
  (∀ k, k ∈ summary_keys → is_Some (mapping (w 8%nat) !! k)) →
  (run (script cfg w)).1 = Return tt.
Proof.
  intros Hmod Hkey Hcalm Hmsgs Hkeys.
  assert (∀ k, k ∈ summary_keys → ∃ v, mapping (w 8%nat) !! k = Some v) as Hk
    by (intros k Hin; apply Hkeys, Hin).
  destruct (Hk "llm_calls") as [v1 H1]; [by repeat constructor|].
  destruct (Hk "duration_ms") as [v2 H2]; [by repeat constructor|].
  destruct (Hk "total_cost") as [v3 H3]; [by repeat constructor|].
  destruct (Hk "total_prompt_tokens") as [v4 H4]; [by repeat constructor|].
  destruct (Hk "total_completion_tokens") as [v5 H5]; [by repeat constructor|].
  destruct (Hk "total_tokens") as [v6 H6]; [by repeat constructor|].
  clear Hk Hkeys.
  enough (triple record 0 [] (script cfg w) (λ o _ _, o = Return tt)) as Ht
    by (by destruct (triple_run _ _ _ _ Ht) as (? & _ & ?)).
  unfold script, main, main_try, main_except, subscript, last_item.
  rewrite Hmod, Hkey. cbn [negb].
  repeat first
    [ match goal with
      | H : last ?l = None, H' : Some ?l ≠ Some [] |- _ =>
        exfalso; apply H'; apply last_None in H; by rewrite H
      end
    | triple_step solve_record | reflexivity ].
Qed.

(** The handler of [main]: the exception is printed and reported through
    [complete_session]; when the handler's own calls return and the summary
    holds the forwarded fields, the handler returns. *)
Lemma main_except_reports session e n :
  raises (w (S (S n))) = None → raises (w (S (S (S n)))) = None →
  (∀ k, k ∈ forwarded_keys → is_Some (mapping (w (S (S n))) !! k)) →
  triple record n [] (main_except w session e)
    (λ o _ u, o = Return tt ∧
       ∃ a, u = [print_error (str e); traceback_print_exc; get_usage_summary;
                 complete_session a] ∧
            success a = false ∧ failure_reason a = Some (str e) ∧
            session_id a = session).
Proof.
  intros Hgus Hcs Hkeys.
  assert (∀ k, k ∈ forwarded_keys → ∃ v, mapping (w (S (S n))) !! k = Some v) as Hk
    by (intros k Hin; apply Hkeys, Hin).
  destruct (Hk "duration_ms") as [v2 H2]; [by repeat constructor|].
  destruct (Hk "total_cost") as [v3 H3]; [by repeat constructor|].
  destruct (Hk "total_prompt_tokens") as [v4 H4]; [by repeat constructor|].
  destruct (Hk "total_completion_tokens") as [v5 H5]; [by repeat constructor|].
  destruct (Hk "total_tokens") as [v6 H6]; [by repeat constructor|].
  clear Hk Hkeys.
  unfold main_except, subscript.
  repeat first [ triple_step solve_record ].
  split; [done|]. eexists. split; [reflexivity|]. done.
Qed.
(** The handler of [main] when one of its own steps fails: the exception
    of the [try] block has been printed, and the handler's exception leaves
    the handler. *)
Lemma main_except_fails session e n :
  raises (w (S (S n))) ≠ None ∨
  (∃ k, k ∈ forwarded_keys ∧ mapping (w (S (S n))) !! k = None) ∨
  raises (w (S (S (S n)))) ≠ None →
  triple record n [] (main_except w session e)
    (λ o _ u, ∃ e' rest,
       o = Raise e' ∧
       u = print_error (str e) :: traceback_print_exc :: get_usage_summary :: rest).
Proof.
  intros Hfails. unfold main_except, subscript.
  repeat (triple_step solve_record).
  all: first
    [ by eexists _, _
    | exfalso; destruct Hfails as [?|[(k & Hin & Hnone)|?]]; [done| |done];
      unfold forwarded_keys in Hin;
      repeat (apply elem_of_cons in Hin as [->|Hin]; [congruence|]);
      by apply elem_of_nil in Hin ].
Qed.

(** Set-up that fails after [create_session] has returned. *)
Lemma script_setup_fails cfg k e :
  missing_module cfg = None →
  truthy (load_dotenv cfg !! "GEMINI_API_KEY") = true →
  (2 ≤ k ≤ 4)%nat →
  (∀ n, (n < k)%nat → raises (w n) = None) →
  raises (w k) = Some e →
  triple record 0 [] (script cfg w) (λ o _ u,
    o = Raise e ∧ completions u = [] ∧
    u !! 1%nat = Some (create_session "Complex Multi-Step Support Agent Test" AGENT_NAME)).
Proof.
  intros Hmod Hkey Hk Hbefore Hraise.
  pose proof (Hbefore 0%nat ltac:(lia)). pose proof (Hbefore 1%nat ltac:(lia)).
  unfold script, main. rewrite Hmod, Hkey. cbn [negb].
  assert (k = 2 ∨ k = 3 ∨ k = 4)%nat as [->|[->| ->]] by lia.
  - repeat (triple_step solve_record). done.
  - pose proof (Hbefore 2%nat ltac:(lia)).
    repeat (triple_step solve_record). done.
  - pose proof (Hbefore 2%nat ltac:(lia)). pose proof (Hbefore 3%nat ltac:(lia)).
    repeat (triple_step solve_record). done.
Qed.

(** The success path forwards the metrics of the summary it read. *)
Lemma script_success_forwards cfg :
  missing_module cfg = None →
  truthy (load_dotenv cfg !! "GEMINI_API_KEY") = true →
  (∀ n, (n ≤ 9)%nat → raises (w n) = None) →
  messages (w 6%nat) ≠ Some [] →
  (∀ k, k ∈ summary_keys → is_Some (mapping (w 8%nat) !! k)) →
  triple record 0 [] (script cfg w) (λ _ _ u,
    u !! 8%nat = Some get_usage_summary ∧
    ∃ a, u !! 9%nat = Some (complete_session a) ∧ success a = true ∧
         forwards (mapping (w 8%nat)) a).
Proof.
  intros Hmod Hkey Hret Hmsgs Hkeys.
  assert (∀ k, k ∈ summary_keys → ∃ v, mapping (w 8%nat) !! k = Some v) as Hk
    by (intros k Hin; apply Hkeys, Hin).
  destruct (Hk "llm_calls") as [v1 H1]; [by repeat constructor|].
  destruct (Hk "duration_ms") as [v2 H2]; [by repeat constructor|].
  destruct (Hk "total_cost") as [v3 H3]; [by repeat constructor|].
  destruct (Hk "total_prompt_tokens") as [v4 H4]; [by repeat constructor|].
  destruct (Hk "total_completion_tokens") as [v5 H5]; [by repeat constructor|].
  destruct (Hk "total_tokens") as [v6 H6]; [by repeat constructor|].
  clear Hk Hkeys.
  pose proof (Hret 0%nat ltac:(lia)). pose proof (Hret 1%nat ltac:(lia)).
  pose proof (Hret 2%nat ltac:(lia)). pose proof (Hret 3%nat ltac:(lia)).
  pose proof (Hret 4%nat ltac:(lia)). pose proof (Hret 6%nat ltac:(lia)).
  pose proof (Hret 8%nat ltac:(lia)). pose proof (Hret 9%nat ltac:(lia)).
  clear Hret.
  unfold script, main, main_try, main_except, subscript, last_item.
  rewrite Hmod, Hkey. cbn [negb].
  repeat first
    [ match goal with
      | H : last ?l = None, H' : Some ?l ≠ Some [] |- _ =>
        exfalso; apply H'; apply last_None in H; by rewrite H
      end
    | triple_step solve_record ].
  all: split; [reflexivity|]; eexists; split; [reflexivity|]; split; [reflexivity|];
    unfold forwards; cbn; by eauto 10.
Qed.

(** The failure path forwards the metrics of the summary the handler
    read. *)
Lemma script_failure_forwards cfg e :
  missing_module cfg = None →
  truthy (load_dotenv cfg !! "GEMINI_API_KEY") = true →
  (∀ n, (n < 5)%nat → raises (w n) = None) →
  raises (w 6%nat) = Some e →
  raises (w 9%nat) = None →
  (∀ k, k ∈ forwarded_keys → is_Some (mapping (w 9%nat) !! k)) →
  triple record 0 [] (script cfg w) (λ _ _ u,
    u !! 9%nat = Some get_usage_summary ∧
    ∃ a, u !! 10%nat = Some (complete_session a) ∧ success a = false ∧
         failure_reason a = Some (str e) ∧ forwards (mapping (w 9%nat)) a).
Proof.
  intros Hmod Hkey Hsetup Hinvoke Hgus Hkeys.
  assert (∀ k, k ∈ forwarded_keys → ∃ v, mapping (w 9%nat) !! k = Some v) as Hk
    by (intros k Hin; apply Hkeys, Hin).
  destruct (Hk "duration_ms") as [v2 H2]; [by repeat constructor|].
  destruct (Hk "total_cost") as [v3 H3]; [by repeat constructor|].
  destruct (Hk "total_prompt_tokens") as [v4 H4]; [by repeat constructor|].
  destruct (Hk "total_completion_tokens") as [v5 H5]; [by repeat constructor|].
  destruct (Hk "total_tokens") as [v6 H6]; [by repeat constructor|].
  clear Hk Hkeys.
  pose proof (Hsetup 0%nat ltac:(lia)). pose proof (Hsetup 1%nat ltac:(lia)).
  pose proof (Hsetup 2%nat ltac:(lia)). pose proof (Hsetup 3%nat ltac:(lia)).
  pose proof (Hsetup 4%nat ltac:(lia)). clear Hsetup.
  unfold script, main, main_try, main_except, subscript, last_item.
  rewrite Hmod, Hkey. cbn [negb].
  repeat (triple_step solve_record).
  all: split; [reflexivity|]; eexists; split; [reflexivity|]; split; [reflexivity|];
    split; [reflexivity|]; unfold forwards; cbn; by eauto 10.
Qed.
End SentrialDemo.

(** C4 (as amended).  In every run of the support-agent demo
    [complete_session] is only called on the session id that an earlier
    [create_session] call returned, with success and no failure reason from
    the [try] block, or with failure and the message of the caught
    exception, printed before it, from the handler.  It is called at most
    twice: a second call is the handler's report of failure after a report
    of success whose call raised, or whose call returned and was followed
    by a print (line 476) that raised.  A run that ends normally has made a
    [complete_session] call that returned.  And in every run in which
    [create_session] returns and one of the set-up calls after it (events 2
    to 4) raises, the process ends with that exception and
    [complete_session] is never called. *)
Theorem complete_session_protocol cfg w :
  (∃ s,
     monitor (Sentrial.protocol_monitor w) 0 Sentrial.protocol_start
       (run (Sentrial.script cfg w)).2 = Some s ∧
     ((run (Sentrial.script cfg w)).1 = Return tt → Sentrial.completed s = true)) ∧
  (∀ i a,
     (run (Sentrial.script cfg w)).2 !! i = Some (Sentrial.complete_session a) →
     (∃ j name agent, (j < i)%nat ∧
        (run (Sentrial.script cfg w)).2 !! j = Some (Sentrial.create_session name agent) ∧
        raises (w j) = None ∧ Sentrial.session_id a = text (w j)) ∧
     (if Sentrial.success a then Sentrial.failure_reason a = None
      else ∃ j msg, (j < i)%nat ∧
             (run (Sentrial.script cfg w)).2 !! j = Some (Sentrial.print_error msg) ∧
             Sentrial.failure_reason a = Some msg)) ∧
  (∀ i j a b, (i < j)%nat →
     (run (Sentrial.script cfg w)).2 !! i = Some (Sentrial.complete_session a) →
     (run (Sentrial.script cfg w)).2 !! j = Some (Sentrial.complete_session b) →
     Sentrial.success a = true ∧ Sentrial.success b = false ∧
     (raises (w i) ≠ None ∨
      raises (w i) = None ∧
      (run (Sentrial.script cfg w)).2 !! S i = Some (Sentrial.print_progress 476) ∧
      raises (w (S i)) ≠ None)) ∧
  (length (Sentrial.completions (run (Sentrial.script cfg w)).2) ≤ 2)%nat ∧
  (∀ k e,
     Sentrial.missing_module cfg = None →
     truthy (Sentrial.load_dotenv cfg !! "GEMINI_API_KEY") = true →
     (2 ≤ k ≤ 4)%nat →
     (∀ n, (n < k)%nat → raises (w n) = None) →
     raises (w k) = Some e →
     (run (Sentrial.script cfg w)).1 = Raise e ∧
     Sentrial.completions (run (Sentrial.script cfg w)).2 = [] ∧
     (run (Sentrial.script cfg w)).2 !! 1%nat
       = Some (Sentrial.create_session "Complex Multi-Step Support Agent Test"
                 Sentrial.AGENT_NAME)).
Proof.
  destruct (triple_run _ _ _ _ (script_protocol w cfg)) as (s & Hm & Hpost).
  destruct (triple_run _ _ _ _ (script_repeat w cfg)) as (s2 & Hm2 & _).
  split_and!.
  - exists s. split; [done|]. intros Ho. by rewrite Ho in Hpost.
  - intros i a. by eapply protocol_monitor_origin.
  - intros i j a b. by eapply repeat_monitor_sound.
  - apply (repeat_monitor_count w _ _ _ _ Hm2).
  - intros k e Hmod Hkey Hk Hbefore Hraise.
    destruct (triple_run _ _ _ _ (script_setup_fails w cfg k e Hmod Hkey Hk Hbefore Hraise))
      as (u & Hu & Hpost').
    rewrite monitor_record in Hu. injection Hu as <-. exact Hpost'.
Qed.

Lemma complete_session_protocol_witness :
  let cfg := Samples.sentrial_config (Some "gk-test") in
  let w := failing_at 4 (Exception "connection refused") Samples.quiet in
  (run (Sentrial.script cfg w)).1 = Raise (Exception "connection refused") ∧
  Sentrial.completions (run (Sentrial.script cfg w)).2 = [] ∧
  (run (Sentrial.script cfg w)).2 !! 1%nat
    = Some (Sentrial.create_session "Complex Multi-Step Support Agent Test"
              Sentrial.AGENT_NAME).
Proof.
  intros cfg w.
  destruct (complete_session_protocol cfg w) as (_ & _ & _ & _ & Hsetup).
  apply (Hsetup 4%nat (Exception "connection refused")).
  - reflexivity.
  - reflexivity.
  - lia.
  - intros n Hn. do 4 (destruct n as [|n]; [reflexivity|]). lia.
  - reflexivity.
Defined.

(** C4 (as stated) fails in three ways.  When [create_agent] raises after
    [create_session] has returned the session id, [complete_session] is
    never called; when the [complete_session] call of the [try] block
    itself raises, the handler calls [complete_session] a second time; and
    when that call returns and the print after it raises, the handler calls
    [complete_session] again on the session that was just completed. *)
Lemma complete_session_not_exactly_once :
  let cfg := Samples.sentrial_config (Some "gk-test") in
  let refused := Exception "connection refused" in
  (run (Sentrial.script cfg (failing_at 4 refused Samples.quiet))).2 !! 1%nat
    = Some (Sentrial.create_session "Complex Multi-Step Support Agent Test"
              "gemini_support_agent") ∧
  raises (failing_at 4 refused Samples.quiet 1%nat) = None ∧
  text (failing_at 4 refused Samples.quiet 1%nat) = "sess-1" ∧
  Sentrial.completions (run (Sentrial.script cfg (failing_at 4 refused Samples.quiet))).2 = [] ∧
  Sentrial.session_id <$>
    Sentrial.completions (run (Sentrial.script cfg (failing_at 9 refused Samples.quiet))).2
    = ["sess-1"; "sess-1"] ∧
  Sentrial.success <$>
    Sentrial.completions (run (Sentrial.script cfg (failing_at 9 refused Samples.quiet))).2
    = [true; false] ∧
  raises (failing_at 10 (Exception "broken pipe") Samples.quiet 9%nat) = None ∧
  Sentrial.session_id <$>
    Sentrial.completions
      (run (Sentrial.script cfg (failing_at 10 (Exception "broken pipe") Samples.quiet))).2
    = ["sess-1"; "sess-1"] ∧
  Sentrial.success <$>
    Sentrial.completions
      (run (Sentrial.script cfg (failing_at 10 (Exception "broken pipe") Samples.quiet))).2
    = [true; false].
Proof. vm_compute. done. Qed.

(** C5.  The usage summary has the six fields [llm_calls],
    [total_prompt_tokens], [total_completion_tokens], [total_tokens],
    [total_cost] and [duration_ms], and the demo forwards the last five,
    unchanged, on both paths.  On the success path (the calls up to
    [complete_session] return, the result has a last message and the
    summary read at event 8 holds the six fields) event 9 is a
    [complete_session] call with [success=True] that carries the five
    metrics of that summary; on the failure path ([agent.invoke] raises and
    the summary the handler reads at event 9 holds the five fields) event
    10 is a [complete_session] call with [success=False] that carries the
    five metrics of that summary.  No [complete_session] call is made in
    any other way: each comes right after a [get_usage_summary] call and
    carries the metrics that call returned; and when that call answered
    with the summary of the aggregator, they are the session's counters
    and elapsed time. *)
Theorem usage_summary_forwarded :
  (∀ s now,
     dom (SessionAggregator.usage_summary s now) = list_to_set Sentrial.summary_keys) ∧
  (∀ cfg w,
     Sentrial.missing_module cfg = None →
     truthy (Sentrial.load_dotenv cfg !! "GEMINI_API_KEY") = true →
     (∀ n, (n ≤ 9)%nat → raises (w n) = None) →
     messages (w 6%nat) ≠ Some [] →
     (∀ k, k ∈ Sentrial.summary_keys → is_Some (mapping (w 8%nat) !! k)) →
     (run (Sentrial.script cfg w)).2 !! 8%nat = Some Sentrial.get_usage_summary ∧
     ∃ a, (run (Sentrial.script cfg w)).2 !! 9%nat = Some (Sentrial.complete_session a) ∧
          Sentrial.success a = true ∧
          Sentrial.forwards (mapping (w 8%nat)) a) ∧
  (∀ cfg w e,
     Sentrial.missing_module cfg = None →
     truthy (Sentrial.load_dotenv cfg !! "GEMINI_API_KEY") = true →
     (∀ n, (n < 5)%nat → raises (w n) = None) →
     raises (w 6%nat) = Some e →
     raises (w 9%nat) = None →
     (∀ k, k ∈ Sentrial.forwarded_keys → is_Some (mapping (w 9%nat) !! k)) →
     (run (Sentrial.script cfg w)).2 !! 9%nat = Some Sentrial.get_usage_summary ∧
     ∃ a, (run (Sentrial.script cfg w)).2 !! 10%nat = Some (Sentrial.complete_session a) ∧
          Sentrial.success a = false ∧
          Sentrial.failure_reason a = Some (str e) ∧
          Sentrial.forwards (mapping (w 9%nat)) a) ∧
  (∀ cfg w i a,
     (run (Sentrial.script cfg w)).2 !! i = Some (Sentrial.complete_session a) →
     ∃ j, i = S j ∧
          (run (Sentrial.script cfg w)).2 !! j = Some Sentrial.get_usage_summary ∧
          Sentrial.forwards (mapping (w j)) a) ∧
  (∀ cfg w j a s now,
     (run (Sentrial.script cfg w)).2 !! S j = Some (Sentrial.complete_session a) →
     mapping (w j) = SessionAggregator.usage_summary s now →
     Sentrial.prompt_tokens a = SessionAggregator.total_prompt_tokens s ∧
     Sentrial.completion_tokens a = SessionAggregator.total_completion_tokens s ∧
     Sentrial.total_tokens a = SessionAggregator.total_tokens s ∧
     Sentrial.estimated_cost a = SessionAggregator.total_cost s ∧
     Sentrial.duration_ms a = (now - SessionAggregator.started_ms s)%Q) ∧
  (∀ cfg w s now,
     Sentrial.missing_module cfg = None →
     truthy (Sentrial.load_dotenv cfg !! "GEMINI_API_KEY") = true →
     (∀ n, (n ≤ 9)%nat → raises (w n) = None) →
     messages (w 6%nat) ≠ Some [] →
     mapping (w 8%nat) = SessionAggregator.usage_summary s now →
     ∃ a, (run (Sentrial.script cfg w)).2 !! 9%nat = Some (Sentrial.complete_session a) ∧
          Sentrial.success a = true ∧
          Sentrial.prompt_tokens a = SessionAggregator.total_prompt_tokens s ∧
          Sentrial.completion_tokens a = SessionAggregator.total_completion_tokens s ∧
          Sentrial.total_tokens a = SessionAggregator.total_tokens s ∧
          Sentrial.estimated_cost a = SessionAggregator.total_cost s ∧
          Sentrial.duration_ms a = (now - SessionAggregator.started_ms s)%Q).
Proof.
  assert (∀ cfg w i a,
     (run (Sentrial.script cfg w)).2 !! i = Some (Sentrial.complete_session a) →
     ∃ j, i = S j ∧
          (run (Sentrial.script cfg w)).2 !! j = Some Sentrial.get_usage_summary ∧
          Sentrial.forwards (mapping (w j)) a) as Hsafe.
  { intros cfg w i a Hi.
    destruct (triple_run _ _ _ _ (script_forwards w cfg)) as (s & Hm & _).
    by eapply forward_monitor_sound. }
  assert (∀ s now,
     dom (SessionAggregator.usage_summary s now) = list_to_set Sentrial.summary_keys)
    as Hfields.
  { intros s now. unfold SessionAggregator.usage_summary, Sentrial.summary_keys,
      Sentrial.forwarded_keys.
    rewrite dom_list_to_map_L. simpl. set_solver. }
  assert (∀ cfg w,
     Sentrial.missing_module cfg = None →
     truthy (Sentrial.load_dotenv cfg !! "GEMINI_API_KEY") = true →
     (∀ n, (n ≤ 9)%nat → raises (w n) = None) →
     messages (w 6%nat) ≠ Some [] →
     (∀ k, k ∈ Sentrial.summary_keys → is_Some (mapping (w 8%nat) !! k)) →
     (run (Sentrial.script cfg w)).2 !! 8%nat = Some Sentrial.get_usage_summary ∧
     ∃ a, (run (Sentrial.script cfg w)).2 !! 9%nat = Some (Sentrial.complete_session a) ∧
          Sentrial.success a = true ∧
          Sentrial.forwards (mapping (w 8%nat)) a) as Hsuccess.
  { intros cfg w Hmod Hkey Hret Hmsgs Hkeys.
    destruct (triple_run _ _ _ _
                (script_success_forwards w cfg Hmod Hkey Hret Hmsgs Hkeys))
      as (u & Hu & Hpost).
    rewrite monitor_record in Hu. injection Hu as <-. exact Hpost. }
  assert (∀ a s now,
     Sentrial.forwards (SessionAggregator.usage_summary s now) a →
     Sentrial.prompt_tokens a = SessionAggregator.total_prompt_tokens s ∧
     Sentrial.completion_tokens a = SessionAggregator.total_completion_tokens s ∧
     Sentrial.total_tokens a = SessionAggregator.total_tokens s ∧
     Sentrial.estimated_cost a = SessionAggregator.total_cost s ∧
     Sentrial.duration_ms a = (now - SessionAggregator.started_ms s)%Q) as Hcounters.
  { intros a s now (Hd & Hc & Hp & Hk & Ht & _).
    unfold SessionAggregator.usage_summary in *.
    vm_compute in Hd, Hc, Hp, Hk, Ht. by simplify_eq. }
  split_and!.
  - exact Hfields.
  - exact Hsuccess.
  - intros cfg w e Hmod Hkey Hsetup Hinvoke Hgus Hkeys.
    destruct (triple_run _ _ _ _
                (script_failure_forwards w cfg e Hmod Hkey Hsetup Hinvoke Hgus Hkeys))
      as (u & Hu & Hpost).
    rewrite monitor_record in Hu. injection Hu as <-. exact Hpost.
  - exact Hsafe.
  - intros cfg w j a s now Hi Hsummary.
    destruct (Hsafe cfg w _ a Hi) as (j' & [= <-] & _ & Hforwards).
    rewrite Hsummary in Hforwards. by apply Hcounters.
  - intros cfg w s now Hmod Hkey Hret Hmsgs Hsummary.
    destruct (Hsuccess cfg w Hmod Hkey Hret Hmsgs) as (_ & a & Hi & Ha & Hforwards).
    { intros k Hk. rewrite Hsummary. apply elem_of_dom. rewrite Hfields.
      by apply elem_of_list_to_set. }
    exists a. split; [done|]. split; [done|].
    rewrite Hsummary in Hforwards. by apply Hcounters.
Qed.

Lemma usage_summary_forwarded_witness :
  let cfg := Samples.sentrial_config (Some "gk-test") in
  let failing := failing_at 6 (Exception "model overloaded") Samples.quiet in
  (∃ a, (run (Sentrial.script cfg Samples.quiet)).2 !! 9%nat
          = Some (Sentrial.complete_session a) ∧
        Sentrial.success a = true ∧
        Sentrial.forwards (mapping (Samples.quiet 8%nat)) a) ∧
  (∃ a, (run (Sentrial.script cfg failing)).2 !! 10%nat
          = Some (Sentrial.complete_session a) ∧
        Sentrial.success a = false ∧
        Sentrial.failure_reason a = Some "model overloaded" ∧
        Sentrial.forwards (mapping (failing 9%nat)) a) ∧
  (∃ a, (run (Sentrial.script cfg Samples.quiet)).2 !! 9%nat
          = Some (Sentrial.complete_session a) ∧
        Sentrial.success a = true ∧
        Sentrial.prompt_tokens a = SessionAggregator.total_prompt_tokens Samples.session ∧
        Sentrial.completion_tokens a
          = SessionAggregator.total_completion_tokens Samples.session ∧
        Sentrial.total_tokens a = SessionAggregator.total_tokens Samples.session ∧
        Sentrial.estimated_cost a = SessionAggregator.total_cost Samples.session ∧
        Sentrial.duration_ms a
          = (2500 - SessionAggregator.started_ms Samples.session)%Q).
Proof.
  intros cfg failing.
  destruct usage_summary_forwarded as (_ & Hsuccess & Hfailure & _ & _ & Hlinked).
  assert (∀ (w : world) n keys,
            mapping (w n) = mapping (Samples.quiet 0%nat) →
            keys ⊆ Sentrial.summary_keys →
            ∀ k, k ∈ keys → is_Some (mapping (w n) !! k)) as Hkeys.
  { intros w n keys -> Hsub k Hk. apply Hsub in Hk.
    unfold Sentrial.summary_keys, Sentrial.forwarded_keys in Hk.
    repeat (apply elem_of_cons in Hk as [->|Hk]; [vm_compute; eauto|]).
    by apply elem_of_nil in Hk. }
  split_and!.
  - apply (Hsuccess cfg Samples.quiet); [reflexivity|reflexivity|done|discriminate|].
    by apply Hkeys.
  - apply (Hfailure cfg failing (Exception "model overloaded"));
      [reflexivity|reflexivity| |reflexivity|reflexivity|].
    + intros n Hn. do 5 (destruct n as [|n]; [reflexivity|]). lia.
    + apply Hkeys; [reflexivity|]. unfold Sentrial.summary_keys. set_solver.
  - apply (Hlinked cfg Samples.quiet Samples.session 2500%Q);
      [reflexivity|reflexivity|done|discriminate|reflexivity].
Defined.

(** ** The raindrop demo *)

(** C1.  langchain_gemini.py does not compile: line 90, the first statement
    after the header [if GEMINI_AVAILABLE:] of line 88, is not indented
    deeper than the header, so compiling the module raises
    [IndentationError]; whatever the configuration and the world, the
    process ends with that error, exit status 1, and an empty trace: no
    tracking call is made. *)
Theorem raindrop_module_does_not_compile cfg w :
  Raindrop.check_indentation [0%nat] false Raindrop.source_lines
    = Some (90%nat, Raindrop.expected_indented_block) ∧
  run (Raindrop.script cfg w)
    = (Raise (IndentationError 90 "expected an indented block"), []) ∧
  exit_code (run (Raindrop.script cfg w)).1 = 1.
Proof.
  assert (Raindrop.check_indentation [0%nat] false Raindrop.source_lines
          = Some (90%nat, Raindrop.expected_indented_block)) as Hcheck
    by (vm_compute; reflexivity).
  split; [exact Hcheck|].
  unfold run, Raindrop.script, Raindrop.compile. rewrite Hcheck. done.
Qed.

(** The indentation rule accepts the file up to line 88, and accepts all of
    lines 1-129 once the statements of lines 90-106 stand in the block of
    the [if]: line 90 is the only line it refuses. *)
Example indentation_rule_accepts_reindented :
  Raindrop.check_indentation [0%nat] false (take 42 Raindrop.source_lines) = None ∧
  Raindrop.check_indentation [0%nat] false Raindrop.reindented_lines = None.
Proof. split; vm_compute; reflexivity. Qed.

Section RaindropDemo.
Import Raindrop.
Context (w : world).

Lemma script_trace cfg : (run (script cfg w)).2 = [].
Proof.
  unfold run, script, compile.
  by replace (check_indentation [0%nat] false source_lines)
    with (Some (90%nat, expected_indented_block)) by (vm_compute; reflexivity).
Qed.

(** *** Signals after events *)

#[local] Ltac solve_signal :=
  cbn [signal_monitor]; rewrite ?decide_True by set_solver; reflexivity.

Lemma conversation_turn_signals convo_id n tracked history turn :
  triple signal_monitor n tracked (conversation_turn w convo_id history turn)
    (λ _ _ _, True).
Proof.
  destruct turn as [i user_msg]. unfold conversation_turn.
  repeat (triple_step solve_signal).
Qed.

Lemma main_try_signals g n tracked :
  triple signal_monitor n tracked (main_try w g) (λ _ _ _, True).
Proof.
  unfold main_try, test_basic_tracking, test_signals, test_partial_events,
    test_complex_conversation, test_error_scenario.
  repeat first
    [ triple_step solve_signal
    | eapply triple_conseq;
      [ apply (triple_for_each signal_monitor (λ _, True));
        [ intros; apply conversation_turn_signals | exact I ]
      | cbv beta; intros [] ? ? _ ] ].
Qed.

Lemma main_signals g n tracked :
  triple signal_monitor n tracked (main w g) (λ _ _ _, True).
Proof.
  unfold main.
  repeat first
    [ eapply triple_conseq; [ apply main_try_signals | cbv beta; intros [] ? ? _ ]
    | triple_step solve_signal ].
Qed.

Lemma program_signals cfg :
  triple signal_monitor 0 ∅ (program cfg w) (λ _ _ _, True).
Proof.
  unfold program, module_body.
  repeat first
    [ eapply triple_conseq; [ apply main_signals | cbv beta; intros [] ? ? _ ]
    | triple_step solve_signal ].
Qed.

(** What the signal monitor accepts, read on the trace. *)
Lemma signal_monitor_sound u : ∀ n tracked tracked',
  monitor signal_monitor n tracked u = Some tracked' →
  ∀ i id name kind, u !! i = Some (raindrop_track_signal id name kind) →
    id ∈ tracked ∨
    ∃ j user event input output convo, (j < i)%nat ∧
      u !! j = Some (raindrop_track_ai user event (Some id) input output convo).
Proof.
  induction u as [|c u IH]; intros n tracked tracked' Hm i id name kind Hi; [done|].
  simpl in Hm.
  destruct (signal_monitor n tracked c) as [tracked1|] eqn:Hδ; [|done].
  destruct i as [|i]; simpl in Hi.
  - injection Hi as ->. simpl in Hδ. destruct (decide _); [by left|done].
  - destruct (IH _ _ _ Hm _ _ _ _ Hi) as [Hin|(j & ? & ? & ? & ? & ? & ? & ?)].
    + destruct c as [| | | |user event [id'|] input output convo| | | | | | | | | | | | | |];
        simpl in Hδ; try (injection Hδ as <-; by left).
      * injection Hδ as <-. apply elem_of_union in Hin as [->%elem_of_singleton|]; [|by left].
        right. exists 0%nat. do 5 eexists. split; [lia|done].
      * destruct (decide _); [|done]. injection Hδ as <-. by left.
    + right. exists (S j). do 5 eexists. split; [lia|done].
Qed.
End RaindropDemo.

(** C6.  In every run of the raindrop demo, under either reading, each
    [track_signal] call names an event identifier that an earlier
    [track_ai] call of the same run was given as [event_id]. *)
Theorem signals_follow_events r cfg w i id name kind :
  (run (Raindrop.execute r cfg w)).2 !! i = Some (Raindrop.raindrop_track_signal id name kind) →
  ∃ j user event input output convo, (j < i)%nat ∧
    (run (Raindrop.execute r cfg w)).2 !! j
      = Some (Raindrop.raindrop_track_ai user event (Some id) input output convo).
Proof.
  destruct r; cbn [Raindrop.execute].
  - destruct (triple_run _ _ _ _ (program_signals w cfg)) as (s & Hm & _).
    intros Hi. destruct (signal_monitor_sound _ _ _ _ Hm _ _ _ _ Hi) as [Hin|]; [|done].
    set_solver.
  - by rewrite script_trace.
Qed.

Lemma signals_follow_events_witness :
  ∃ j user event input output convo, (j < 10)%nat ∧
    (run (Raindrop.execute Raindrop.AsWritten (Samples.raindrop_config (Some "wk-test"))
            Samples.quiet)).2 !! j
      = Some (Raindrop.raindrop_track_ai user event (Some "evt_1700000000")
                input output convo).
Proof.
  apply (signals_follow_events Raindrop.AsWritten
           (Samples.raindrop_config (Some "wk-test")) Samples.quiet 10
           "evt_1700000000" "thumbs_up" "default").
  vm_compute. reflexivity.
Defined.

Section RaindropBuilders.
Import Raindrop.
Context (w : world).

(** *** Single-use builders *)

Lemma all_sealed_finish n sealed :
  all_sealed sealed → all_sealed (<[n:=true]> (<[n:=false]> sealed)).
Proof. intros H. rewrite insert_insert_eq. by apply map_Forall_insert_2. Qed.

#[local] Ltac solve_builder :=
  cbn [builder_monitor]; rewrite ?lookup_insert_eq; reflexivity.

Lemma conversation_turn_builders convo_id n sealed history turn :
  triple builder_monitor n sealed (conversation_turn w convo_id history turn)
    (λ _ _ s', s' = sealed).
Proof.
  destruct turn as [i user_msg]. unfold conversation_turn.
  repeat first [ triple_step solve_builder | reflexivity ].
Qed.

#[local] Ltac loop_builder :=
  lazymatch goal with
  | |- triple ?δ _ ?s (for_each _ _ _) _ =>
    eapply triple_conseq;
    [ apply (triple_for_each δ (λ s', s' = s));
      [ intros ? ? ? ? ->; apply conversation_turn_builders | reflexivity ]
    | cbv beta; intros [] ? ? -> ]
  end.

Lemma main_try_builders g n sealed :
  all_sealed sealed →
  triple builder_monitor n sealed (main_try w g)
    (λ o _ s', match o with Return _ => all_sealed s' | _ => True end).
Proof.
  intros Hs.
  unfold main_try, test_basic_tracking, test_signals, test_partial_events,
    test_complex_conversation, test_error_scenario.
  repeat first
    [ triple_step solve_builder | loop_builder | assumption
    | by apply all_sealed_finish ].
Qed.

Lemma main_builders g n sealed :
  all_sealed sealed →
  triple builder_monitor n sealed (main w g)
    (λ o _ s', match o with Return _ => all_sealed s' | _ => True end).
Proof.
  intros Hs. unfold main.
  repeat first
    [ eapply triple_conseq;
      [ by apply main_try_builders | cbv beta; intros [] ? ? ? ]
    | triple_step solve_builder | assumption ].
Qed.

Lemma program_builders cfg :
  triple builder_monitor 0 ∅ (program cfg w)
    (λ o _ s', match o with Return _ => all_sealed s' | _ => True end).
Proof.
  unfold program, module_body.
  repeat first
    [ eapply triple_conseq;
      [ by apply main_builders, map_Forall_empty | cbv beta; intros [] ? ? ? ]
    | triple_step solve_builder | assumption ].
Qed.

(** What the builder monitor accepts, read on the trace. *)
Lemma finishes_cons b c u :
  finishes b (c :: u) = ((if is_finish b c then 1 else 0) + finishes b u)%nat.
Proof.
  unfold finishes. rewrite filter_cons.
  destruct (is_finish b c); by case_decide.
Qed.

Lemma builder_monitor_step n sealed c sealed1 b :
  builder_monitor n sealed c = Some sealed1 → begun_before n sealed →
  begun_before (S n) sealed1 ∧
  (is_Some (sealed !! b) → is_Some (sealed1 !! b)) ∧
  ((if is_finish b c then 1 else 0) + sealed_count sealed b
   = sealed_count sealed1 b)%nat.
Proof.
  intros Hδ Hfresh.
  assert (begun_before (S n) sealed) as Hfresh' by (intros b' ?%Hfresh; lia).
  destruct c; simpl in Hδ; try (injection Hδ as <-; done).
  - (* begin *)
    injection Hδ as <-. split_and!.
    + intros b' Hb'. apply lookup_insert_is_Some in Hb' as [<-|[_ ?]]; [lia|]. by apply Hfresh'.
    + intros ?. apply lookup_insert_is_Some. destruct (decide (n = b)); auto.
    + unfold sealed_count. destruct (decide (n = b)) as [->|].
      * rewrite lookup_insert_eq.
        destruct (sealed !! b) eqn:Hb; [|done].
        assert (b < b)%nat by (apply Hfresh; eauto). lia.
      * by rewrite lookup_insert_ne.
  - (* add_attachments *)
    destruct (sealed !! interaction) as [[]|]; try done. by injection Hδ as <-.
  - (* finish *)
    destruct (sealed !! interaction) as [[]|] eqn:Hb; try done. injection Hδ as <-.
    split_and!.
    + intros b' Hb'. apply lookup_insert_is_Some' in Hb' as [<-|?]; [|by apply Hfresh'].
      apply Hfresh'. eauto.
    + intros ?. apply lookup_insert_is_Some. destruct (decide (interaction = b)); auto.
    + unfold sealed_count. simpl. case_bool_decide as Heq.
      * subst. by rewrite lookup_insert_eq, Hb.
      * by rewrite lookup_insert_ne.
Qed.

Lemma builder_monitor_counts u : ∀ n sealed sealed',
  monitor builder_monitor n sealed u = Some sealed' → begun_before n sealed →
  begun_before (n + length u) sealed' ∧
  ∀ b, (is_Some (sealed !! b) → is_Some (sealed' !! b)) ∧
       (finishes b u + sealed_count sealed b = sealed_count sealed' b)%nat.
Proof.
  induction u as [|c u IH]; intros n sealed sealed' Hm Hfresh; simpl in Hm.
  - injection Hm as <-. rewrite Nat.add_0_r. done.
  - destruct (builder_monitor n sealed c) as [sealed1|] eqn:Hδ; [|done].
    pose proof (λ b, builder_monitor_step _ _ _ _ b Hδ Hfresh) as Hstep.
    pose proof (IH _ _ _ Hm (proj1 (Hstep 0%nat))) as [Hfresh' Hrest].
    split.
    + by replace (n + length (c :: u))%nat with (S n + length u)%nat by (simpl; lia).
    + intros b. destruct (Hstep b) as (_ & Hdom & Hcount).
      destruct (Hrest b) as [Hdom' Hcount']. split; [auto|].
      rewrite finishes_cons. lia.
Qed.

Lemma sealed_count_le sealed b : (sealed_count sealed b ≤ 1)%nat.
Proof. unfold sealed_count. by destruct (sealed !! b) as [[]|]; lia. Qed.

Lemma builder_monitor_once u sealed' b :
  monitor builder_monitor 0 ∅ u = Some sealed' → (finishes b u ≤ 1)%nat.
Proof.
  intros Hm. apply builder_monitor_counts in Hm as [_ Hb]; [|by intros b' [? ?]].
  destruct (Hb b) as [_ Hcount]. pose proof (sealed_count_le sealed' b). lia.
Qed.

Lemma builder_monitor_finished u sealed' b user event input :
  monitor builder_monitor 0 ∅ u = Some sealed' → all_sealed sealed' →
  u !! b = Some (raindrop_begin user event input) → finishes b u = 1%nat.
Proof.
  intros Hm Hall Hb.
  assert (begun_before 0 (∅ : gmap nat bool)) as Hfresh0 by (by intros b' [? ?]).
  destruct (monitor_lookup _ _ _ _ _ _ _ Hm Hb) as (si & si' & Hsi & Hδ & Hrest).
  apply builder_monitor_counts in Hsi as [Hfresh _]; [|done].
  rewrite length_take_le in Hfresh by (apply lookup_lt_Some in Hb; lia).
  simpl in Hδ, Hfresh. injection Hδ as <-.
  apply builder_monitor_counts in Hrest as [_ Hrest].
  2:{ intros b' Hb'. apply lookup_insert_is_Some' in Hb' as [<-|?%Hfresh]; simpl; lia. }
  destruct (Hrest b) as [Hdom _]. destruct Hdom as [v Hv].
  { rewrite lookup_insert_eq. eauto. }
  pose proof (Hall _ _ Hv) as ->.
  apply builder_monitor_counts in Hm as [_ Hcount]; [|done].
  destruct (Hcount b) as [_ Hc]. unfold sealed_count in Hc.
  rewrite Hv, lookup_empty in Hc. lia.
Qed.

Lemma builder_monitor_sealed u : ∀ n sealed sealed' b,
  monitor builder_monitor n sealed u = Some sealed' → begun_before n sealed →
  sealed !! b = Some true →
  ∀ j k, u !! j ≠ Some (interaction_add_attachments b k).
Proof.
  induction u as [|c u IH]; intros n sealed sealed' b Hm Hfresh Hb j k; [done|].
  simpl in Hm. destruct (builder_monitor n sealed c) as [sealed1|] eqn:Hδ; [|done].
  destruct (builder_monitor_step _ _ _ _ b Hδ Hfresh) as (Hfresh1 & _ & Hcount).
  assert (sealed1 !! b = Some true) as Hb1.
  { unfold sealed_count in Hcount. rewrite Hb in Hcount.
    destruct (sealed1 !! b) as [[]|]; [done|..]; destruct (is_finish b c); lia. }
  destruct j as [|j]; simpl.
  - intros [= ->]. simpl in Hδ. by rewrite Hb in Hδ.
  - by eapply IH.
Qed.

Lemma builder_monitor_order u sealed' i j b k output k' :
  monitor builder_monitor 0 ∅ u = Some sealed' →
  u !! i = Some (interaction_finish b output k') →
  u !! j = Some (interaction_add_attachments b k) → (j < i)%nat.
Proof.
  intros Hm Hi Hj.
  destruct (decide (j < i)%nat) as [|Hge]; [done|exfalso].
  assert (i ≠ j) by (intros ->; congruence).
  destruct (monitor_lookup _ _ _ _ _ _ _ Hm Hi) as (si & si' & Hsi & Hδ & Hrest).
  apply builder_monitor_counts in Hsi as [Hfresh _]; [|by intros b' [? ?]].
  rewrite length_take_le in Hfresh by (apply lookup_lt_Some in Hi; lia).
  destruct (builder_monitor_step _ _ _ _ b Hδ Hfresh) as (Hfresh1 & _ & _).
  simpl in Hδ. destruct (si !! b) as [[]|]; try done. injection Hδ as <-.
  eapply (builder_monitor_sealed _ _ _ _ b Hrest Hfresh1 _ (j - S i)%nat k).
  rewrite lookup_drop, <-Hj. f_equal. lia.
  Unshelve. by rewrite lookup_insert_eq.
Qed.

(** *** Builders left waiting *)

#[local] Ltac solve_pending := reflexivity.

Lemma conversation_turn_pending convo_id n pending history turn :
  triple (pending_monitor w) n pending (conversation_turn w convo_id history turn)
    (λ _ _ s', s' = pending).
Proof.
  destruct turn as [i user_msg]. unfold conversation_turn.
  repeat first [ triple_step solve_pending | reflexivity ].
Qed.

#[local] Ltac loop_pending :=
  lazymatch goal with
  | |- triple ?δ _ ?s (for_each _ _ _) _ =>
    eapply triple_conseq;
    [ apply (triple_for_each δ (λ s', s' = s));
      [ intros ? ? ? ? ->; apply conversation_turn_pending | reflexivity ]
    | cbv beta; intros [] ? ? -> ]
  end.

Lemma pending_finished (b : nat) (pending : gset nat) :
  pending ⊆ {[b]} → pending ∖ {[b]} = ∅.
Proof. intros Hsub. apply set_eq. intros x. set_unfold. naive_solver. Qed.

Lemma main_try_pending g n :
  triple (pending_monitor w) n ∅ (main_try w g) (λ _ _ s', s' = ∅).
Proof.
  unfold main_try, test_basic_tracking, test_signals, test_partial_events,
    test_complex_conversation, test_error_scenario.
  repeat first
    [ triple_step solve_pending | loop_pending | reflexivity
    | apply pending_finished; set_unfold; tauto ].
Qed.

Lemma main_pending g n :
  triple (pending_monitor w) n ∅ (main w g) (λ _ _ s', s' = ∅).
Proof.
  unfold main.
  repeat first
    [ eapply triple_conseq;
      [ by apply main_try_pending | cbv beta; intros [] ? ? -> ]
    | triple_step solve_pending | reflexivity ].
Qed.

Lemma program_pending cfg :
  triple (pending_monitor w) 0 ∅ (program cfg w) (λ _ _ s', s' = ∅).
Proof.
  unfold program, module_body.
  repeat first
    [ eapply triple_conseq;
      [ by apply main_pending | cbv beta; intros [] ? ? -> ]
    | triple_step solve_pending | reflexivity ].
Qed.

Lemma finishes_lookup b u j output k :
  u !! j = Some (interaction_finish b output k) → (1 ≤ finishes b u)%nat.
Proof.
  intros Hj. unfold finishes.
  assert (interaction_finish b output k ∈ filter (λ c, is_finish b c) u) as Hin.
  { apply list_elem_of_filter. split; [|by eapply list_elem_of_lookup_2].
    simpl. by rewrite bool_decide_true. }
  destruct (filter _ u); [by apply elem_of_nil in Hin|simpl; lia].
Qed.

(** A builder that leaves the set of waiting builders was finished. *)
Lemma pending_monitor_finish u : ∀ n pending pending' b,
  monitor (pending_monitor w) n pending u = Some pending' →
  b ∈ pending → b ∉ pending' →
  ∃ j output k, u !! j = Some (interaction_finish b output k).
Proof.
  induction u as [|c u IH]; intros n pending pending' b Hm Hin Hout; simpl in Hm.
  - injection Hm as <-. done.
  - destruct (pending_monitor w n pending c) as [pending1|] eqn:Hδ; [|done].
    destruct (decide (b ∈ pending1)) as [Hin1|Hout1].
    + destruct (IH _ _ _ _ Hm Hin1 Hout) as (j & output & k & Hj).
      by exists (S j), output, k.
    + exists 0%nat. destruct c; simpl in Hδ; injection Hδ as <-; try done.
      * destruct (raises (w n)), (raises (w (S n))); set_solver.
      * destruct (decide (interaction = b)) as [->|]; [by eauto|set_solver].
Qed.

Lemma pending_monitor_sound u i b k :
  monitor (pending_monitor w) 0 ∅ u = Some ∅ →
  u !! i = Some (interaction_add_attachments b k) →
  raises (w i) = None → raises (w (S i)) = None →
  (1 ≤ finishes b u)%nat.
Proof.
  intros Hm Hi Hret Hprint.
  destruct (monitor_lookup _ _ _ _ _ _ _ Hm Hi) as (si & si' & _ & Hδ & Hrest).
  simpl in Hδ. rewrite Hret, Hprint in Hδ. injection Hδ as <-.
  destruct (pending_monitor_finish _ _ _ _ b Hrest) as (j & output & k' & Hj);
    [set_solver..|].
  rewrite lookup_drop in Hj. by eapply finishes_lookup.
Qed.

(** *** The print after [add_attachments] *)

#[local] Ltac solve_attached :=
  cbn [attached_monitor is_progress andb negb];
  first [ reflexivity
        | rewrite bool_decide_true by done; cbn [andb negb]; reflexivity ].

Lemma conversation_turn_attached convo_id n history turn :
  triple (attached_monitor w) n false (conversation_turn w convo_id history turn)
    (λ _ _ s', s' = false).
Proof.
  destruct turn as [i user_msg]. unfold conversation_turn.
  repeat first [ triple_step solve_attached | reflexivity ].
Qed.

#[local] Ltac loop_attached :=
  lazymatch goal with
  | |- triple ?δ _ ?s (for_each _ _ _) _ =>
    eapply triple_conseq;
    [ apply (triple_for_each δ (λ s', s' = s));
      [ intros ? ? ? ? ->; apply conversation_turn_attached | reflexivity ]
    | cbv beta; intros [] ? ? -> ]
  end.

Lemma main_attached g n :
  triple (attached_monitor w) n false (main w g) (λ _ _ s', s' = false).
Proof.
  unfold main, main_try, test_basic_tracking, test_signals, test_partial_events,
    test_complex_conversation, test_error_scenario.
  repeat first [ triple_step solve_attached | loop_attached | reflexivity ].
Qed.

Lemma program_attached cfg :
  triple (attached_monitor w) 0 false (program cfg w) (λ _ _ s', s' = false).
Proof.
  unfold program, module_body.
  repeat first
    [ eapply triple_conseq;
      [ by apply main_attached | cbv beta; intros [] ? ? -> ]
    | triple_step solve_attached | reflexivity ].
Qed.

Lemma attached_monitor_sound u i b k :
  monitor (attached_monitor w) 0 false u = Some false →
  u !! i = Some (interaction_add_attachments b k) → raises (w i) = None →
  u !! S i = Some (print_progress 204).
Proof.
  intros Hm Hi Hret.
  destruct (monitor_lookup _ _ _ _ _ _ _ Hm Hi) as (si & si' & _ & Hδ & Hrest).
  unfold attached_monitor in Hδ. simpl in Hδ, Hrest.
  destruct si; simpl in Hδ; [done|].
  rewrite bool_decide_true in Hδ by done. injection Hδ as <-.
  rewrite <-(Nat.add_0_r (S i)), <-lookup_drop.
  destruct (drop (S i) u) as [|c rest]; [done|].
  cbn [monitor] in Hrest. unfold attached_monitor at 1 in Hrest.
  destruct c; simpl in Hrest; try done.
  destruct (decide (line = 204%nat)) as [->|Hne]; [done|].
  by rewrite bool_decide_false in Hrest.
Qed.

(** *** Builders given up *)

#[local] Ltac solve_given_up :=
  cbn [given_up_monitor];
  first [ reflexivity | rewrite decide_False by set_solver; reflexivity ].

Lemma conversation_turn_given_up convo_id n given_up history turn :
  triple (given_up_monitor w) n given_up (conversation_turn w convo_id history turn)
    (λ _ _ s', s' = given_up).
Proof.
  destruct turn as [i user_msg]. unfold conversation_turn.
  repeat first [ triple_step solve_given_up | reflexivity ].
Qed.

#[local] Ltac loop_given_up :=
  lazymatch goal with
  | |- triple ?δ _ ?s (for_each _ _ _) _ =>
    eapply triple_conseq;
    [ apply (triple_for_each δ (λ s', s' = s));
      [ intros ? ? ? ? ->; apply conversation_turn_given_up | reflexivity ]
    | cbv beta; intros [] ? ? -> ]
  end.

Lemma main_given_up g n :
  triple (given_up_monitor w) n ∅ (main w g) (λ _ _ _, True).
Proof.
  unfold main, main_try, test_basic_tracking, test_signals, test_partial_events,
    test_complex_conversation, test_error_scenario.
  repeat first [ triple_step solve_given_up | loop_given_up ].
Qed.

Lemma program_given_up cfg :
  triple (given_up_monitor w) 0 ∅ (program cfg w) (λ _ _ _, True).
Proof.
  unfold program, module_body.
  repeat first
    [ eapply triple_conseq; [ by apply main_given_up | done ]
    | triple_step solve_given_up ].
Qed.

(** A builder that was given up gets no [finish] call afterwards. *)
Lemma given_up_monitor_final u : ∀ n given_up given_up' b,
  monitor (given_up_monitor w) n given_up u = Some given_up' → b ∈ given_up →
  ∀ j output k, u !! j ≠ Some (interaction_finish b output k).
Proof.
  induction u as [|c u IH]; intros n given_up given_up' b Hm Hb j output k; [done|].
  cbn [monitor] in Hm.
  destruct (given_up_monitor w n given_up c) as [s1|] eqn:Hδ; [|done].
  assert (b ∈ s1) as Hb1.
  { destruct c; simpl in Hδ; try (by injection Hδ as <-).
    - injection Hδ as <-. destruct (raises (w n)), (raises (w (S n))); set_solver.
    - destruct (decide _); [done|]. by injection Hδ as <-. }
  destruct j as [|j]; simpl.
  - intros [= ->]. simpl in Hδ. by rewrite decide_True in Hδ.
  - by eapply IH.
Qed.

Lemma finishes_none b u :
  (∀ j output k, u !! j ≠ Some (interaction_finish b output k)) → finishes b u = 0%nat.
Proof.
  intros Hnone. destruct (finishes b u) as [|m] eqn:Hcount; [done|exfalso].
  unfold finishes in Hcount.
  destruct (filter (λ c, is_finish b c) u) as [|c rest] eqn:Hfilter; [done|].
  assert (c ∈ filter (λ c, is_finish b c) u) as Hin by (rewrite Hfilter; by left).
  apply list_elem_of_filter in Hin as [Hc Hin].
  apply list_elem_of_lookup_1 in Hin as [j Hj].
  destruct c; simpl in Hc; try done. apply bool_decide_unpack in Hc as ->.
  by eapply Hnone.
Qed.

Lemma given_up_monitor_sound u sealed' given_up' i b k :
  monitor builder_monitor 0 ∅ u = Some sealed' →
  monitor (given_up_monitor w) 0 ∅ u = Some given_up' →
  u !! i = Some (interaction_add_attachments b k) →
  raises (w i) ≠ None ∨ raises (w (S i)) ≠ None →
  finishes b u = 0%nat.
Proof.
  intros Hbuilder Hm Hi Hcut. apply finishes_none. intros j output k' Hj.
  pose proof (builder_monitor_order _ _ _ _ _ _ _ _ Hbuilder Hj Hi) as Hij.
  destruct (monitor_lookup _ _ _ _ _ _ _ Hm Hi) as (si & si' & _ & Hδ & Hrest).
  simpl in Hδ, Hrest.
  assert (b ∈ si') as Hb.
  { injection Hδ as <-. destruct (raises (w i)), (raises (w (S i))); [set_solver..|].
    by destruct Hcut. }
  eapply (given_up_monitor_final _ _ _ _ b Hrest Hb (j - S i)%nat output k').
  rewrite lookup_drop, <-Hj. f_equal. lia.
Qed.
End RaindropBuilders.

(** C7 (as amended).  In every run of the raindrop demo, under either
    reading, the single-use discipline of the builders holds:
    [add_attachments] and [finish] are only called on an open builder
    obtained from [begin], so [finish] is called at most once per builder
    and [add_attachments] only before it, and no call can meet a sealed
    builder.  [finish] is called exactly once on every builder whose
    [add_attachments] call and the print that follows it (line 204)
    return, and so, in a run that ends normally, on every builder obtained
    from [begin]; when one of the two raises, the builder is left without a
    [finish] call. *)
Theorem builder_discipline r cfg w :
  (∃ sealed,
     monitor Raindrop.builder_monitor 0 ∅ (run (Raindrop.execute r cfg w)).2 = Some sealed ∧
     ((run (Raindrop.execute r cfg w)).1 = Return tt → Raindrop.all_sealed sealed)) ∧
  (∀ b, (Raindrop.finishes b (run (Raindrop.execute r cfg w)).2 ≤ 1)%nat) ∧
  (∀ i j b k output k',
     (run (Raindrop.execute r cfg w)).2 !! i = Some (Raindrop.interaction_finish b output k') →
     (run (Raindrop.execute r cfg w)).2 !! j = Some (Raindrop.interaction_add_attachments b k) →
     (j < i)%nat) ∧
  (∀ i b k,
     (run (Raindrop.execute r cfg w)).2 !! i = Some (Raindrop.interaction_add_attachments b k) →
     raises (w i) = None → raises (w (S i)) = None →
     (run (Raindrop.execute r cfg w)).2 !! S i = Some (Raindrop.print_progress 204) ∧
     Raindrop.finishes b (run (Raindrop.execute r cfg w)).2 = 1%nat) ∧
  (∀ i b k,
     (run (Raindrop.execute r cfg w)).2 !! i = Some (Raindrop.interaction_add_attachments b k) →
     raises (w i) ≠ None ∨ raises (w (S i)) ≠ None →
     Raindrop.finishes b (run (Raindrop.execute r cfg w)).2 = 0%nat) ∧
  ((run (Raindrop.execute r cfg w)).1 = Return tt →
   ∀ b user event input,
     (run (Raindrop.execute r cfg w)).2 !! b = Some (Raindrop.raindrop_begin user event input) →
     Raindrop.finishes b (run (Raindrop.execute r cfg w)).2 = 1%nat).
Proof.
  assert (monitor (Raindrop.pending_monitor w) 0 ∅ (run (Raindrop.execute r cfg w)).2
          = Some ∅) as Hpending.
  { destruct r; cbn [Raindrop.execute].
    - by destruct (triple_run _ _ _ _ (program_pending w cfg)) as (s & Hm & ->).
    - by rewrite script_trace. }
  assert (∃ given_up,
     monitor (Raindrop.given_up_monitor w) 0 ∅ (run (Raindrop.execute r cfg w)).2
     = Some given_up) as [given_up Hgiven_up].
  { destruct r; cbn [Raindrop.execute].
    - destruct (triple_run _ _ _ _ (program_given_up w cfg)) as (s & Hm & _). eauto.
    - exists ∅. by rewrite script_trace. }
  assert (∃ sealed,
     monitor Raindrop.builder_monitor 0 ∅ (run (Raindrop.execute r cfg w)).2 = Some sealed ∧
     ((run (Raindrop.execute r cfg w)).1 = Return tt → Raindrop.all_sealed sealed))
    as (sealed & Hm & Hall).
  { destruct r; cbn [Raindrop.execute].
    - destruct (triple_run _ _ _ _ (program_builders w cfg)) as (s & Hm & Hpost).
      exists s. split; [done|]. intros Ho. by rewrite Ho in Hpost.
    - exists ∅. rewrite script_trace. split; [done|]. intros _. apply map_Forall_empty. }
  split_and!.
  - eauto.
  - intros b. by eapply builder_monitor_once.
  - intros i j b k output k'. by eapply builder_monitor_order.
  - intros i b k Hi Hret Hprint.
    pose proof (pending_monitor_sound w _ _ _ _ Hpending Hi Hret Hprint) as Hone.
    pose proof (builder_monitor_once _ _ b Hm). split; [|lia].
    destruct r; cbn [Raindrop.execute] in *; [|by rewrite script_trace in Hi].
    destruct (triple_run _ _ _ _ (program_attached w cfg)) as (s & Hattached & ->).
    by eapply attached_monitor_sound.
  - intros i b k Hi Hcut. by eapply given_up_monitor_sound.
  - intros Ho b user event input Hb.
    eapply builder_monitor_finished; [exact Hm|by apply Hall|exact Hb].
Qed.

Lemma builder_discipline_witness :
  let cfg := Samples.raindrop_config (Some "wk-test") in
  (run (Raindrop.execute Raindrop.AsWritten cfg Samples.quiet)).2 !! 16%nat
    = Some (Raindrop.print_progress 204) ∧
  Raindrop.finishes 13 (run (Raindrop.execute Raindrop.AsWritten cfg Samples.quiet)).2
    = 1%nat.
Proof.
  intros cfg.
  destruct (builder_discipline Raindrop.AsWritten cfg Samples.quiet)
    as (_ & _ & _ & Hfinished & _).
  apply (Hfinished 15%nat 13%nat 1%nat); [vm_compute; reflexivity|reflexivity..].
Defined.

(** C7 (as stated) fails when the print between [add_attachments] and
    [finish] raises: the builder was obtained from [begin] (event 13, which
    returned) and its [add_attachments] call returned (event 15); the
    exception of the print (event 16) leaves [test_partial_events], and
    [finish] is never called on that builder. *)
Lemma builder_left_unfinished :
  let cfg := Samples.raindrop_config (Some "wk-test") in
  let w := failing_at 16 (Exception "broken pipe") Samples.quiet in
  (run (Raindrop.execute Raindrop.AsWritten cfg w)).2 !! 13%nat
    = Some (Raindrop.raindrop_begin "test_user_001" "code_generation"
              "Write a Python function to calculate fibonacci") ∧
  raises (w 13%nat) = None ∧
  (run (Raindrop.execute Raindrop.AsWritten cfg w)).2 !! 15%nat
    = Some (Raindrop.interaction_add_attachments 13 1) ∧
  raises (w 15%nat) = None ∧
  (run (Raindrop.execute Raindrop.AsWritten cfg w)).2 !! 16%nat
    = Some (Raindrop.print_progress 204) ∧
  Raindrop.finishes 13 (run (Raindrop.execute Raindrop.AsWritten cfg w)).2 = 0%nat ∧
  (run (Raindrop.execute Raindrop.AsWritten cfg w)).1 = Raise (Exception "broken pipe").
Proof. vm_compute. done. Qed.

Section RaindropClient.
Import Raindrop.
Context (w : world).

(** *** Shutdown *)

#[local] Ltac solve_client := reflexivity.

Lemma conversation_turn_client convo_id n history turn :
  triple client_monitor n Running (conversation_turn w convo_id history turn)
    (λ _ _ s', s' = Running).
Proof.
  destruct turn as [i user_msg]. unfold conversation_turn.
  repeat first [ triple_step solve_client | reflexivity ].
Qed.

#[local] Ltac loop_client :=
  lazymatch goal with
  | |- triple ?δ _ ?s (for_each _ _ _) _ =>
    eapply triple_conseq;
    [ apply (triple_for_each δ (λ s', s' = s));
      [ intros ? ? ? ? ->; apply conversation_turn_client | reflexivity ]
    | cbv beta; intros [] ? ? -> ]
  end.

Lemma main_client g n :
  triple client_monitor n Idle (main w g) (λ _ _ s', settled s').
Proof.
  unfold main.
  destruct (RAINDROP_AVAILABLE g) eqn:Hav; cbn [negb]; [|apply triple_ret; by left].
  destruct (env g !! "RAINDROP_WRITE_KEY") as [key|] eqn:Hkey;
    cbn [truthy negb]; [|apply triple_ret; by left].
  destruct (String.eqb key EmptyString) eqn:Hne; cbn [negb]; [apply triple_ret; by left|].
  unfold main_try, test_basic_tracking, test_signals, test_partial_events,
    test_complex_conversation, test_error_scenario.
  rewrite Hav, Hkey. cbn [negb truthy orb]. rewrite Hne. cbn [negb].
  repeat first [ triple_step solve_client | loop_client | by right ].
Qed.

Lemma program_client cfg :
  triple client_monitor 0 Idle (program cfg w) (λ _ _ s', settled s').
Proof.
  unfold program, module_body.
  repeat first
    [ eapply triple_conseq; [ by apply main_client | cbv beta; intros [] ? ? ? ]
    | triple_step solve_client | assumption | by left ].
Qed.

(** What the client monitor accepts, read on the trace. *)
Lemma client_closed_final n u s' :
  monitor client_monitor n Closed u = Some s' → u = [].
Proof. by destruct u. Qed.

Lemma client_shutdown_last n s u s' i :
  monitor client_monitor n s u = Some s' → u !! i = Some raindrop_shutdown →
  S i = length u.
Proof.
  intros Hm Hi.
  destruct (monitor_lookup _ _ _ _ _ _ _ Hm Hi) as (si & si' & _ & Hδ & Hrest).
  assert (si' = Closed) as -> by (destruct si; simpl in Hδ; congruence).
  apply client_closed_final in Hrest.
  apply (f_equal length) in Hrest. rewrite length_drop in Hrest. simpl in Hrest.
  apply lookup_lt_Some in Hi. lia.
Qed.

Lemma client_not_idle u : ∀ n s s',
  monitor client_monitor n s u = Some s' → s ≠ Idle → s' ≠ Idle.
Proof.
  induction u as [|c u IH]; intros n s s' Hm Hs; simpl in Hm; [congruence|].
  destruct (client_monitor n s c) as [s1|] eqn:Hδ; [|done].
  eapply IH; [done|].
  destruct s; [done| |done]. simpl in Hδ.
  destruct c; simpl in Hδ; congruence.
Qed.

Lemma client_closed_by_shutdown u : ∀ n s,
  monitor client_monitor n s u = Some Closed → s ≠ Closed →
  last u = Some raindrop_shutdown.
Proof.
  induction u as [|c u _] using rev_ind; intros n s Hm Hs; [simpl in Hm; congruence|].
  rewrite last_snoc. rewrite monitor_app in Hm.
  destruct (monitor client_monitor n s u) as [s1|]; [|done]. simpl in Hm.
  destruct (client_monitor (n + length u) s1 c) as [s2|] eqn:Hδ; [|done].
  injection Hm as ->.
  destruct s1; [| |done]; destruct c; simpl in Hδ; congruence.
Qed.

Lemma client_used_then_closed u s' i c :
  monitor client_monitor 0 Idle u = Some s' → settled s' →
  u !! i = Some c → client_call c = true → last u = Some raindrop_shutdown.
Proof.
  intros Hm Hsettled Hi Hc.
  destruct (monitor_lookup _ _ _ _ _ _ _ Hm Hi) as (si & si' & _ & Hδ & Hrest).
  assert (si' = Running) as ->.
  { destruct si; simpl in Hδ; [..|done]; destruct c; simpl in *; congruence. }
  apply client_not_idle in Hrest as Hs'; [|done].
  destruct Hsettled as [->| ->]; [done|].
  by eapply client_closed_by_shutdown.
Qed.

(** *** Initialisation *)

#[local] Ltac solve_init :=
  cbn [init_monitor tracking_call andb negb];
  rewrite ?decide_True by (split; [assumption|cbn [truthy]; by destruct (String.eqb _ _)]);
  reflexivity.

Lemma conversation_turn_init environment convo_id n history turn :
  triple (init_monitor environment) n true (conversation_turn w convo_id history turn)
    (λ _ _ s', s' = true).
Proof.
  destruct turn as [i user_msg]. unfold conversation_turn.
  repeat first [ triple_step solve_init | reflexivity ].
Qed.

#[local] Ltac loop_init :=
  lazymatch goal with
  | |- triple ?δ _ ?s (for_each _ _ _) _ =>
    eapply triple_conseq;
    [ apply (triple_for_each δ (λ s', s' = s));
      [ intros ? ? ? ? ->; apply conversation_turn_init | reflexivity ]
    | cbv beta; intros [] ? ? -> ]
  end.

Lemma main_init g n :
  triple (init_monitor (env g)) n false (main w g) (λ _ _ _, True).
Proof.
  unfold main.
  destruct (RAINDROP_AVAILABLE g) eqn:Hav; cbn [negb]; [|by apply triple_ret].
  destruct (env g !! "RAINDROP_WRITE_KEY") as [key|] eqn:Hkey;
    cbn [truthy negb]; [|by apply triple_ret].
  destruct (String.eqb key EmptyString) eqn:Hne; cbn [negb]; [by apply triple_ret|].
  unfold main_try, test_basic_tracking, test_signals, test_partial_events,
    test_complex_conversation, test_error_scenario.
  rewrite Hav, Hkey. cbn [negb truthy orb]. rewrite Hne. cbn [negb].
  repeat first [ triple_step solve_init | loop_init ].
Qed.

Lemma program_init cfg :
  triple (init_monitor (load_dotenv cfg)) 0 false (program cfg w) (λ _ _ _, True).
Proof.
  unfold program, module_body.
  repeat first
    [ eapply triple_conseq; [ by apply main_init | cbv beta; intros [] ? ? ? ]
    | triple_step solve_init ].
Qed.

(** What the initialisation monitor accepts, read on the trace. *)
Lemma init_monitor_sound environment u : ∀ n ready ready',
  monitor (init_monitor environment) n ready u = Some ready' →
  ∀ i c, u !! i = Some c → tracking_call c = true →
    ready = true ∨
    ∃ j key, (j < i)%nat ∧ u !! j = Some (raindrop_init key) ∧
             environment !! "RAINDROP_WRITE_KEY" = Some key ∧
             truthy (Some key) = true.
Proof.
  induction u as [|c0 u IH]; intros n ready ready' Hm i c Hi Hc; [done|].
  simpl in Hm.
  destruct (init_monitor environment n ready c0) as [ready1|] eqn:Hδ; [|done].
  destruct i as [|i]; simpl in Hi.
  - injection Hi as ->. left. destruct c; simpl in Hc, Hδ; try done;
      by destruct ready.
  - destruct (IH _ _ _ Hm _ _ Hi Hc) as [->|(j & key & ? & ? & ? & ?)].
    + destruct c0; simpl in Hδ;
        try (destruct ready; simpl in Hδ; by (left + (try discriminate))).
      destruct (decide _) as [[? ?]|]; [|done].
      right. exists 0%nat, write_key. split_and!; [lia|done..].
    + right. exists (S j), key. split_and!; [lia|done..].
Qed.

(** *** The [try] statement of [main] *)

Lemma main_returns_without_key g t :
  RAINDROP_AVAILABLE g = false ∨ truthy (env g !! "RAINDROP_WRITE_KEY") = false →
  main w g t = (Return tt, t).
Proof.
  unfold main. intros [->| ->]; [done|]. by destruct (RAINDROP_AVAILABLE g).
Qed.

Lemma main_reraises g t e t1 :
  RAINDROP_AVAILABLE g = true → truthy (env g !! "RAINDROP_WRITE_KEY") = true →
  main_try w g t = (Raise e, t1) →
  ∃ e', main w g t
        = (Raise e', t1 ++ [print_error (str e); raindrop_shutdown]) ∧
        (raises (w (length t1 + 1)%nat) = None → e' = e).
Proof.
  intros Hav Hkey Htry. unfold main. rewrite Hav, Hkey. cbn [negb].
  unfold try_finally, try_except. rewrite Htry.
  unfold mbind, M_bind, bind, libcall, raise, extcall, mret, M_ret, ret.
  rewrite length_app. simpl.
  destruct (raises (w (length t1 + 1)%nat)) as [e'|];
    eexists; (split; [by rewrite <-app_assoc|]); done.
Qed.

#[local] Ltac solve_record := reflexivity.

Lemma conversation_turn_returns convo_id n s history turn :
  calm w →
  triple record n s (conversation_turn w convo_id history turn)
    (λ o _ _, ∃ h, o = Return h).
Proof.
  intros Hcalm. destruct turn as [i user_msg]. unfold conversation_turn.
  repeat first [ triple_step solve_record | by eexists ].
Qed.

Lemma program_returns cfg :
  calm w → (run (program cfg w)).1 = Return tt.
Proof.
  intros Hcalm.
  enough (triple record 0 [] (program cfg w) (λ o _ _, o = Return tt)) as Ht
    by (by destruct (triple_run _ _ _ _ Ht) as (? & _ & ?)).
  unfold program, module_body, main, main_try, test_basic_tracking, test_signals,
    test_partial_events, test_complex_conversation, test_error_scenario.
  repeat first
    [ triple_step solve_record
    | eapply triple_conseq;
      [ apply triple_for_each_returns; intros; by apply conversation_turn_returns
      | cbv beta; intros ? ? ? [? ->] ]
    | reflexivity ].
Qed.
End RaindropClient.

(** C8.  In every run of the raindrop demo, under either reading,
    [shutdown] is called at most once and is then the last event of the
    run, so no tracking or flush call follows it; and whenever the client
    was used at all, whether the tests returned or raised, the run ends
    with the [shutdown] call of the [finally] block. *)
Theorem shutdown_once_and_last r cfg w :
  (∃ s, monitor Raindrop.client_monitor 0 Raindrop.Idle (run (Raindrop.execute r cfg w)).2
          = Some s ∧ Raindrop.settled s) ∧
  (∀ i, (run (Raindrop.execute r cfg w)).2 !! i = Some Raindrop.raindrop_shutdown →
        S i = length (run (Raindrop.execute r cfg w)).2) ∧
  (∀ i c, (run (Raindrop.execute r cfg w)).2 !! i = Some c →
          Raindrop.client_call c = true →
          last (run (Raindrop.execute r cfg w)).2 = Some Raindrop.raindrop_shutdown).
Proof.
  assert (∃ s, monitor Raindrop.client_monitor 0 Raindrop.Idle
                 (run (Raindrop.execute r cfg w)).2 = Some s ∧ Raindrop.settled s)
    as (s & Hm & Hs).
  { destruct r; cbn [Raindrop.execute].
    - apply (triple_run _ _ _ _ (program_client w cfg)).
    - exists Raindrop.Idle. rewrite script_trace. split; [done|by left]. }
  split_and!.
  - eauto.
  - intros i. by eapply client_shutdown_last.
  - intros i c. by eapply client_used_then_closed.
Qed.

(** C9.  In every run of the raindrop demo, under either reading, every
    [identify], [track_ai], [track_signal], [begin] and [flush] call comes
    after a call of [init] with the write key of the environment, which is
    set and not empty. *)
Theorem init_before_tracking r cfg w :
  is_Some (monitor (Raindrop.init_monitor (Raindrop.load_dotenv cfg)) 0 false
             (run (Raindrop.execute r cfg w)).2) ∧
  (∀ i c, (run (Raindrop.execute r cfg w)).2 !! i = Some c →
          Raindrop.tracking_call c = true →
          ∃ j key, (j < i)%nat ∧
            (run (Raindrop.execute r cfg w)).2 !! j = Some (Raindrop.raindrop_init key) ∧
            Raindrop.load_dotenv cfg !! "RAINDROP_WRITE_KEY" = Some key ∧
            truthy (Some key) = true).
Proof.
  assert (∃ s, monitor (Raindrop.init_monitor (Raindrop.load_dotenv cfg)) 0 false
                 (run (Raindrop.execute r cfg w)).2 = Some s) as [s Hm].
  { destruct r; cbn [Raindrop.execute].
    - destruct (triple_run _ _ _ _ (program_init w cfg)) as (s & Hm & _). eauto.
    - exists false. by rewrite script_trace. }
  split; [by rewrite Hm|].
  intros i c Hi Hc.
  by destruct (init_monitor_sound _ _ _ _ _ Hm _ _ Hi Hc).
Qed.

(** ** Exit status and caught exceptions, both demos *)

(** C2 (as amended).  The support-agent demo exits with status 1, before
    any call, when [GEMINI_API_KEY] is unset or empty, and ends normally
    (status 0) when the key is set, every call returns, the agent's result
    (event 6) has no empty message list and the usage summary (event 8)
    holds its six fields.  The [main] of the raindrop demo does not exit
    with status 1 when the SDK or [RAINDROP_WRITE_KEY] is missing: it
    returns without a single call; and the statements of the raindrop demo
    end normally whenever every call returns. *)
Theorem exit_status_by_design :
  (∀ cfg w,
     Sentrial.missing_module cfg = None →
     truthy (Sentrial.load_dotenv cfg !! "GEMINI_API_KEY") = false →
     run (Sentrial.script cfg w) = (SystemExit 1, [])) ∧
  (∀ cfg w,
     Sentrial.missing_module cfg = None →
     truthy (Sentrial.load_dotenv cfg !! "GEMINI_API_KEY") = true →
     calm w → messages (w 6%nat) ≠ Some [] →
     (∀ k, k ∈ Sentrial.summary_keys → is_Some (mapping (w 8%nat) !! k)) →
     (run (Sentrial.script cfg w)).1 = Return tt ∧
     exit_code (run (Sentrial.script cfg w)).1 = 0) ∧
  (∀ w g t,
     Raindrop.RAINDROP_AVAILABLE g = false ∨
     truthy (Raindrop.env g !! "RAINDROP_WRITE_KEY") = false →
     Raindrop.main w g t = (Return tt, t)) ∧
  (∀ cfg w,
     calm w →
     (run (Raindrop.program cfg w)).1 = Return tt ∧
     exit_code (run (Raindrop.program cfg w)).1 = 0).
Proof.
  split_and!.
  - intros. by apply script_exits_without_key.
  - intros cfg w ? ? ? ? ?. by rewrite script_returns.
  - intros. by apply main_returns_without_key.
  - intros cfg w ?. by rewrite program_returns.
Qed.

Lemma exit_status_by_design_witness :
  run (Sentrial.script (Samples.sentrial_config None) Samples.quiet) = (SystemExit 1, []) ∧
  exit_code (run (Sentrial.script (Samples.sentrial_config (Some "gk-test")) Samples.quiet)).1
    = 0 ∧
  Raindrop.main Samples.quiet Samples.raindrop_globals [] = (Return tt, []) ∧
  exit_code (run (Raindrop.program (Samples.raindrop_config (Some "wk-test")) Samples.quiet)).1
    = 0.
Proof.
  destruct exit_status_by_design as (Hexit & Hreturn & Hskip & Hprogram).
  split_and!.
  - apply Hexit; reflexivity.
  - apply Hreturn; [reflexivity|reflexivity|intros n; reflexivity|discriminate|].
    intros k Hk. unfold Sentrial.summary_keys, Sentrial.forwarded_keys in Hk.
    repeat (apply elem_of_cons in Hk as [->|Hk]; [vm_compute; eauto|]).
    by apply elem_of_nil in Hk.
  - apply Hskip. right. reflexivity.
  - apply Hprogram. intros n. reflexivity.
Defined.

(** C2 (as stated) fails.  As its statements are written, the raindrop demo
    ends with status 0 when [RAINDROP_WRITE_KEY] is unset; as the
    interpreter loads it, it ends with status 1 although every key is set;
    and the support-agent demo ends with status 1, all keys set, when
    [create_session] raises. *)
Lemma exit_status_counterexample :
  exit_code (run (Raindrop.execute Raindrop.AsWritten
                    (Samples.raindrop_config None) Samples.quiet)).1 = 0 ∧
  exit_code (run (Raindrop.execute Raindrop.AsLoaded
                    (Samples.raindrop_config (Some "wk-test")) Samples.quiet)).1 = 1 ∧
  exit_code (run (Sentrial.script (Samples.sentrial_config (Some "gk-test"))
                    (failing_at 1 (Exception "connection refused") Samples.quiet))).1 = 1.
Proof. vm_compute. done. Qed.

(** C3 (as amended).  In the support-agent demo an exception raised in the
    [try] block is caught and printed.  When the handler's
    [get_usage_summary] call returns a summary that holds the five
    forwarded keys and its [complete_session] call returns, the handler has
    reported the failure through [complete_session] with [success=False]
    and the text of the exception as failure reason, and the [try]
    statement ends normally.  When one of the two calls raises or one of
    the five keys is missing, the [try] statement ends with an exception
    raised by that step of the handler, after the first exception was
    printed.  In the raindrop demo the handler prints the exception and
    raises it again: after [shutdown] has run in the [finally] block, [main]
    ends with an exception, the caught one when [shutdown] returns. *)
Theorem caught_exception_handling :
  (∀ w session t e t1,
     Sentrial.main_try w session t = (Raise e, t1) →
     raises (w (length t1 + 2)%nat) = None →
     raises (w (length t1 + 3)%nat) = None →
     (∀ k, k ∈ Sentrial.forwarded_keys →
           is_Some (mapping (w (length t1 + 2)%nat) !! k)) →
     ∃ a,
       try_except (Sentrial.main_try w session) (Sentrial.main_except w session) t
       = (Return tt,
          t1 ++ [Sentrial.print_error (str e); Sentrial.traceback_print_exc;
                 Sentrial.get_usage_summary; Sentrial.complete_session a]) ∧
       Sentrial.success a = false ∧
       Sentrial.failure_reason a = Some (str e) ∧
       Sentrial.session_id a = session) ∧
  (∀ w session t e t1,
     Sentrial.main_try w session t = (Raise e, t1) →
     raises (w (length t1 + 2)%nat) ≠ None ∨
     (∃ k, k ∈ Sentrial.forwarded_keys ∧ mapping (w (length t1 + 2)%nat) !! k = None) ∨
     raises (w (length t1 + 3)%nat) ≠ None →
     ∃ e' rest,
       try_except (Sentrial.main_try w session) (Sentrial.main_except w session) t
       = (Raise e',
          t1 ++ Sentrial.print_error (str e) :: Sentrial.traceback_print_exc
                :: Sentrial.get_usage_summary :: rest)) ∧
  (∀ w g t e t1,
     Raindrop.RAINDROP_AVAILABLE g = true →
     truthy (Raindrop.env g !! "RAINDROP_WRITE_KEY") = true →
     Raindrop.main_try w g t = (Raise e, t1) →
     ∃ e',
       Raindrop.main w g t
       = (Raise e', t1 ++ [Raindrop.print_error (str e); Raindrop.raindrop_shutdown]) ∧
       (raises (w (length t1 + 1)%nat) = None → e' = e)).
Proof.
  split_and!.
  - intros w session t e t1 Htry Hgus Hcs Hkeys.
    unfold try_except. rewrite Htry.
    replace (length t1 + 2)%nat with (S (S (length t1))) in * by lia.
    replace (length t1 + 3)%nat with (S (S (S (length t1)))) in * by lia.
    destruct (main_except_reports w session e (length t1) Hgus Hcs Hkeys t1 eq_refl)
      as (u & u' & Hu & Hm & Ho & a & Hu' & ? & ? & ?).
    rewrite monitor_record in Hm. injection Hm as Hm. simpl in Hm.
    exists a. split; [|done].
    destruct (Sentrial.main_except w session e t1) as [o t2]. simpl in *. congruence.
  - intros w session t e t1 Htry Hfails.
    unfold try_except. rewrite Htry.
    replace (length t1 + 2)%nat with (S (S (length t1))) in * by lia.
    replace (length t1 + 3)%nat with (S (S (S (length t1)))) in * by lia.
    destruct (main_except_fails w session e (length t1) Hfails t1 eq_refl)
      as (u & u' & Hu & Hm & e' & rest & Ho & Hu').
    rewrite monitor_record in Hm. injection Hm as Hm. simpl in Hm.
    exists e', rest.
    destruct (Sentrial.main_except w session e t1) as [o t2]. simpl in *. congruence.
  - intros. by apply main_reraises.
Qed.

Lemma caught_exception_handling_witness :
  let w := failing_at 0 (Exception "model overloaded") Samples.quiet in
  ∃ a,
    try_except (Sentrial.main_try w "sess-1") (Sentrial.main_except w "sess-1") []
    = (Return tt,
       [Sentrial.agent_invoke; Sentrial.print_error "model overloaded";
        Sentrial.traceback_print_exc; Sentrial.get_usage_summary;
        Sentrial.complete_session a]) ∧
    Sentrial.success a = false ∧
    Sentrial.failure_reason a = Some "model overloaded" ∧
    Sentrial.session_id a = "sess-1".
Proof.
  intros w.
  apply (proj1 caught_exception_handling w "sess-1" []
           (Exception "model overloaded") [Sentrial.agent_invoke]).
  - reflexivity.
  - reflexivity.
  - reflexivity.
  - intros k Hk. unfold Sentrial.forwarded_keys in Hk.
    repeat (apply elem_of_cons in Hk as [->|Hk]; [vm_compute; eauto|]).
    by apply elem_of_nil in Hk.
Defined.

(** C3 (as stated) fails in both demos.  In the support-agent demo, when
    [agent.invoke] raises and the handler's [get_usage_summary] call raises
    too, the first exception is printed, the second one leaves the handler
    and the process ends with exit status 1.  In the raindrop demo, as its
    statements are written, when [raindrop.init] raises the handler prints
    the exception and raises it again; [shutdown] runs and the process ends
    with the exception, exit status 1. *)
Lemma caught_exception_propagates :
  (let cfg := Samples.sentrial_config (Some "gk-test") in
   let w := failing_at 9 (Exception "summary unavailable")
              (failing_at 6 (Exception "model overloaded") Samples.quiet) in
   truthy (Sentrial.load_dotenv cfg !! "GEMINI_API_KEY") = true ∧
   drop 6 (run (Sentrial.script cfg w)).2
     = [Sentrial.agent_invoke; Sentrial.print_error "model overloaded";
        Sentrial.traceback_print_exc; Sentrial.get_usage_summary] ∧
   (run (Sentrial.script cfg w)).1 = Raise (Exception "summary unavailable") ∧
   exit_code (run (Sentrial.script cfg w)).1 = 1) ∧
  (let cfg := Samples.raindrop_config (Some "wk-test") in
   let w := failing_at 1 (Exception "invalid write key") Samples.quiet in
   run (Raindrop.execute Raindrop.AsWritten cfg w)
   = (Raise (Exception "invalid write key"),
      [Raindrop.genai_configure "gk-test"; Raindrop.raindrop_init "wk-test";
       Raindrop.print_error "invalid write key"; Raindrop.raindrop_shutdown]) ∧
   exit_code (run (Raindrop.execute Raindrop.AsWritten cfg w)).1 = 1).
Proof. vm_compute. done. Qed.

(** ** The tools of the support agent *)
Section Tools.
Import Sentrial.

Lemma slice_stop_negative len limit :
  0 ≤ len → limit < 0 → slice_stop len limit = Z.max 0 (len + limit).
Proof. intros Hlen Hlimit. unfold slice_stop. destruct (Z.ltb_spec limit 0); lia. Qed.

(** What [get_order_history] computes, for every limit: the header, then
    the lines of the orders the slice [orders[:limit]] keeps. *)
Lemma get_order_history_run (w : world) customer_id limit t :
  get_order_history w customer_id limit t =
    (Return (("Recent orders for " +:+ customer_id +:+ ":" +:+ nl) +:+
             concat_lines (take (Z.to_nat (slice_stop 5 limit)) order_lines)),
     t ++ [time_sleep (1 # 2)]).
Proof.
  unfold get_order_history, mbind, M_bind, bind, libcall, slice_upto.
  change (Z.of_nat (length orders)) with 5.
  apply for_each_append_order, Forall2_take, orders_render.
Qed.

(** [String.prefix] and [contains] decide what their names say. *)
Lemma prefix_occurs needle s :
  String.prefix needle s = true ↔ ∃ after, s = needle +:+ after.
Proof.
  revert s. induction needle as [|a needle IH]; intros s.
  - split; [intros _; by exists s|by destruct s].
  - destruct s as [|b s]; simpl.
    { split; [done|]. intros [after Hs]. discriminate Hs. }
    destruct (Ascii.ascii_dec a b) as [->|Hab].
    + rewrite IH. split; intros [after Hs]; exists after.
      * by rewrite Hs.
      * by injection Hs.
    + split; [done|]. intros [after Hs]. injection Hs as <- _. done.
Qed.

Lemma contains_occurs needle s :
  contains needle s = true ↔ ∃ before after, s = before +:+ needle +:+ after.
Proof.
  induction s as [|b s IH]; cbn [contains].
  - rewrite orb_false_r, prefix_occurs. split.
    + intros [after Hs]. by exists EmptyString, after.
    + intros ([|??] & after & Hs); [by exists after|discriminate Hs].
  - rewrite orb_true_iff, prefix_occurs, IH. split.
    + intros [[after Hs]|(before & after & Hs)].
      * by exists EmptyString, after.
      * exists (String b before), after. by rewrite Hs.
    + intros ([|b' before] & after & Hs).
      * left. by exists after.
      * right. exists before, after. by injection Hs.
Qed.

(** The loop of [search_knowledge_base] stops at the first item whose key
    occurs in the lowered query. *)
Lemma search_articles_first lowered query earlier key arts later :
  Forall (λ item, contains item.1 lowered = false) earlier →
  contains key lowered = true →
  search_articles lowered query (earlier ++ (key, arts) :: later) =
    Some ("Found relevant articles for '" +:+ query +:+ "':" +:+ nl +:+ bullets arts).
Proof.
  intros Hearlier Hkey. induction Hearlier as [|[k a] earlier Hk _ IH]; simpl.
  - by rewrite Hkey.
  - simpl in Hk. by rewrite Hk.
Qed.

Lemma search_articles_none lowered query items :
  Forall (λ item, contains item.1 lowered = false) items →
  search_articles lowered query items = None.
Proof.
  induction 1 as [|[k a] items Hk _ IH]; simpl; [done|].
  simpl in Hk. by rewrite Hk.
Qed.

Lemma search_articles_some lowered query items result :
  search_articles lowered query items = Some result →
  ∃ key arts, (key, arts) ∈ items ∧ contains key lowered = true ∧
    result = "Found relevant articles for '" +:+ query +:+ "':" +:+ nl +:+ bullets arts.
Proof.
  induction items as [|[k a] items IH]; simpl; [done|].
  destruct (contains k lowered) eqn:Hk.
  - intros [= <-]. exists k, a. split; [left|done].
  - intros (key & arts & ? & ?)%IH. exists key, arts. split; [by right|done].
Qed.
End Tools.

(** X1.  A negative limit does not make [get_order_history] fail, and does
    not mean no order: the slice counts from the end, so the tool lists the
    five orders without the last [-limit] of them (none when [limit] is -5
    or less). *)
Theorem get_order_history_negative_limit w customer_id limit t :
  limit < 0 →
  Sentrial.get_order_history w customer_id limit t =
    (Return ("Recent orders for " +:+ customer_id +:+ ":" +:+ nl +:+
             Sentrial.concat_lines (take (Z.to_nat (5 + limit)) Sentrial.order_lines)),
     t ++ [Sentrial.time_sleep (1 # 2)]) ∧
  length (take (Z.to_nat (5 + limit)) Sentrial.order_lines) = Z.to_nat (5 + limit).
Proof.
  intros Hlimit. rewrite get_order_history_run, slice_stop_negative by lia.
  replace (Z.to_nat (Z.max 0 (5 + limit))) with (Z.to_nat (5 + limit)) by lia. split.
  - by rewrite !append_assoc.
  - rewrite length_take. change (length Sentrial.order_lines) with 5%nat. lia.
Qed.

Lemma get_order_history_negative_limit_witness :
  Sentrial.get_order_history Samples.quiet "CUST-12345" (-3) [] =
    (Return ("Recent orders for CUST-12345:" +:+ nl +:+
             "  - ORD-98765: Wireless Headphones Pro - $299.99 (Delivered) - 2024-01-15" +:+ nl +:+
             "  - ORD-98432: Smart Watch Band - $149.50 (Delivered) - 2024-01-10" +:+ nl),
     [Sentrial.time_sleep (1 # 2)]).
Proof.
  destruct (get_order_history_negative_limit Samples.quiet "CUST-12345" (-3) []) as [H _];
    [lia|].
  exact H.
Defined.

(** X2.  [search_knowledge_base] answers with the articles of the first key
    of the [articles] dict, in the order refund, headphones, warranty,
    default, that occurs in the lowered query; keys that come later are not
    looked at, and a query that contains the word default gets the default
    articles under the same heading. *)
Theorem search_knowledge_base_first_match lower w query t earlier key arts later :
  Sentrial.articles = earlier ++ (key, arts) :: later →
  Forall (λ item, contains item.1 (lower query) = false) earlier →
  contains key (lower query) = true →
  Sentrial.search_knowledge_base lower w query t =
    (Return ("Found relevant articles for '" +:+ query +:+ "':" +:+ nl +:+
             Sentrial.bullets arts),
     t ++ [Sentrial.time_sleep (3 # 5)]).
Proof.
  intros Hitems Hearlier Hkey.
  unfold Sentrial.search_knowledge_base, mbind, M_bind, bind, libcall.
  rewrite Hitems.
  by rewrite (search_articles_first _ _ _ _ _ _ Hearlier Hkey).
Qed.

Lemma search_knowledge_base_first_match_witness :
  Sentrial.search_knowledge_base Samples.ascii_lower Samples.quiet
    "Is the WARRANTY of my Headphones still valid?" [] =
    (Return ("Found relevant articles for 'Is the WARRANTY of my Headphones still valid?':"
             +:+ nl +:+ "  - KB-2001: Troubleshooting Wireless Headphones"
             +:+ nl +:+ "  - KB-2002: Pairing Instructions for Headphones Pro"
             +:+ nl +:+ "  - KB-2003: Common Audio Quality Issues"),
     [Sentrial.time_sleep (3 # 5)]).
Proof.
  apply (search_knowledge_base_first_match Samples.ascii_lower Samples.quiet
           "Is the WARRANTY of my Headphones still valid?" []
           (take 1 Sentrial.articles) "headphones"
           [ "KB-2001: Troubleshooting Wireless Headphones";
             "KB-2002: Pairing Instructions for Headphones Pro";
             "KB-2003: Common Audio Quality Issues" ]
           (drop 2 Sentrial.articles)).
  - reflexivity.
  - repeat constructor.
  - reflexivity.
Defined.

(** X3.  [search_knowledge_base] never raises (the fallback key default is a
    key of the dict), every answer lists the three articles of one key, and
    a query whose lowered text contains none of the four keys gets the
    default articles under the heading without the word relevant. *)
Theorem search_knowledge_base_fallback lower w query t :
  (∃ key arts, (key, arts) ∈ Sentrial.articles ∧ length arts = 3%nat ∧
     ∃ heading, heading ∈ ["Found relevant articles for '"; "Found articles for '"] ∧
       Sentrial.search_knowledge_base lower w query t =
         (Return (heading +:+ query +:+ "':" +:+ nl +:+ Sentrial.bullets arts),
          t ++ [Sentrial.time_sleep (3 # 5)])) ∧
  (Forall (λ item, contains item.1 (lower query) = false) Sentrial.articles →
   Sentrial.search_knowledge_base lower w query t =
     (Return ("Found articles for '" +:+ query +:+ "':" +:+ nl +:+
              "  - KB-0001: Contact Support Options" +:+ nl +:+
              "  - KB-0002: Frequently Asked Questions" +:+ nl +:+
              "  - KB-0003: Shipping and Returns Overview"),
      t ++ [Sentrial.time_sleep (3 # 5)])).
Proof.
  assert (Hthree : ∀ key arts, (key, arts) ∈ Sentrial.articles → length arts = 3%nat).
  { intros key arts Hin. unfold Sentrial.articles in Hin.
    repeat (apply elem_of_cons in Hin as [[= -> ->]|Hin]; [done|]).
    by apply elem_of_nil in Hin. }
  split.
  - unfold Sentrial.search_knowledge_base, mbind, M_bind, bind, libcall.
    destruct (Sentrial.search_articles (lower query) query Sentrial.articles)
      as [result|] eqn:Hsearch.
    + apply search_articles_some in Hsearch as (key & arts & Hin & _ & ->).
      exists key, arts. split_and!; [done|by eapply Hthree|].
      exists "Found relevant articles for '". split; [by left|done].
    + eexists "default", _. split_and!; [by do 3 right; left|done|].
      exists "Found articles for '". split; [by right; left|done].
  - intros Hnone.
    unfold Sentrial.search_knowledge_base, mbind, M_bind, bind, libcall.
    by rewrite (search_articles_none _ _ _ Hnone).
Qed.

Lemma search_knowledge_base_fallback_witness :
  Sentrial.search_knowledge_base Samples.ascii_lower Samples.quiet
    "Where is my parcel?" [] =
    (Return ("Found articles for 'Where is my parcel?':" +:+ nl +:+
             "  - KB-0001: Contact Support Options" +:+ nl +:+
             "  - KB-0002: Frequently Asked Questions" +:+ nl +:+
             "  - KB-0003: Shipping and Returns Overview"),
     [Sentrial.time_sleep (3 # 5)]).
Proof.
  apply (proj2 (search_knowledge_base_fallback Samples.ascii_lower Samples.quiet
                  "Where is my parcel?" [])).
  repeat constructor.
Defined.

(** ** What the support-agent demo reports *)
Section SentrialReports.
Import Sentrial.
Context (w : world).

#[local] Ltac solve_success :=
  cbn [success_monitor success andb];
  first [ reflexivity
        | rewrite bool_decide_true;
          [ reflexivity
          | split; [first [assumption | reflexivity] | by intros ?; simplify_eq/=] ] ].

Lemma script_success cfg :
  triple (success_monitor w) 0 false (script cfg w) (λ _ _ _, True).
Proof.
  unfold script, main, main_try, main_except, subscript, last_item.
  repeat (triple_step solve_success).
Qed.

(** What the monitor of success reports accepts, read on the trace. *)
Lemma success_monitor_sound u : ∀ n answered answered',
  monitor (success_monitor w) n answered u = Some answered' →
  ∀ i a, u !! i = Some (complete_session a) → success a = true →
    answered = true ∨
    ∃ j, (j < i)%nat ∧ u !! j = Some agent_invoke ∧
         raises (w (n + j)%nat) = None ∧ messages (w (n + j)%nat) ≠ Some [].
Proof.
  induction u as [|c u IH]; intros n answered answered' Hm i a Hi Ha; [done|].
  simpl in Hm.
  destruct (success_monitor w n answered c) as [answered1|] eqn:Hδ; [|done].
  destruct i as [|i]; simpl in Hi.
  - injection Hi as ->. left. simpl in Hδ. rewrite Ha in Hδ. by destruct answered.
  - destruct (IH _ _ _ Hm _ _ Hi Ha) as [->|(j & ? & ? & ? & ?)].
    + destruct c; simpl in Hδ; try (injection Hδ as ->; by left).
      * injection Hδ as Hδ. apply bool_decide_eq_true in Hδ as [? ?].
        right. exists 0%nat. rewrite Nat.add_0_r. split_and!; [lia|done..].
      * destruct (success args && negb answered); [done|]. injection Hδ as ->. by left.
    + right. exists (S j). replace (n + S j)%nat with (S n + j)%nat by lia.
      split_and!; [lia|done..].
Qed.

#[local] Ltac solve_record := reflexivity.

(** A fault of the reporting code between [agent.invoke] and
    [complete_session] is handled like a failure of the agent. *)
Lemma script_reports_fault cfg :
  missing_module cfg = None →
  truthy (load_dotenv cfg !! "GEMINI_API_KEY") = true →
  calm w →
  (∀ k, k ∈ forwarded_keys → is_Some (mapping (w 11%nat) !! k)) →
  messages (w 6%nat) = Some [] ∨
    (∃ k, k ∈ summary_keys ∧ mapping (w 8%nat) !! k = None) →
  triple record 0 [] (script cfg w) (λ o _ u,
    o = Return tt ∧ u !! 6%nat = Some agent_invoke ∧
    ∃ a, completions u = [a] ∧ success a = false ∧
      (failure_reason a = Some "list index out of range" ∧ messages (w 6%nat) = Some [] ∨
       ∃ k, failure_reason a = Some ("'" +:+ k +:+ "'") ∧ k ∈ summary_keys ∧
            mapping (w 8%nat) !! k = None)).
Proof.
  intros Hmod Hkey Hcalm Hkeys Hfault.
  assert (∀ k, k ∈ forwarded_keys → ∃ v, mapping (w 11%nat) !! k = Some v) as Hk
    by (intros k Hin; apply Hkeys, Hin).
  destruct (Hk "duration_ms") as [v2 H2]; [by repeat constructor|].
  destruct (Hk "total_cost") as [v3 H3]; [by repeat constructor|].
  destruct (Hk "total_prompt_tokens") as [v4 H4]; [by repeat constructor|].
  destruct (Hk "total_completion_tokens") as [v5 H5]; [by repeat constructor|].
  destruct (Hk "total_tokens") as [v6 H6]; [by repeat constructor|].
  clear Hk Hkeys.
  unfold script, main, main_try, main_except, subscript, last_item.
  rewrite Hmod, Hkey. cbn [negb].
  repeat (triple_step solve_record).
  all: first
    [ (* the fault is reported *)
      split; [reflexivity|]; split; [reflexivity|];
      eexists; split; [reflexivity|]; split; [reflexivity|];
      first
        [ left; split; [reflexivity|];
          match goal with
          | H : last ?l = None |- _ => apply last_None in H; by rewrite H
          end
        | right; eexists; split; [reflexivity|]; split; [by repeat constructor|done] ]
    | (* no fault: excluded *)
      exfalso; destruct Hfault as [Hempty|(k & Hin & Hnone)];
      [ by simplify_eq/=
      | unfold summary_keys, forwarded_keys in Hin;
        repeat (apply elem_of_cons in Hin as [->|Hin]; [congruence|]);
        by apply elem_of_nil in Hin ] ].
Qed.

(** An exception raised inside the handler is not caught. *)
Lemma script_handler_fails cfg e :
  missing_module cfg = None →
  truthy (load_dotenv cfg !! "GEMINI_API_KEY") = true →
  (∀ n, (n < 5)%nat → raises (w n) = None) →
  raises (w 6%nat) = Some e →
  raises (w 9%nat) ≠ None ∨
    (∃ k, k ∈ forwarded_keys ∧ mapping (w 9%nat) !! k = None) →
  triple record 0 [] (script cfg w) (λ o _ u,
    (∃ e', o = Raise e' ∧
       (raises (w 9%nat) = Some e' ∨
        raises (w 9%nat) = None ∧
        ∃ k, e' = KeyError k ∧ k ∈ forwarded_keys ∧ mapping (w 9%nat) !! k = None)) ∧
    completions u = [] ∧
    drop 6 u = [agent_invoke; print_error (str e); traceback_print_exc;
                get_usage_summary]).
Proof.
  intros Hmod Hkey Hsetup Hinvoke Hhandler.
  pose proof (Hsetup 0%nat ltac:(lia)). pose proof (Hsetup 1%nat ltac:(lia)).
  pose proof (Hsetup 2%nat ltac:(lia)). pose proof (Hsetup 3%nat ltac:(lia)).
  pose proof (Hsetup 4%nat ltac:(lia)). clear Hsetup.
  unfold script, main, main_try, main_except, subscript, last_item.
  rewrite Hmod, Hkey. cbn [negb].
  repeat (triple_step solve_record).
  all: first
    [ (* the handler fails before [complete_session] *)
      split; [|split; reflexivity];
      eexists; split; [reflexivity|];
      first
        [ by left
        | right; split; [done|];
          eexists; split; [reflexivity|]; split; [by repeat constructor|done] ]
    | (* the handler reads the summary: excluded *)
      exfalso; destruct Hhandler as [Hraises|(k & Hin & Hnone)]; [done|];
      unfold forwarded_keys in Hin;
      repeat (apply elem_of_cons in Hin as [->|Hin]; [congruence|]);
      by apply elem_of_nil in Hin ].
Qed.
End SentrialReports.

(** X4.  The support-agent demo never reports a session as successful
    unless the agent answered: a [complete_session] call with
    [success=True] comes after an [agent.invoke] call that returned, with a
    result whose message list, if it has one, is not empty. *)
Theorem success_needs_agent_answer cfg w i a :
  (run (Sentrial.script cfg w)).2 !! i = Some (Sentrial.complete_session a) →
  Sentrial.success a = true →
  ∃ j, (j < i)%nat ∧
    (run (Sentrial.script cfg w)).2 !! j = Some Sentrial.agent_invoke ∧
    raises (w j) = None ∧ messages (w j) ≠ Some [].
Proof.
  intros Hi Ha.
  destruct (triple_run _ _ _ _ (script_success w cfg)) as (s & Hm & _).
  by destruct (success_monitor_sound w _ _ _ _ Hm _ _ Hi Ha).
Qed.

Lemma success_needs_agent_answer_witness :
  ∃ j, (j < 9)%nat ∧
    (run (Sentrial.script (Samples.sentrial_config (Some "gk-test")) Samples.quiet)).2 !! j
      = Some Sentrial.agent_invoke ∧
    raises (Samples.quiet j) = None ∧ messages (Samples.quiet j) ≠ Some [].
Proof.
  eapply (success_needs_agent_answer (Samples.sentrial_config (Some "gk-test"))
            Samples.quiet 9).
  - vm_compute. reflexivity.
  - reflexivity.
Defined.

(** X5.  A fault of the reporting code that follows a successful agent
    call is recorded as a failure of the session.  When every call returns
    and the summary the handler reads (event 11) holds the five forwarded
    keys, but the result's message list is empty, or the usage summary read
    in the [try] block (event 8) lacks one of the six keys [main] reads,
    the demo still ends normally, and its only [complete_session] call
    reports [success=False] with the text of the IndexError, or the quoted
    name of a missing key, as failure reason. *)
Theorem reporting_fault_recorded_as_failure cfg w :
  Sentrial.missing_module cfg = None →
  truthy (Sentrial.load_dotenv cfg !! "GEMINI_API_KEY") = true →
  calm w →
  (∀ k, k ∈ Sentrial.forwarded_keys → is_Some (mapping (w 11%nat) !! k)) →
  messages (w 6%nat) = Some [] ∨
    (∃ k, k ∈ Sentrial.summary_keys ∧ mapping (w 8%nat) !! k = None) →
  (run (Sentrial.script cfg w)).1 = Return tt ∧
  (run (Sentrial.script cfg w)).2 !! 6%nat = Some Sentrial.agent_invoke ∧
  ∃ a, Sentrial.completions (run (Sentrial.script cfg w)).2 = [a] ∧
    Sentrial.success a = false ∧
    (Sentrial.failure_reason a = Some "list index out of range" ∧
       messages (w 6%nat) = Some [] ∨
     ∃ k, Sentrial.failure_reason a = Some ("'" +:+ k +:+ "'") ∧
          k ∈ Sentrial.summary_keys ∧ mapping (w 8%nat) !! k = None).
Proof.
  intros Hmod Hkey Hcalm Hkeys Hfault.
  destruct (triple_run _ _ _ _ (script_reports_fault w cfg Hmod Hkey Hcalm Hkeys Hfault))
    as (u & Hm & Hpost).
  rewrite monitor_record in Hm. injection Hm as <-. exact Hpost.
Qed.

Lemma reporting_fault_recorded_as_failure_witness :
  let cfg := Samples.sentrial_config (Some "gk-test") in
  let no_count : world := λ n,
    if (n =? 8)%nat
    then {| raises := None; text := EmptyString; number := 0; mapping := ∅;
            messages := None |}
    else Samples.quiet n in
  let no_message : world := λ n,
    if (n =? 6)%nat
    then {| raises := None; text := EmptyString; number := 0; mapping := ∅;
            messages := Some [] |}
    else Samples.quiet n in
  ((run (Sentrial.script cfg no_count)).1 = Return tt ∧
   ∃ a, Sentrial.completions (run (Sentrial.script cfg no_count)).2 = [a] ∧
     Sentrial.success a = false ∧
     (Sentrial.failure_reason a = Some "list index out of range" ∧
        messages (no_count 6%nat) = Some [] ∨
      ∃ k, Sentrial.failure_reason a = Some ("'" +:+ k +:+ "'") ∧
           k ∈ Sentrial.summary_keys ∧ mapping (no_count 8%nat) !! k = None)) ∧
  ((run (Sentrial.script cfg no_message)).1 = Return tt ∧
   ∃ a, Sentrial.completions (run (Sentrial.script cfg no_message)).2 = [a] ∧
     Sentrial.success a = false ∧
     (Sentrial.failure_reason a = Some "list index out of range" ∧
        messages (no_message 6%nat) = Some [] ∨
      ∃ k, Sentrial.failure_reason a = Some ("'" +:+ k +:+ "'") ∧
           k ∈ Sentrial.summary_keys ∧ mapping (no_message 8%nat) !! k = None)).
Proof.
  intros cfg no_count no_message.
  assert (∀ k, k ∈ Sentrial.forwarded_keys →
               is_Some (mapping (Samples.quiet 11%nat) !! k)) as Hkeys.
  { intros k Hk. unfold Sentrial.forwarded_keys in Hk.
    repeat (apply elem_of_cons in Hk as [->|Hk]; [vm_compute; eauto|]).
    by apply elem_of_nil in Hk. }
  split.
  - destruct (reporting_fault_recorded_as_failure cfg no_count) as (Ho & _ & Ha).
    + reflexivity.
    + reflexivity.
    + intros n. unfold no_count. by destruct (n =? 8)%nat.
    + exact Hkeys.
    + right. exists "llm_calls". split; [by left|reflexivity].
    + split; [exact Ho|exact Ha].
  - destruct (reporting_fault_recorded_as_failure cfg no_message) as (Ho & _ & Ha).
    + reflexivity.
    + reflexivity.
    + intros n. unfold no_message. by destruct (n =? 6)%nat.
    + exact Hkeys.
    + left. reflexivity.
    + split; [exact Ho|exact Ha].
Defined.

(** X6.  An exception raised inside the handler is not caught.  When
    [agent.invoke] raises and the handler's own [get_usage_summary] call
    raises, or returns a summary without one of the five keys the handler
    forwards, the process ends with the handler's exception (exit status
    1), after the error was printed, and [complete_session] is never
    called: the session is left open. *)
Theorem handler_failure_leaves_session_open cfg w e :
  Sentrial.missing_module cfg = None →
  truthy (Sentrial.load_dotenv cfg !! "GEMINI_API_KEY") = true →
  (∀ n, (n < 5)%nat → raises (w n) = None) →
  raises (w 6%nat) = Some e →
  raises (w 9%nat) ≠ None ∨
    (∃ k, k ∈ Sentrial.forwarded_keys ∧ mapping (w 9%nat) !! k = None) →
  (∃ e', (run (Sentrial.script cfg w)).1 = Raise e' ∧
     (raises (w 9%nat) = Some e' ∨
      raises (w 9%nat) = None ∧
      ∃ k, e' = KeyError k ∧ k ∈ Sentrial.forwarded_keys ∧
           mapping (w 9%nat) !! k = None)) ∧
  exit_code (run (Sentrial.script cfg w)).1 = 1 ∧
  Sentrial.completions (run (Sentrial.script cfg w)).2 = [] ∧
  drop 6 (run (Sentrial.script cfg w)).2 =
    [Sentrial.agent_invoke; Sentrial.print_error (str e); Sentrial.traceback_print_exc;
     Sentrial.get_usage_summary].
Proof.
  intros Hmod Hkey Hsetup Hinvoke Hhandler.
  destruct (triple_run _ _ _ _
              (script_handler_fails w cfg e Hmod Hkey Hsetup Hinvoke Hhandler))
    as (u & Hm & (e' & Ho & He') & Hnone & Htail).
  rewrite monitor_record in Hm. injection Hm as <-.
  split_and!; [by exists e'|by rewrite Ho|done..].
Qed.

Lemma handler_failure_leaves_session_open_witness :
  let w := failing_at 9 (Exception "summary unavailable")
             (failing_at 6 (Exception "model overloaded") Samples.quiet) in
  exit_code (run (Sentrial.script (Samples.sentrial_config (Some "gk-test")) w)).1 = 1 ∧
  Sentrial.completions
    (run (Sentrial.script (Samples.sentrial_config (Some "gk-test")) w)).2 = [] ∧
  drop 6 (run (Sentrial.script (Samples.sentrial_config (Some "gk-test")) w)).2 =
    [Sentrial.agent_invoke; Sentrial.print_error "model overloaded";
     Sentrial.traceback_print_exc; Sentrial.get_usage_summary].
Proof.
  intros w.
  apply (handler_failure_leaves_session_open (Samples.sentrial_config (Some "gk-test")) w
           (Exception "model overloaded")).
  - reflexivity.
  - reflexivity.
  - intros n Hn. do 5 (destruct n as [|n]; [reflexivity|]). lia.
  - reflexivity.
  - left. discriminate.
Defined.

(** ** Custom metrics of the support-agent demo *)
Section SentrialMetrics.
Import Sentrial.
Context (w : world).

#[local] Ltac solve_metrics :=
  cbn [metrics_monitor];
  first
    [ reflexivity
    | rewrite decide_True;
      [ reflexivity
      | unfold metrics_ok; cbn [success custom_metrics];
        first
          [ reflexivity
          | split; [reflexivity|];
            match goal with
            | H : mapping (w 8%nat) !! "llm_calls" = _ |- _ => by rewrite H
            end ] ] ].

Lemma script_metrics cfg :
  triple (metrics_monitor w) 0 tt (script cfg w) (λ _ _ _, True).
Proof.
  unfold script, main, main_try, main_except, subscript, last_item.
  repeat (triple_step solve_metrics).
Qed.

Lemma metrics_monitor_sound u s' i a :
  monitor (metrics_monitor w) 0 tt u = Some s' →
  u !! i = Some (complete_session a) → metrics_ok w i a.
Proof.
  intros Hm Hi.
  destruct (monitor_lookup _ _ _ _ _ _ _ Hm Hi) as (si & si' & _ & Hδ & _).
  simpl in Hδ. by destruct (decide _).
Qed.
End SentrialMetrics.

(** X7.  The custom metrics of the support-agent demo.  A report of
    success is event 9 of the run and carries five custom metrics: the
    constants 4.5, 1 and 0, [average_handle_time] (the value of
    [int(elapsed)], computed from floating-point clock readings, is not
    part of the model) and, as [tools_called], the [llm_calls] count of the
    usage summary read at event 8, which is a number of LLM calls and not of
    tool calls.  A report of failure carries no custom metrics. *)
Theorem custom_metrics_of_reports cfg w i a :
  (run (Sentrial.script cfg w)).2 !! i = Some (Sentrial.complete_session a) →
  if Sentrial.success a then
    i = 9%nat ∧
    ∃ llm_calls,
      mapping (w 8%nat) !! "llm_calls" = Some llm_calls ∧
      Sentrial.custom_metrics a = Some [
        ("customer_satisfaction_score", Some (9 # 2));
        ("first_contact_resolution", Some (1 # 1));
        ("escalation_rate", Some (0 # 1));
        ("average_handle_time", None);
        ("tools_called", Some llm_calls) ]
  else Sentrial.custom_metrics a = None.
Proof.
  intros Hi.
  destruct (triple_run _ _ _ _ (script_metrics w cfg)) as (s & Hm & _).
  pose proof (metrics_monitor_sound w _ _ _ _ Hm Hi) as Hok.
  unfold Sentrial.metrics_ok in Hok. destruct (Sentrial.success a); [|done].
  destruct Hok as [-> Hok]. split; [done|].
  destruct (mapping (w 8%nat) !! "llm_calls") as [llm_calls|]; [|done]. eauto.
Qed.

Lemma custom_metrics_of_reports_witness :
  ∃ a,
    (run (Sentrial.script (Samples.sentrial_config (Some "gk-test")) Samples.quiet)).2
      !! 9%nat = Some (Sentrial.complete_session a) ∧
    Sentrial.success a = true ∧
    Sentrial.custom_metrics a = Some [
      ("customer_satisfaction_score", Some (9 # 2));
      ("first_contact_resolution", Some (1 # 1));
      ("escalation_rate", Some (0 # 1));
      ("average_handle_time", None);
      ("tools_called", Some 3%Q) ].
Proof.
  assert (∃ a,
    (run (Sentrial.script (Samples.sentrial_config (Some "gk-test")) Samples.quiet)).2
      !! 9%nat = Some (Sentrial.complete_session a) ∧
    Sentrial.success a = true) as (a & Hi & Ha).
  { eexists. split; [vm_compute; reflexivity|reflexivity]. }
  exists a. split; [exact Hi|]. split; [exact Ha|].
  pose proof (custom_metrics_of_reports (Samples.sentrial_config (Some "gk-test"))
                Samples.quiet 9 a Hi) as Hmetrics.
  rewrite Ha in Hmetrics. destruct Hmetrics as [_ (calls & Hcalls & ->)].
  vm_compute in Hcalls. injection Hcalls as <-. vm_compute. reflexivity.
Defined.


(** ** The conversation of the raindrop demo *)
Section RaindropConversation.
Import Raindrop.
Context (w : world).

(** [history[:-1] if len(history) > 1 else []], evaluated right after the
    message of the turn was appended, is the history before the turn. *)
Lemma history_before_turn {A} (history : list A) (x : A) :
  (if bool_decide (1 < length (history ++ [x]))%nat
   then slice_upto (history ++ [x]) (-1) else []) = history.
Proof.
  destruct history as [|y history]; [done|].
  rewrite bool_decide_true by (rewrite length_app; simpl; lia).
  unfold slice_upto, slice_stop. cbn [Z.ltb Z.compare].
  replace (Z.to_nat (Z.max 0 (-1 + Z.of_nat (length ((y :: history) ++ [x])))))
    with (length (y :: history)) by (rewrite length_app; simpl; lia).
  by rewrite take_app_length.
Qed.

#[local] Ltac solve_record := reflexivity.

Lemma conversation_turn_trace convo_id n history i user_msg :
  triple record n [] (conversation_turn w convo_id history (i, user_msg))
    (λ o _ u, ∃ rest,
       u = model_start_chat history :: rest ∧
       ∀ h, o = Return h →
         h = history ++ [("user", user_msg); ("model", text (w (S n)))] ∧
         ∃ rest',
           rest = chat_send_message user_msg
                  :: raindrop_track_ai "test_user_001" "chatbot_turn"
                       (Some ("evt_" +:+ convo_id +:+ "_" +:+ pretty i))
                       user_msg (text (w (S n))) (Some convo_id)
                  :: rest').
Proof.
  unfold conversation_turn. rewrite history_before_turn.
  repeat (triple_step solve_record).
  all: eexists; (split; [reflexivity|]); intros h [=]; subst.
  all: split; [by rewrite <-app_assoc|]; by eexists.
Qed.
End RaindropConversation.

(** X8.  One turn of the conversation of [test_complex_conversation]
    starts the chat with exactly the history it was given, that is the
    messages of the earlier turns and not the message of this turn (which
    is then sent with [send_message]); when the turn returns, the history
    has grown by the user message and the text the model answered, and
    these two are the input and the output of the turn's [track_ai]
    event. *)
Theorem conversation_turn_history w convo_id history i user_msg t :
  ∃ rest,
    (Raindrop.conversation_turn w convo_id history (i, user_msg) t).2
      = t ++ Raindrop.model_start_chat history :: rest ∧
    ∀ h, (Raindrop.conversation_turn w convo_id history (i, user_msg) t).1 = Return h →
      h = history ++ [("user", user_msg); ("model", text (w (S (length t))))] ∧
      ∃ rest',
        rest = Raindrop.chat_send_message user_msg
               :: Raindrop.raindrop_track_ai "test_user_001" "chatbot_turn"
                    (Some ("evt_" +:+ convo_id +:+ "_" +:+ pretty i))
                    user_msg (text (w (S (length t)))) (Some convo_id)
               :: rest'.
Proof.
  destruct (conversation_turn_trace w convo_id (length t) history i user_msg t eq_refl)
    as (u & u' & Hu & Hm & rest & -> & Hpost).
  rewrite monitor_record in Hm. injection Hm as Hm. simpl in Hm. subst u.
  exists rest. split; [done|]. apply Hpost.
Qed.

(** ** Event identifiers of the raindrop demo *)

Lemma append_inv_head (s a b : string) : s +:+ a = s +:+ b → a = b.
Proof.
  induction s as [|c s IH]; [done|].
  change (String c (s +:+ a) = String c (s +:+ b) → a = b). intros [= ?]. by apply IH.
Qed.

(** The decimal text of an integer starts with a digit or with a minus
    sign, never with a letter. *)
Lemma pretty_N_go_head (x : N) : ∀ s,
  (∀ c rest, s = String c rest → (Ascii.nat_of_ascii c < 58)%nat) →
  ∀ c rest, pretty_N_go x s = String c rest → (Ascii.nat_of_ascii c < 58)%nat.
Proof.
  induction (N.lt_wf_0 x) as [x _ IH]; intros s Hs c rest.
  assert (x = 0 ∨ 0 < x)%N as [->|Hx] by lia.
  - rewrite pretty_N_go_0. apply Hs.
  - rewrite pretty_N_go_step by done. apply IH.
    { by apply N.div_lt. }
    intros c' rest' [= <- _]. unfold pretty_N_char.
    repeat case_match; by apply Nat.ltb_lt.
Qed.

Lemma pretty_Z_head (z : Z) c rest :
  pretty z = String c rest → (Ascii.nat_of_ascii c < 58)%nat.
Proof.
  assert (∀ p : positive, ∀ c rest,
            pretty p = String c rest → (Ascii.nat_of_ascii c < 58)%nat) as Hpos.
  { intros p c' rest'. unfold pretty, pretty_positive, pretty, pretty_N.
    rewrite decide_False by done. by apply pretty_N_go_head. }
  destruct z as [|p|p]; unfold pretty, pretty_Z.
  - intros [= <- _]. by apply Nat.ltb_lt.
  - apply Hpos.
  - intros [= <- _]. by apply Nat.ltb_lt.
Qed.

Section RaindropIdentifiers.
Import Raindrop.
Context (w : world).

Lemma convo_id_not_signal_id (z z' : Z) (i : nat) :
  "evt_" +:+ ("convo_" +:+ pretty z') +:+ "_" +:+ pretty i ≠ "evt_" +:+ pretty z.
Proof.
  intros Heq%append_inv_head. symmetry in Heq.
  apply pretty_Z_head, Nat.ltb_lt in Heq. discriminate Heq.
Qed.

Lemma convo_ids_differ (c : string) (i j : nat) :
  i ≠ j → "evt_" +:+ c +:+ "_" +:+ pretty i ≠ "evt_" +:+ c +:+ "_" +:+ pretty j.
Proof.
  intros Hij Heq%append_inv_head%append_inv_head%append_inv_head.
  by apply (inj pretty) in Heq.
Qed.

Lemma error_id_not_signal_id (z z' : Z) :
  "evt_error_" +:+ pretty z' ≠ "evt_" +:+ pretty z.
Proof.
  intros Heq. apply (append_inv_head "evt_" ("error_" +:+ pretty z') (pretty z)) in Heq.
  symmetry in Heq. apply pretty_Z_head, Nat.ltb_lt in Heq. discriminate Heq.
Qed.

Lemma error_id_not_convo_id (z' : Z) (c : string) (i : nat) :
  "evt_error_" +:+ pretty z' ≠ "evt_" +:+ ("convo_" +:+ c) +:+ "_" +:+ pretty i.
Proof.
  intros Heq.
  apply (append_inv_head "evt_" ("error_" +:+ pretty z')
           (("convo_" +:+ c) +:+ "_" +:+ pretty i)) in Heq.
  discriminate Heq.
Qed.

#[local] Ltac fresh_id :=
  rewrite ?not_elem_of_union, ?not_elem_of_singleton; repeat split;
  first [ apply not_elem_of_empty
        | apply convo_id_not_signal_id
        | by apply convo_ids_differ
        | apply error_id_not_signal_id
        | apply error_id_not_convo_id ].

#[local] Ltac solve_unique :=
  cbn [unique_monitor];
  first [ reflexivity | rewrite decide_False; [reflexivity | fresh_id] ].

#[local] Ltac unroll_loop :=
  lazymatch goal with
  | |- triple _ _ _ (for_each ?l _ _) _ =>
    let l' := eval cbv in l in
    change l with l'; cbn [for_each]
  | |- triple _ _ _ (bind _ _) _ => apply triple_bind
  | |- triple _ _ _ (ret _) _ => apply triple_ret
  | |- triple _ _ _ (conversation_turn _ _ _ _) _ => unfold conversation_turn
  | |- triple _ _ _ (if bool_decide (Z.of_nat ?i = ?last) then _ else _) _ =>
    let b := eval vm_compute in (bool_decide (Z.of_nat i = last)) in
    change (bool_decide (Z.of_nat i = last)) with b; cbv iota
  end.

Lemma main_unique g n :
  triple unique_monitor n ∅ (main w g) (λ _ _ _, True).
Proof.
  unfold main, main_try, test_basic_tracking, test_signals, test_partial_events,
    test_complex_conversation, test_error_scenario.
  repeat first [ unroll_loop | triple_step solve_unique ].
Qed.

Lemma program_unique cfg :
  triple unique_monitor 0 ∅ (program cfg w) (λ _ _ _, True).
Proof.
  unfold program, module_body.
  repeat first
    [ eapply triple_conseq; [ by apply main_unique | done ]
    | triple_step solve_unique ].
Qed.

(** What the monitor of identifiers accepts, read on the trace. *)
Lemma unique_monitor_seen u : ∀ n used used',
  monitor unique_monitor n used u = Some used' →
  used ⊆ used' ∧
  ∀ i user event id input output convo,
    u !! i = Some (raindrop_track_ai user event (Some id) input output convo) →
    id ∈ used'.
Proof.
  induction u as [|c u IH]; intros n used used' Hm; simpl in Hm.
  - injection Hm as <-. split; [done|]. by intros i.
  - destruct (unique_monitor n used c) as [used1|] eqn:Hδ; [|done].
    destruct (IH _ _ _ Hm) as [Hsub Hseen].
    assert (used ⊆ used1) as Hused.
    { destruct c; simpl in Hδ; try (injection Hδ as <-; done).
      destruct event_id; [|by injection Hδ as <-].
      destruct (decide _); [done|]. injection Hδ as <-. set_solver. }
    split; [set_solver|].
    intros [|i] user event id input output convo Hi; simpl in Hi; [|by eapply Hseen].
    injection Hi as ->. simpl in Hδ. destruct (decide _); [done|].
    injection Hδ as <-. set_solver.
Qed.

Lemma unique_monitor_sound u used' i j :
  monitor unique_monitor 0 ∅ u = Some used' →
  (i < j)%nat →
  ∀ id user event input output convo user' event' input' output' convo',
    u !! i = Some (raindrop_track_ai user event (Some id) input output convo) →
    u !! j = Some (raindrop_track_ai user' event' (Some id) input' output' convo') →
    False.
Proof.
  intros Hm Hij id user event input output convo user' event' input' output' convo' Hi Hj.
  destruct (monitor_lookup _ _ _ _ _ _ _ Hm Hj) as (sj & sj' & Hsj & Hδ & _).
  simpl in Hδ. destruct (decide (id ∈ sj)) as [|Hfresh]; [done|].
  apply Hfresh. apply unique_monitor_seen in Hsj as [_ Hseen].
  eapply (Hseen i). rewrite lookup_take_lt by lia. exact Hi.
Qed.
End RaindropIdentifiers.

(** X9.  Within a run of the raindrop demo, under either reading, no two
    [track_ai] calls carry the same event identifier, whatever the clock
    answers: the identifiers of the three tests that name their events
    differ by their prefix, those of the turns of a conversation by the
    number of the turn. *)
Theorem event_ids_unique r cfg w i j id
    user event input output convo user' event' input' output' convo' :
  (run (Raindrop.execute r cfg w)).2 !! i
    = Some (Raindrop.raindrop_track_ai user event (Some id) input output convo) →
  (run (Raindrop.execute r cfg w)).2 !! j
    = Some (Raindrop.raindrop_track_ai user' event' (Some id) input' output' convo') →
  i = j.
Proof.
  intros Hi Hj.
  assert (∃ s, monitor Raindrop.unique_monitor 0 ∅ (run (Raindrop.execute r cfg w)).2
               = Some s) as [s Hm].
  { destruct r; cbn [Raindrop.execute].
    - destruct (triple_run _ _ _ _ (program_unique w cfg)) as (s & Hm & _). eauto.
    - exists ∅. by rewrite script_trace. }
  destruct (Nat.lt_trichotomy i j) as [Hlt|[->|Hlt]]; [|done|].
  - by destruct (unique_monitor_sound _ _ _ _ Hm Hlt _ _ _ _ _ _ _ _ _ _ _ Hi Hj).
  - by destruct (unique_monitor_sound _ _ _ _ Hm Hlt _ _ _ _ _ _ _ _ _ _ _ Hj Hi).
Qed.

Lemma event_ids_unique_witness :
  (run (Raindrop.execute Raindrop.AsWritten
          (Samples.raindrop_config (Some "wk-test")) Samples.quiet)).2 !! 9%nat
    = Some (Raindrop.raindrop_track_ai "test_user_001" "chatbot_response"
              (Some "evt_1700000000") "How do I reset my password?"
              "You can reset your password by clicking 'Forgot Password' on the login page."
              None) ∧
  9%nat = 9%nat.
Proof.
  assert ((run (Raindrop.execute Raindrop.AsWritten
                  (Samples.raindrop_config (Some "wk-test")) Samples.quiet)).2 !! 9%nat
          = Some (Raindrop.raindrop_track_ai "test_user_001" "chatbot_response"
                    (Some "evt_1700000000") "How do I reset my password?"
                    "You can reset your password by clicking 'Forgot Password' on the login page."
                    None)) as Hlookup by (vm_compute; reflexivity).
  split; [exact Hlookup|].
  exact (event_ids_unique _ _ _ _ _ _ _ _ _ _ _ _ _ _ _ _ Hlookup Hlookup).
Defined.

(** ** Flushing, the Gemini SDK and initialisation in the raindrop demo *)
Section RaindropFlush.
Import Raindrop.
Context (w : world).

#[local] Ltac solve_flush := cbn [flush_monitor reporting_call orb]; reflexivity.

Lemma conversation_turn_flush convo_id n s history turn :
  triple flush_monitor n s (conversation_turn w convo_id history turn) (λ _ _ _, True).
Proof.
  destruct turn as [i user_msg]. unfold conversation_turn.
  repeat (triple_step solve_flush).
Qed.

#[local] Ltac loop_flush :=
  lazymatch goal with
  | |- triple ?δ _ _ (for_each _ _ _) _ =>
    eapply triple_conseq;
    [ apply (triple_for_each δ (λ _, True));
      [ intros; apply conversation_turn_flush | exact I ]
    | cbv beta; intros [] ? ? _ ]
  end.

Lemma main_flush g n :
  triple flush_monitor n false (main w g)
    (λ o _ s', o = Return tt → s' = false).
Proof.
  unfold main, main_try, test_basic_tracking, test_signals, test_partial_events,
    test_complex_conversation, test_error_scenario.
  repeat first [ triple_step solve_flush | loop_flush | done ].
Qed.

Lemma program_flush cfg :
  triple flush_monitor 0 false (program cfg w)
    (λ o _ s', o = Return tt → s' = false).
Proof.
  unfold program, module_body.
  repeat first
    [ eapply triple_conseq; [ by apply main_flush | done ]
    | triple_step solve_flush | done ].
Qed.

(** What the flush monitor accepts, read on the trace. *)
Lemma flush_monitor_pending u : ∀ n,
  monitor flush_monitor n true u = Some false → ∃ j, u !! j = Some raindrop_flush.
Proof.
  induction u as [|c u IH]; intros n Hm; [done|].
  simpl in Hm. destruct (flush_monitor n true c) as [s1|] eqn:Hδ; [|done].
  destruct c; simpl in Hδ; injection Hδ as <-;
    try (destruct (IH _ Hm) as [j Hj]; by exists (S j)).
  by exists 0%nat.
Qed.

Lemma flush_monitor_sound u : ∀ n s,
  monitor flush_monitor n s u = Some false →
  ∀ i c, u !! i = Some c → reporting_call c = true →
    ∃ j, (i < j)%nat ∧ u !! j = Some raindrop_flush.
Proof.
  induction u as [|c0 u IH]; intros n s Hm i c Hi Hc; [done|].
  simpl in Hm. destruct (flush_monitor n s c0) as [s1|] eqn:Hδ; [|done].
  destruct i as [|i]; simpl in Hi.
  - injection Hi as ->.
    assert (s1 = true) as ->.
    { destruct c; simpl in Hc; try done; simpl in Hδ; injection Hδ as <-;
        by destruct s. }
    destruct (flush_monitor_pending _ _ Hm) as [j Hj]. exists (S j). split; [lia|done].
  - destruct (IH _ _ Hm _ _ Hi Hc) as (j & ? & ?). exists (S j). split; [lia|done].
Qed.
End RaindropFlush.

Section RaindropOffline.
Import Raindrop.
Context (w : world).

#[local] Ltac solve_offline := reflexivity.

Lemma main_offline g n :
  GEMINI_AVAILABLE g = false →
  triple offline_monitor n tt (main w g) (λ _ _ _, True).
Proof.
  intros Hgemini.
  unfold main, main_try, test_basic_tracking, test_signals, test_partial_events,
    test_complex_conversation, test_error_scenario.
  rewrite Hgemini, orb_true_r.
  repeat (triple_step solve_offline).
Qed.

Lemma program_offline cfg :
  genai_installed cfg = false ∨
    truthy (load_dotenv cfg !! "GEMINI_API_KEY") = false →
  triple offline_monitor 0 tt (program cfg w) (λ _ _ _, True).
Proof.
  intros Hoff. unfold program, module_body.
  destruct (genai_installed cfg) eqn:Hinst.
  - destruct Hoff as [?|Hkey]; [done|].
    destruct (load_dotenv cfg !! "GEMINI_API_KEY") as [key|] eqn:Hk; [rewrite Hkey|];
      repeat first [ by apply main_offline | triple_step solve_offline ].
  - repeat first [ by apply main_offline | triple_step solve_offline ].
Qed.

Lemma offline_monitor_sound u : ∀ n s s',
  monitor offline_monitor n s u = Some s' → Forall (λ c, gemini_call c = false) u.
Proof.
  induction u as [|c u IH]; intros n s s' Hm; [constructor|].
  simpl in Hm. unfold offline_monitor at 1 in Hm.
  destruct (gemini_call c) eqn:Hc; [done|]. constructor; [done|by eapply IH].
Qed.
End RaindropOffline.

Section RaindropFirstInit.
Import Raindrop.
Context (w : world).

#[local] Ltac solve_first := cbn [first_init_monitor client_call orb]; reflexivity.

Lemma conversation_turn_first convo_id n history turn :
  triple first_init_monitor n true (conversation_turn w convo_id history turn)
    (λ _ _ s', s' = true).
Proof.
  destruct turn as [i user_msg]. unfold conversation_turn.
  repeat first [ triple_step solve_first | reflexivity ].
Qed.

#[local] Ltac loop_first :=
  lazymatch goal with
  | |- triple ?δ _ ?s (for_each _ _ _) _ =>
    eapply triple_conseq;
    [ apply (triple_for_each δ (λ s', s' = s));
      [ intros ? ? ? ? ->; apply conversation_turn_first | reflexivity ]
    | cbv beta; intros [] ? ? -> ]
  end.

Lemma main_first g n :
  triple first_init_monitor n false (main w g) (λ _ _ _, True).
Proof.
  unfold main.
  destruct (RAINDROP_AVAILABLE g) eqn:Hav; cbn [negb]; [|by apply triple_ret].
  destruct (env g !! "RAINDROP_WRITE_KEY") as [key|] eqn:Hkey;
    cbn [truthy negb]; [|by apply triple_ret].
  destruct (String.eqb key EmptyString) eqn:Hne; cbn [negb]; [by apply triple_ret|].
  unfold main_try, test_basic_tracking, test_signals, test_partial_events,
    test_complex_conversation, test_error_scenario.
  rewrite Hav, Hkey. cbn [negb truthy orb]. rewrite Hne. cbn [negb].
  repeat first [ triple_step solve_first | loop_first ].
Qed.

Lemma program_first cfg :
  triple first_init_monitor 0 false (program cfg w) (λ _ _ _, True).
Proof.
  unfold program, module_body.
  repeat first
    [ eapply triple_conseq; [ by apply main_first | done ]
    | triple_step solve_first ].
Qed.

(** What the monitor accepts, read on the trace. *)
Lemma first_init_monitor_sound u : ∀ n used used',
  monitor first_init_monitor n used u = Some used' →
  ∀ i key, u !! i = Some (raindrop_init key) →
    used = false ∧ ∀ j c, (j < i)%nat → u !! j = Some c → client_call c = false.
Proof.
  induction u as [|c0 u IH]; intros n used used' Hm i key Hi; [done|].
  simpl in Hm. destruct (first_init_monitor n used c0) as [used1|] eqn:Hδ; [|done].
  destruct i as [|i]; simpl in Hi.
  - injection Hi as ->. simpl in Hδ. destruct used; [done|].
    split; [done|]. intros j c Hj. lia.
  - destruct (IH _ _ _ Hm _ _ Hi) as [-> Hbefore].
    assert (used = false ∧ client_call c0 = false) as [-> Hc0].
    { destruct c0; simpl in Hδ; try (destruct used; simpl in Hδ; by simplify_eq). }
    split; [done|]. intros [|j] c Hj Hc; simpl in Hc.
    + by injection Hc as <-.
    + eapply Hbefore; [|done]. lia.
Qed.
End RaindropFirstInit.

(** X10.  A run of the raindrop demo that ends normally has flushed
    everything it reported: every [identify], [track_ai], [track_signal],
    [begin], [add_attachments] and [finish] call is followed, later in the
    run, by a [raindrop.flush()] call. *)
Theorem reports_flushed_before_return r cfg w i c :
  (run (Raindrop.execute r cfg w)).1 = Return tt →
  (run (Raindrop.execute r cfg w)).2 !! i = Some c →
  Raindrop.reporting_call c = true →
  ∃ j, (i < j)%nat ∧ (run (Raindrop.execute r cfg w)).2 !! j = Some Raindrop.raindrop_flush.
Proof.
  intros Ho Hi Hc. destruct r; cbn [Raindrop.execute] in *.
  - destruct (triple_run _ _ _ _ (program_flush w cfg)) as (s & Hm & Hs).
    rewrite (Hs Ho) in Hm. by eapply flush_monitor_sound.
  - by rewrite script_trace in Hi.
Qed.

Lemma reports_flushed_before_return_witness :
  ∃ j, (6 < j)%nat ∧
    (run (Raindrop.execute Raindrop.AsWritten
            (Samples.raindrop_config (Some "wk-test")) Samples.quiet)).2 !! j
      = Some Raindrop.raindrop_flush.
Proof.
  eapply (reports_flushed_before_return Raindrop.AsWritten
            (Samples.raindrop_config (Some "wk-test")) Samples.quiet 6).
  - vm_compute. reflexivity.
  - vm_compute. reflexivity.
  - reflexivity.
Defined.

(** X11.  Without Gemini (the package is not installed, or
    [GEMINI_API_KEY] is unset or empty) the raindrop demo makes no call
    into the Gemini SDK: [genai.configure] is not called, the first test
    tracks its canned answer and the conversation test is skipped. *)
Theorem no_gemini_call_when_unavailable r cfg w :
  Raindrop.genai_installed cfg = false ∨
    truthy (Raindrop.load_dotenv cfg !! "GEMINI_API_KEY") = false →
  Forall (λ c, Raindrop.gemini_call c = false) (run (Raindrop.execute r cfg w)).2.
Proof.
  intros Hoff. destruct r; cbn [Raindrop.execute].
  - destruct (triple_run _ _ _ _ (program_offline w cfg Hoff)) as (s & Hm & _).
    by eapply offline_monitor_sound.
  - rewrite script_trace. constructor.
Qed.

(** X12.  In every run of the raindrop demo, under either reading,
    [raindrop.init] is the first call made to the client: no call to the
    client or to one of its builders precedes it, and it is called at most
    once. *)
Theorem init_is_first_client_call r cfg w :
  (∀ i key, (run (Raindrop.execute r cfg w)).2 !! i = Some (Raindrop.raindrop_init key) →
     ∀ j c, (j < i)%nat → (run (Raindrop.execute r cfg w)).2 !! j = Some c →
       Raindrop.client_call c = false) ∧
  (∀ i j key key',
     (run (Raindrop.execute r cfg w)).2 !! i = Some (Raindrop.raindrop_init key) →
     (run (Raindrop.execute r cfg w)).2 !! j = Some (Raindrop.raindrop_init key') →
     i = j).
Proof.
  assert (∃ s, monitor Raindrop.first_init_monitor 0 false
                 (run (Raindrop.execute r cfg w)).2 = Some s) as [s Hm].
  { destruct r; cbn [Raindrop.execute].
    - destruct (triple_run _ _ _ _ (program_first w cfg)) as (s & Hm & _). eauto.
    - exists false. by rewrite script_trace. }
  assert (∀ i key, (run (Raindrop.execute r cfg w)).2 !! i = Some (Raindrop.raindrop_init key) →
     ∀ j c, (j < i)%nat → (run (Raindrop.execute r cfg w)).2 !! j = Some c →
       Raindrop.client_call c = false) as Hfirst.
  { intros i key Hi. by destruct (first_init_monitor_sound _ _ _ _ Hm _ _ Hi). }
  split; [exact Hfirst|].
  intros i j key key' Hi Hj.
  destruct (Nat.lt_trichotomy i j) as [Hlt|[->|Hlt]]; [|done|].
  - by pose proof (Hfirst _ _ Hj _ _ Hlt Hi).
  - by pose proof (Hfirst _ _ Hi _ _ Hlt Hj).
Qed.

Lemma no_gemini_call_when_unavailable_witness :
  Forall (λ c, Raindrop.gemini_call c = false)
    (run (Raindrop.execute Raindrop.AsWritten
            {| Raindrop.environ := {[ "RAINDROP_WRITE_KEY" := "wk-test" ]};
               Raindrop.dotenv := ∅;
               Raindrop.raindrop_installed := true;
               Raindrop.genai_installed := true |}
            Samples.quiet)).2.
Proof.
  apply (no_gemini_call_when_unavailable Raindrop.AsWritten
           {| Raindrop.environ := {[ "RAINDROP_WRITE_KEY" := "wk-test" ]};
              Raindrop.dotenv := ∅;
              Raindrop.raindrop_installed := true;
              Raindrop.genai_installed := true |}
           Samples.quiet).
  right. reflexivity.
Defined.
(** ** Feedback in the raindrop demo *)
Section RaindropLatest.
Import Raindrop.
Context (w : world).

#[local] Ltac solve_latest :=
  cbn [latest_monitor];
  first [ reflexivity | rewrite decide_True by reflexivity; reflexivity ].

Lemma conversation_turn_latest convo_id n latest history turn :
  triple latest_monitor n latest (conversation_turn w convo_id history turn)
    (λ _ _ _, True).
Proof.
  destruct turn as [i user_msg]. unfold conversation_turn.
  repeat (triple_step solve_latest).
Qed.

#[local] Ltac loop_latest :=
  lazymatch goal with
  | |- triple ?δ _ _ (for_each _ _ _) _ =>
    eapply triple_conseq;
    [ apply (triple_for_each δ (λ _, True));
      [ intros; apply conversation_turn_latest | exact I ]
    | cbv beta; intros [] ? ? _ ]
  end.

Lemma main_latest g n latest :
  triple latest_monitor n latest (main w g) (λ _ _ _, True).
Proof.
  unfold main, main_try, test_basic_tracking, test_signals, test_partial_events,
    test_complex_conversation, test_error_scenario.
  repeat first [ triple_step solve_latest | loop_latest ].
Qed.

Lemma program_latest cfg :
  triple latest_monitor 0 None (program cfg w) (λ _ _ _, True).
Proof.
  unfold program, module_body.
  repeat first
    [ eapply triple_conseq; [ by apply main_latest | done ]
    | triple_step solve_latest ].
Qed.

(** The state of the monitor is the identifier of the last [track_ai] call
    read, when one was read. *)
Lemma latest_monitor_state u : ∀ n latest latest',
  monitor latest_monitor n latest u = Some latest' →
  (latest' = latest ∧ ∀ k c, u !! k = Some c → is_track_ai c = false) ∨
  ∃ j user event input output convo,
    u !! j = Some (raindrop_track_ai user event latest' input output convo) ∧
    ∀ k c, (j < k)%nat → u !! k = Some c → is_track_ai c = false.
Proof.
  induction u as [|c u IH] using rev_ind; intros n latest latest' Hm.
  - injection Hm as <-. left. split; [done|]. by intros k c.
  - rewrite monitor_app in Hm.
    destruct (monitor latest_monitor n latest u) as [s1|] eqn:Hu; [|done].
    simpl in Hm.
    destruct (latest_monitor (n + length u) s1 c) as [s2|] eqn:Hδ; [|done].
    injection Hm as ->.
    destruct (is_track_ai c) eqn:Hc.
    + destruct c; try done. simpl in Hδ. injection Hδ as ->.
      right. exists (length u), user_id, event, input, output, convo_id.
      split; [by rewrite lookup_app_r, Nat.sub_diag by lia|].
      intros k c Hk Hlookup. apply lookup_lt_Some in Hlookup.
      rewrite length_app in Hlookup. simpl in Hlookup. lia.
    + assert (latest' = s1) as ->.
      { destruct c; try done; simpl in Hδ; try by injection Hδ as <-.
        destruct (decide _); [|done]. by injection Hδ as <-. }
      assert (∀ k c', (length u ≤ k)%nat → (u ++ [c]) !! k = Some c' →
                      is_track_ai c' = false) as Hlast.
      { intros k c' Hk Hlookup. rewrite lookup_app_r in Hlookup by lia.
        destruct (k - length u)%nat; simpl in Hlookup; [|done]. by injection Hlookup as <-. }
      destruct (IH _ _ _ Hu) as [[-> Hnone]|(j & user & event & input & output & convo & Hj & Hafter)].
      * left. split; [done|]. intros k c' Hlookup.
        destruct (decide (k < length u)%nat).
        -- rewrite lookup_app_l in Hlookup by lia. by eapply Hnone.
        -- eapply Hlast; [|done]. lia.
      * right. exists j, user, event, input, output, convo.
        split; [by rewrite lookup_app_l by (by eapply lookup_lt_Some)|].
        intros k c' Hk Hlookup.
        destruct (decide (k < length u)%nat).
        -- rewrite lookup_app_l in Hlookup by lia. by eapply Hafter.
        -- eapply Hlast; [|done]. lia.
Qed.

Lemma latest_monitor_sound u latest' i id name kind :
  monitor latest_monitor 0 None u = Some latest' →
  u !! i = Some (raindrop_track_signal id name kind) →
  ∃ j user event input output convo,
    (j < i)%nat ∧
    u !! j = Some (raindrop_track_ai user event (Some id) input output convo) ∧
    ∀ k c, (j < k < i)%nat → u !! k = Some c → is_track_ai c = false.
Proof.
  intros Hm Hi.
  destruct (monitor_lookup _ _ _ _ _ _ _ Hm Hi) as (si & si' & Hsi & Hδ & _).
  simpl in Hδ. destruct (decide (si = Some id)) as [->|]; [|done].
  pose proof (lookup_lt_Some _ _ _ Hi) as Hlen.
  destruct (latest_monitor_state _ _ _ _ Hsi)
    as [[? _]|(j & user & event & input & output & convo & Hj & Hafter)]; [done|].
  pose proof (lookup_lt_Some _ _ _ Hj) as Hji. rewrite length_take in Hji.
  exists j, user, event, input, output, convo. split_and!.
  - lia.
  - by rewrite lookup_take_lt in Hj by lia.
  - intros k c [Hjk Hki] Hk. eapply (Hafter k); [done|].
    by rewrite lookup_take_lt by lia.
Qed.
End RaindropLatest.

(** X13.  In every run of the raindrop demo, under either reading, a
    [track_signal] call gives feedback on the latest event: it names the
    identifier given to the most recent [track_ai] call before it. *)
Theorem signals_name_latest_event r cfg w i id name kind :
  (run (Raindrop.execute r cfg w)).2 !! i
    = Some (Raindrop.raindrop_track_signal id name kind) →
  ∃ j user event input output convo,
    (j < i)%nat ∧
    (run (Raindrop.execute r cfg w)).2 !! j
      = Some (Raindrop.raindrop_track_ai user event (Some id) input output convo) ∧
    ∀ k c, (j < k < i)%nat → (run (Raindrop.execute r cfg w)).2 !! k = Some c →
      Raindrop.is_track_ai c = false.
Proof.
  intros Hi.
  assert (∃ s, monitor Raindrop.latest_monitor 0 None (run (Raindrop.execute r cfg w)).2
               = Some s) as [s Hm].
  { destruct r; cbn [Raindrop.execute].
    - destruct (triple_run _ _ _ _ (program_latest w cfg)) as (s & Hm & _). eauto.
    - exists None. by rewrite script_trace. }
  by eapply latest_monitor_sound.
Qed.

Lemma signals_name_latest_event_witness :
  ∃ j user event input output convo,
    (j < 11)%nat ∧
    (run (Raindrop.execute Raindrop.AsWritten
            (Samples.raindrop_config (Some "wk-test")) Samples.quiet)).2 !! j
      = Some (Raindrop.raindrop_track_ai user event (Some "evt_1700000000")
                input output convo) ∧
    ∀ k c, (j < k < 11)%nat →
      (run (Raindrop.execute Raindrop.AsWritten
              (Samples.raindrop_config (Some "wk-test")) Samples.quiet)).2 !! k = Some c →
      Raindrop.is_track_ai c = false.
Proof.
  apply (signals_name_latest_event Raindrop.AsWritten
           (Samples.raindrop_config (Some "wk-test")) Samples.quiet 11
           "evt_1700000000" "user_feedback" "feedback").
  vm_compute. reflexivity.
Defined.

(** X14.  The set-up of the raindrop module (lines 26-52) never fails with
    an ImportError: a package that cannot be imported only clears its flag.
    [RAINDROP_AVAILABLE] tells whether the raindrop package is installed;
    [GEMINI_AVAILABLE] is set exactly when the Gemini package is installed,
    [GEMINI_API_KEY] is set and not empty, and [genai.configure] returned;
    and the only call the set-up makes is that [genai.configure], with the
    key of the environment. *)
Theorem module_set_up_flags cfg w t :
  (∀ name, (Raindrop.module_body cfg w t).1 ≠ Raise (ImportError name)) ∧
  (∀ g, (Raindrop.module_body cfg w t).1 = Return g →
     Raindrop.env g = Raindrop.load_dotenv cfg ∧
     Raindrop.RAINDROP_AVAILABLE g = Raindrop.raindrop_installed cfg ∧
     (Raindrop.GEMINI_AVAILABLE g = true ↔
        Raindrop.genai_installed cfg = true ∧
        truthy (Raindrop.load_dotenv cfg !! "GEMINI_API_KEY") = true ∧
        raises (w (length t)) = None)) ∧
  (if Raindrop.genai_installed cfg && truthy (Raindrop.load_dotenv cfg !! "GEMINI_API_KEY")
   then ∃ key, Raindrop.load_dotenv cfg !! "GEMINI_API_KEY" = Some key ∧
               (Raindrop.module_body cfg w t).2 = t ++ [Raindrop.genai_configure key]
   else (Raindrop.module_body cfg w t).2 = t).
Proof.
  unfold Raindrop.module_body, mbind, M_bind, bind, try_except_import, mret, M_ret, ret,
    raise, extcall.
  destruct (Raindrop.raindrop_installed cfg), (Raindrop.genai_installed cfg);
    destruct (Raindrop.load_dotenv cfg !! "GEMINI_API_KEY") as [key|];
    cbn [andb truthy];
    try destruct (negb (String.eqb key EmptyString)) eqn:Hkey;
    try destruct (raises (w (length t))) as [[]|];
    simpl; (split_and!; [done| |by eauto]);
    intros g [= <-]; simpl; naive_solver.
Qed.
